(** * flask-docspec: docstring section parser, nullable annotator,
      redirect resolver and path synthesizer

    A shallow embedding of [flask_docspec/docstring.py],
    [flask_docspec/models.py] and [flask_docspec/parser.py], and the
    properties of the specification stated over it.

    Text is modelled as [string]: a sequence of 8-bit code points.  The
    character classes below are Python's on that range ([str.isspace],
    the [\w] and [\s] of [re] on [str] patterns, [str.lower]). *)

From Stdlib Require Import String Ascii List Bool Arith ZArith Lia.
Import ListNotations.
Open Scope list_scope.
Open Scope string_scope.
Open Scope nat_scope.

(* ================================================================== *)
(** * Python strings *)
(* ================================================================== *)

Module PyStr.

Definition code (c : ascii) : nat := nat_of_ascii c.

Definition in_range (lo hi : nat) (c : ascii) : bool :=
  (lo <=? code c) && (code c <=? hi).

(** [str.isspace] on one character; also [\s] of [re]. *)
Definition isspace (c : ascii) : bool :=
  in_range 9 13 c || in_range 28 32 c || (code c =? 133) || (code c =? 160).

Definition isdigit (c : ascii) : bool := in_range 48 57 c.
Definition isupper_ascii (c : ascii) : bool := in_range 65 90 c.
Definition islower_ascii (c : ascii) : bool := in_range 97 122 c.
Definition isalpha_ascii (c : ascii) : bool := isupper_ascii c || islower_ascii c.
(** [[a-zA-Z0-9]] *)
Definition isalnum_ascii (c : ascii) : bool := isalpha_ascii c || isdigit c.

(** [\w] of [re]: alphanumeric (in the Unicode sense) or underscore. *)
Definition isword (c : ascii) : bool :=
  isalnum_ascii c || (code c =? 95)
  || (code c =? 170) || (code c =? 178) || (code c =? 179) || (code c =? 181)
  || (code c =? 185) || (code c =? 186) || in_range 188 190 c
  || in_range 192 214 c || in_range 216 246 c || in_range 248 255 c.

(** Cased letters: [str.title] and [str.capitalize] look at these. *)
Definition isupper (c : ascii) : bool :=
  isupper_ascii c || (in_range 192 222 c && negb (code c =? 215)).
Definition islower (c : ascii) : bool :=
  islower_ascii c || (in_range 223 255 c && negb (code c =? 247))
  || (code c =? 170) || (code c =? 181) || (code c =? 186).

Definition lower_char (c : ascii) : ascii :=
  if isupper c then ascii_of_nat (code c + 32) else c.

(** Upper-casing; the three letters whose capital lies outside the
    8-bit range (181, 223, 255) are left as they are. *)
Definition upper_char (c : ascii) : ascii :=
  if islower_ascii c || (in_range 224 254 c && negb (code c =? 247))
  then ascii_of_nat (code c - 32) else c.

Fixpoint map_str (f : ascii -> ascii) (s : string) : string :=
  match s with
  | EmptyString => EmptyString
  | String c s' => String (f c) (map_str f s')
  end.

Definition lower (s : string) : string := map_str lower_char s.
Definition upper (s : string) : string := map_str upper_char s.

Definition is_empty (s : string) : bool :=
  match s with EmptyString => true | _ => false end.

(** Truthiness of a [str]. *)
Definition truthy (s : string) : bool := negb (is_empty s).

Fixpoint rev_str (s : string) : string :=
  match s with
  | EmptyString => EmptyString
  | String c s' => rev_str s' ++ String c EmptyString
  end.

(** [s.lstrip(chars)] with the character set given as a predicate. *)
Fixpoint lstrip_by (p : ascii -> bool) (s : string) : string :=
  match s with
  | EmptyString => EmptyString
  | String c s' => if p c then lstrip_by p s' else s
  end.

Definition rstrip_by (p : ascii -> bool) (s : string) : string :=
  rev_str (lstrip_by p (rev_str s)).

Definition strip_by (p : ascii -> bool) (s : string) : string :=
  rstrip_by p (lstrip_by p s).

Fixpoint mem_char (c : ascii) (chars : string) : bool :=
  match chars with
  | EmptyString => false
  | String d chars' => Ascii.eqb c d || mem_char c chars'
  end.

(** [s.lstrip()], [s.rstrip()], [s.strip()]: whitespace. *)
Definition lstrip (s : string) : string := lstrip_by isspace s.
Definition rstrip (s : string) : string := rstrip_by isspace s.
Definition strip (s : string) : string := strip_by isspace s.
(** [s.strip(chars)] and its one-sided forms. *)
Definition lstrip_chars (chars s : string) : string := lstrip_by (fun c => mem_char c chars) s.
Definition rstrip_chars (chars s : string) : string := rstrip_by (fun c => mem_char c chars) s.
Definition strip_chars (chars s : string) : string := strip_by (fun c => mem_char c chars) s.

Fixpoint startswith (p s : string) : bool :=
  match p, s with
  | EmptyString, _ => true
  | String a p', String b s' => Ascii.eqb a b && startswith p' s'
  | String _ _, EmptyString => false
  end.

Definition endswith (p s : string) : bool := startswith (rev_str p) (rev_str s).

Fixpoint drop (n : nat) (s : string) : string :=
  match n, s with
  | O, _ => s
  | S n', String _ s' => drop n' s'
  | S _, EmptyString => EmptyString
  end.

Fixpoint take (n : nat) (s : string) : string :=
  match n, s with
  | O, _ => EmptyString
  | S n', String c s' => String c (take n' s')
  | S _, EmptyString => EmptyString
  end.

(** [sub in s] *)
Fixpoint contains (sub s : string) : bool :=
  startswith sub s ||
  match s with
  | EmptyString => false
  | String _ s' => contains sub s'
  end.

(** [sep.join(parts)] *)
Fixpoint join (sep : string) (parts : list string) : string :=
  match parts with
  | [] => EmptyString
  | [p] => p
  | p :: rest => p ++ sep ++ join sep rest
  end.

(** [s.split(sep)] for a one-character separator, cut at most [maxsplit]
    times ([None]: no limit). *)
Fixpoint split_char_aux (sep : ascii) (maxsplit : option nat) (acc s : string)
  : list string :=
  match s with
  | EmptyString => [rev_str acc]
  | String c s' =>
      if Ascii.eqb c sep then
        match maxsplit with
        | Some O => split_char_aux sep maxsplit (String c acc) s'
        | Some (S m) => rev_str acc :: split_char_aux sep (Some m) EmptyString s'
        | None => rev_str acc :: split_char_aux sep None EmptyString s'
        end
      else split_char_aux sep maxsplit (String c acc) s'
  end.

Definition split_char (sep : ascii) (maxsplit : option nat) (s : string) : list string :=
  split_char_aux sep maxsplit EmptyString s.

(** [s.replace(old, new)], [old] non-empty. *)
Fixpoint replace_aux (fuel : nat) (old new s : string) : string :=
  match fuel with
  | O => s
  | S fuel' =>
      match s with
      | EmptyString => EmptyString
      | String c s' =>
          if startswith old s
          then new ++ replace_aux fuel' old new (drop (String.length old) s)
          else String c (replace_aux fuel' old new s')
      end
  end.

Definition replace (old new s : string) : string :=
  replace_aux (S (String.length s)) old new s.

(** Line boundaries of [str.splitlines] in the 8-bit range. *)
Definition is_linebreak (c : ascii) : bool :=
  in_range 10 13 c || in_range 28 30 c || (code c =? 133).

(** [s.splitlines()]: a carriage return directly followed by a line feed
    is one boundary; no empty last line after a final boundary. *)
Fixpoint splitlines_aux (acc s : string) : list string :=
  match s with
  | EmptyString => if is_empty acc then [] else [rev_str acc]
  | String c s' =>
      if is_linebreak c then
        rev_str acc ::
          match s' with
          | String d s'' =>
              if (code c =? 13) && (code d =? 10)
              then splitlines_aux EmptyString s''
              else splitlines_aux EmptyString s'
          | EmptyString => []
          end
      else splitlines_aux (String c acc) s'
  end.

Definition splitlines (s : string) : list string := splitlines_aux EmptyString s.

(** [x[0].upper() + x[1:]]; indexing an empty string raises. *)
Definition capitalize (x : string) : option string :=
  match x with
  | EmptyString => None
  | String c x' => Some (String (upper_char c) x')
  end.

(** [str.title()]: the first cased letter of each run of letters is
    upper-cased, the others lower-cased. *)
Fixpoint title_aux (prev_cased : bool) (s : string) : string :=
  match s with
  | EmptyString => EmptyString
  | String c s' =>
      let cased := isupper c || islower c in
      String (if cased then (if prev_cased then lower_char c else upper_char c) else c)
             (title_aux cased s')
  end.

Definition title (s : string) : string := title_aux false s.

Definition nl : ascii := ascii_of_nat 10.
Definition backtick : ascii := ascii_of_nat 96.

End PyStr.

(* ================================================================== *)
(** * Regular expressions

    A backtracking matcher in the order of Python's [re]: alternatives
    left to right, greedy repetition longest first, lazy repetition
    shortest first, the first success wins.  Groups record the text they
    matched last. *)
(* ================================================================== *)

Module Re.

Inductive regex : Type :=
| Chr (p : ascii -> bool)          (* one character of a class *)
| Eps                              (* the empty pattern *)
| Cat (a b : regex)                (* ab *)
| Alt (a b : regex)                (* a|b *)
| Star (greedy : bool) (a : regex) (* a* and a*? *)
| Group (n : nat) (a : regex)      (* the n-th parenthesis *)
| Bol                              (* ^ *)
| Eol.                             (* $ *)

Definition caps : Type := list (nat * string).

Definition lit (c : ascii) : regex := Chr (Ascii.eqb c).
(** [.]: anything but a line feed. *)
Definition dot : regex := Chr (fun c => negb (Ascii.eqb c PyStr.nl)).
Definition plus (greedy : bool) (a : regex) : regex := Cat a (Star greedy a).
(** [a?] *)
Definition opt (a : regex) : regex := Alt a Eps.

Fixpoint str (s : string) : regex :=
  match s with
  | EmptyString => Eps
  | String c s' => Cat (lit c) (str s')
  end.

Fixpoint cat (rs : list regex) : regex :=
  match rs with
  | [] => Eps
  | [r] => r
  | r :: rs' => Cat r (cat rs')
  end.

(** [run r total s cs k]: match [r] at the front of [s], the subject
    being [total] characters long, and hand what is left to [k]; [None]
    sends the matcher back to its last choice. *)
Fixpoint run {A : Type} (r : regex) (total : nat) (s : string) (cs : caps)
         (k : string -> caps -> option A) {struct r} : option A :=
  match r with
  | Chr p =>
      match s with
      | String c s' => if p c then k s' cs else None
      | EmptyString => None
      end
  | Eps => k s cs
  | Cat a b => run a total s cs (fun s' cs' => run b total s' cs' k)
  | Alt a b =>
      match run a total s cs k with
      | Some x => Some x
      | None => run b total s cs k
      end
  | Star greedy a =>
      (fix loop (fuel : nat) (s : string) (cs : caps) {struct fuel} : option A :=
         match fuel with
         | O => k s cs
         | S fuel' =>
             let again :=
               run a total s cs
                   (fun s' cs' =>
                      if String.length s' <? String.length s
                      then loop fuel' s' cs' else None) in
             if greedy then
               match again with
               | Some x => Some x
               | None => k s cs
               end
             else
               match k s cs with
               | Some x => Some x
               | None => again
               end
         end) (String.length s) s cs
  | Group n a =>
      run a total s cs
          (fun s' cs' =>
             k s' ((n, PyStr.take (String.length s - String.length s') s) :: cs'))
  | Bol => if String.length s =? total then k s cs else None
  | Eol =>
      match s with
      | EmptyString => k s cs
      | String c EmptyString => if Ascii.eqb c PyStr.nl then k s cs else None
      | _ => None
      end
  end.

(** What a successful match leaves: the text before it, the text matched,
    the text after it, the groups. *)
Record found : Type := Found
  { before : string; matched : string; after : string; groups : caps }.

Definition match_at (r : regex) (total : nat) (pre : string) (s : string)
  : option found :=
  run r total s []
      (fun s' cs =>
         Some (Found pre (PyStr.take (String.length s - String.length s') s) s' cs)).

(** [re.match(r, s)] *)
Definition rmatch (r : regex) (s : string) : option found :=
  match_at r (String.length s) EmptyString s.

Definition matches (r : regex) (s : string) : bool :=
  match rmatch r s with Some _ => true | None => false end.

(** [m.group(n)]; a group that took no part is [None] in Python, read
    here as the empty text. *)
Fixpoint group (n : nat) (cs : caps) : string :=
  match cs with
  | [] => EmptyString
  | (m, t) :: cs' => if m =? n then t else group n cs'
  end.

Fixpoint search_from (r : regex) (total : nat) (pre_rev s : string) : option found :=
  match match_at r total (PyStr.rev_str pre_rev) s with
  | Some f => Some f
  | None =>
      match s with
      | EmptyString => None
      | String c s' => search_from r total (String c pre_rev) s'
      end
  end.

(** [re.search(r, s)] *)
Definition search (r : regex) (s : string) : option found :=
  search_from r (String.length s) EmptyString s.

(** The successive non-overlapping matches, leftmost first, of a pattern
    that never matches the empty text and has no [^]; at most [count] of
    them when [count] is given. *)
Fixpoint scan (fuel : nat) (r : regex) (count : option nat) (s : string)
  : list found * string :=
  match fuel with
  | O => ([], s)
  | S fuel' =>
      match count with
      | Some O => ([], s)
      | _ =>
          match search r s with
          | Some f =>
              if PyStr.is_empty (matched f) then ([], s)
              else
                let count' := match count with Some (S c) => Some c | _ => None end in
                let '(fs, rest) := scan fuel' r count' (after f) in
                (f :: fs, rest)
          | None => ([], s)
          end
      end
  end.

Definition scan_all (r : regex) (count : option nat) (s : string) : list found * string :=
  scan (S (String.length s)) r count s.

(** [re.split(r, s)] for a pattern with one group: the texts between
    the matches, each match's group in between. *)
Definition split (r : regex) (s : string) : list string :=
  let '(fs, rest) := scan_all r None s in
  (flat_map (fun f => [before f; group 1 (groups f)]) fs ++ [rest])%list.

(** [re.findall(r, s)] for a pattern without group: the texts matched. *)
Definition findall (r : regex) (s : string) : list string :=
  map matched (fst (scan_all r None s)).

(** [re.findall(r, s)] for a pattern with one group: the group's texts. *)
Definition findall1 (r : regex) (s : string) : list string :=
  map (fun f => group 1 (groups f)) (fst (scan_all r None s)).

(** [re.sub(r, repl, s, count)]: [repl] gives the replacement of a match. *)
Definition sub (r : regex) (repl : found -> string) (count : option nat) (s : string)
  : string :=
  let '(fs, rest) := scan_all r count s in
  fold_right (fun f acc => before f ++ repl f ++ acc) rest fs.

End Re.

(* ================================================================== *)
(** * Exceptions and results *)
(* ================================================================== *)

(** The exceptions the modelled code raises. *)
Inductive exn : Type :=
| StopIteration | AttributeError | IndexError | KeyError | ValueError
| TypeError | NameError | ImportError | SyntaxError.

(** What a call comes to: a value, an exception, or the end of the fuel
    of a loop of the model (the theorems show the fuel given is enough). *)
Inductive result (A : Type) : Type :=
| Ok (a : A)
| Raise (e : exn)
| Fuel.

Arguments Ok {A} a.
Arguments Raise {A} e.
Arguments Fuel {A}.

Definition bind {A B : Type} (m : result A) (f : A -> result B) : result B :=
  match m with
  | Ok a => f a
  | Raise e => Raise e
  | Fuel => Fuel
  end.

Notation "x <- m ;; k" := (bind m (fun x => k))
  (at level 61, m at next level, right associativity).
Notation "' p <- m ;; k" := (bind m (fun x => let p := x in k))
  (at level 61, p pattern, m at next level, right associativity).

Definition is_ok {A : Type} (m : result A) : bool :=
  match m with Ok _ => true | _ => false end.

(** A Python [dict] with [str] keys: insertion order, one entry a key. *)
Fixpoint dict_set {V : Type} (k : string) (v : V) (d : list (string * V))
  : list (string * V) :=
  match d with
  | [] => [(k, v)]
  | (k', v') :: d' =>
      if String.eqb k k' then (k, v) :: d' else (k', v') :: dict_set k v d'
  end.

Fixpoint dict_get {V : Type} (k : string) (d : list (string * V)) : option V :=
  match d with
  | [] => None
  | (k', v') :: d' => if String.eqb k k' then Some v' else dict_get k d'
  end.

Definition dict_has {V : Type} (k : string) (d : list (string * V)) : bool :=
  match dict_get k d with Some _ => true | None => false end.

(* ================================================================== *)
(** * docstring.py: [GoogleDocstring] *)
(* ================================================================== *)

Module Docstring.
Import PyStr.

(** ** The patterns of the module *)

Definition space : Re.regex := Re.Chr isspace.
Definition nonspace : Re.regex := Re.Chr (fun c => negb (isspace c)).
Definition alnum : Re.regex := Re.Chr isalnum_ascii.
(** [[\-_+:.]] *)
Definition role_sep : Re.regex := Re.Chr (fun c => mem_char c "-_+:.").

(** [\.\. \S+::] *)
Definition _directive_regex : Re.regex :=
  Re.cat [Re.str ".. "; Re.plus true nonspace; Re.str "::"].

(** [^(\s|\w)+:\s*$] *)
Definition _google_section_regex : Re.regex :=
  Re.cat [Re.Bol; Re.plus true (Re.Group 1 (Re.Alt space (Re.Chr isword)));
          Re.str ":"; Re.Star true space; Re.Eol].

(** [\s*(.+?)\s*\(\s*(.*[^\s]+)\s*\)] *)
Definition _google_typed_arg_regex : Re.regex :=
  Re.cat [Re.Star true space; Re.Group 1 (Re.plus false Re.dot);
          Re.Star true space; Re.str "("; Re.Star true space;
          Re.Group 2 (Re.Cat (Re.Star true Re.dot) (Re.plus true nonspace));
          Re.Star true space; Re.str ")"].

(** [(:(?:[a-zA-Z0-9]+[\-_+:.])*[a-zA-Z0-9]+:`.+?`)] *)
Definition _xref_regex : Re.regex :=
  Re.Group 1
    (Re.cat [Re.str ":"; Re.Star true (Re.Cat (Re.plus true alnum) role_sep);
             Re.plus true alnum; Re.str ":"; Re.lit backtick;
             Re.plus false Re.dot; Re.lit backtick]).

(** [re.sub(r'(.+)(:[a-zA-Z0-9]+[\-_+:.])`(.+?)`', r'\3', x)] *)
Definition _ref_repl (x : string) : string :=
  Re.sub
    (Re.cat [Re.Group 1 (Re.plus true Re.dot);
             Re.Group 2 (Re.cat [Re.str ":"; Re.plus true alnum; role_sep]);
             Re.lit backtick; Re.Group 3 (Re.plus false Re.dot); Re.lit backtick])
    (fun f => Re.group 3 (Re.groups f)) None x.

(** [_single_colon_regex.search(source)], the pattern being
    [(?<!:):(?!:)]: the first colon with no colon next to it; the text
    before it and the text after it. *)
Fixpoint single_colon_search (prev_colon : bool) (pre_rev s : string)
  : option (string * string) :=
  match s with
  | EmptyString => None
  | String c s' =>
      let is_colon := Ascii.eqb c ":"%char in
      if is_colon && negb prev_colon && negb (startswith ":" s')
      then Some (rev_str pre_rev, s')
      else single_colon_search is_colon (String c pre_rev) s'
  end.

(** ** The sections *)

Inductive section_kind : Type :=
| KParameters | KAttributes | KExamples | KKeywordArguments | KMethods
| KOtherParameters | KSchemas | KMap | KTags | KRequests | KResponses
| KReturns.

(** [self._sections]: the reducer of each header. *)
Definition _sections : list (string * section_kind) :=
  [ ("args", KParameters); ("arguments", KParameters);
    ("attributes", KAttributes);
    ("example", KExamples); ("examples", KExamples);
    ("keyword args", KKeywordArguments); ("keyword arguments", KKeywordArguments);
    ("methods", KMethods);
    ("other parameters", KOtherParameters);
    ("parameters", KParameters);
    ("schema", KSchemas); ("schemas", KSchemas);
    ("map", KMap); ("maps", KMap);
    ("tag", KTags); ("tags", KTags);
    ("request", KRequests); ("requests", KRequests);
    ("response", KResponses); ("responses", KResponses);
    ("return", KReturns); ("returns", KReturns) ].

(** ** Indentation *)

Fixpoint _get_indent (line : string) : nat :=
  match line with
  | EmptyString => 0
  | String c line' => if isspace c then S (_get_indent line') else 0
  end.

Fixpoint _is_indented (line : string) (indent : nat) : bool :=
  match line with
  | EmptyString => false
  | String c line' =>
      match indent with
      | O => true
      | S indent' => if isspace c then _is_indented line' indent' else false
      end
  end.

Fixpoint first_indent (lines : list string) : nat :=
  match lines with
  | [] => 0
  | line :: lines' => if truthy line then _get_indent line else first_indent lines'
  end.

(** The iterator is the list of the lines not consumed yet, each already
    right-stripped; peeking past its end gives the sentinel. *)
Definition _get_current_indent (peek_ahead : nat) (rest : list string) : nat :=
  first_indent (skipn peek_ahead rest).

Definition _get_initial_indent (lines : list string) : nat := first_indent lines.

Fixpoint _get_min_indent_aux (min_indent : option nat) (lines : list string)
  : option nat :=
  match lines with
  | [] => min_indent
  | line :: lines' =>
      if truthy line then
        let indent := _get_indent line in
        match min_indent with
        | None => _get_min_indent_aux (Some indent) lines'
        | Some m =>
            _get_min_indent_aux (if indent <? m then Some indent else Some m) lines'
        end
      else _get_min_indent_aux min_indent lines'
  end.

Definition _get_min_indent (lines : list string) : nat :=
  match _get_min_indent_aux None lines with
  | Some m => m
  | None => 0
  end.

(** [_dedent(lines)], [full] false. *)
Definition _dedent (lines : list string) : list string :=
  let min_indent := _get_min_indent lines in
  map (drop min_indent) lines.

Fixpoint drop_empty (lines : list string) : list string :=
  match lines with
  | [] => []
  | line :: lines' => if truthy line then lines else drop_empty lines'
  end.

(** [_strip_empty(lines)]: the lines from the first non-empty one to the
    last. *)
Definition _strip_empty (lines : list string) : list string :=
  rev (drop_empty (rev (drop_empty lines))).

(** ** Headers and breaks *)

(** [_is_section_header()], the iterator holding [line] and then [after].
    Every call of the source stands behind [has_next()]. *)
Definition _is_section_header (line : string) (after : list string) : bool :=
  let section := strip_chars " " (lower line) in
  if Re.matches _google_section_regex section
     && dict_has (strip_chars ":" section) _sections
  then
    let header_indent := _get_indent section in
    let section_indent := _get_current_indent 1 (line :: after) in
    header_indent <? section_indent
  else false.

(** [_is_section_break()], under [self._is_in_section] and
    [self._section_indent]. *)
Definition _is_section_break (in_section : bool) (section_indent : nat)
           (rest : list string) : bool :=
  match rest with
  | [] => true
  | line :: after =>
      _is_section_header line after
      || (in_section && truthy line && negb (_is_indented line section_indent))
  end.

(** ** Consumers: each gives the lines taken and the lines left *)

Fixpoint _consume_empty (rest : list string) : list string * list string :=
  match rest with
  | [] => ([], [])
  | line :: after =>
      if truthy line then ([], rest)
      else let '(ls, r) := _consume_empty after in (line :: ls, r)
  end.

Fixpoint _consume_contiguous (rest : list string) : list string * list string :=
  match rest with
  | [] => ([], [])
  | line :: after =>
      if truthy line && negb (_is_section_header line after)
      then let '(ls, r) := _consume_contiguous after in (line :: ls, r)
      else ([], rest)
  end.

Fixpoint consume_until_break (in_section : bool) (section_indent : nat)
         (rest : list string) : list string * list string :=
  match rest with
  | [] => ([], [])
  | line :: after =>
      if _is_section_break in_section section_indent rest then ([], rest)
      else
        let '(ls, r) := consume_until_break in_section section_indent after in
        (line :: ls, r)
  end.

Definition _consume_to_next_section (in_section : bool) (section_indent : nat)
           (rest : list string) : list string * list string :=
  let '(_, r1) := _consume_empty rest in
  let '(lines, r2) := consume_until_break in_section section_indent r1 in
  let '(empties, r3) := _consume_empty r2 in
  ((lines ++ empties)%list, r3).

Fixpoint _consume_indented_block (in_section : bool) (section_indent : nat)
         (indent : nat) (rest : list string) : list string * list string :=
  match rest with
  | [] => ([], [])
  | line :: after =>
      if negb (_is_section_break in_section section_indent rest)
         && (negb (truthy line) || _is_indented line indent)
      then
        let '(ls, r) := _consume_indented_block in_section section_indent indent after in
        (line :: ls, r)
      else ([], rest)
  end.

(** ** Fields *)

(** A field: [(_name, _type, _desc)]. *)
Definition field : Type := (string * string * list string)%type.

Fixpoint partition_loop (i : nat) (pieces : list string) (found_colon : bool)
         (before_colon colon after_colon : string) : string * string * string :=
  match pieces with
  | [] => (strip before_colon, colon, strip after_colon)
  | source :: pieces' =>
      if found_colon
      then partition_loop (S i) pieces' true before_colon colon (after_colon ++ source)
      else
        match (if Nat.even i then single_colon_search false EmptyString source
               else None) with
        | Some (b, a) =>
            partition_loop (S i) pieces' true (before_colon ++ b) ":" (after_colon ++ a)
        | None =>
            partition_loop (S i) pieces' false (before_colon ++ source) colon after_colon
        end
  end.

Definition _partition_field_on_colon (line : string) : string * string * string :=
  partition_loop 0 (Re.split _xref_regex line) false EmptyString EmptyString EmptyString.

Definition _escape_args_and_kwargs (name : string) : string :=
  if String.eqb (take 2 name) "**" then "\*\*" ++ drop 2 name
  else if String.eqb (take 1 name) "*" then "\*" ++ drop 1 name
  else name.

(** [_consume_field]: the text after the colon is partitioned off and
    not returned; the description is the indented block that follows. *)
Definition _consume_field (in_section : bool) (section_indent : nat)
           (parse_type prefer_type : bool) (rest : list string)
  : result (field * list string) :=
  match rest with
  | [] => Raise StopIteration
  | line :: after =>
      let '(before, colon, after_colon) := _partition_field_on_colon line in
      let '(_name, _type) :=
        if parse_type then
          match Re.rmatch _google_typed_arg_regex before with
          | Some m => (Re.group 1 (Re.groups m), Re.group 2 (Re.groups m))
          | None => (before, EmptyString)
          end
        else (before, EmptyString) in
      let _name := _escape_args_and_kwargs _name in
      let '(_name, _type) :=
        if prefer_type && negb (truthy _type) then (_type, _name) else (_name, _type) in
      let indent := _get_indent line + 1 in
      let '(block, r) := _consume_indented_block in_section section_indent indent after in
      Ok ((_name, _type, _dedent block), r)
  end.

Definition field_truthy (f : field) : bool :=
  let '(_name, _type, _desc) := f in
  truthy _name || truthy _type || negb (match _desc with [] => true | _ => false end).

Fixpoint consume_fields_loop (fuel : nat) (in_section : bool) (section_indent : nat)
         (parse_type prefer_type : bool) (rest : list string)
  : result (list field * list string) :=
  if _is_section_break in_section section_indent rest then Ok ([], rest)
  else
    match fuel with
    | O => Fuel
    | S fuel' =>
        '(f, r) <- _consume_field in_section section_indent parse_type prefer_type rest ;;
        '(fs, r') <- consume_fields_loop fuel' in_section section_indent
                                         parse_type prefer_type r ;;
        Ok (if field_truthy f then f :: fs else fs, r')
    end.

Definition _consume_fields (in_section : bool) (section_indent : nat)
           (parse_type prefer_type : bool) (rest : list string)
  : result (list field * list string) :=
  let '(_, r) := _consume_empty rest in
  consume_fields_loop (length r) in_section section_indent parse_type prefer_type r.

(** ** The parsed object *)

Inductive returns_value : Type :=
| ReturnsRedirect (target : string)      (* [{"returns": target}] *)
| ReturnsLines (lines : list string).

(** The attributes the parser sets on the object; [None]: the attribute
    is missing ([hasattr] is false). *)
Record GoogleDocstring : Type := mkDoc
  { description : option string;
    parameters : option (list field);
    examples : option (string * list string);
    tags : option string;
    map : option string;
    schemas : option (string * list string);
    requests : option (string * list string);
    responses : option (list (string * string));
    returns : option returns_value }.

Definition empty_doc : GoogleDocstring :=
  mkDoc None None None None None None None None None.

Definition set_description (v : string) (d : GoogleDocstring) :=
  mkDoc (Some v) (parameters d) (examples d) (tags d) (map d) (schemas d)
        (requests d) (responses d) (returns d).
Definition set_parameters (v : list field) (d : GoogleDocstring) :=
  mkDoc (description d) (Some v) (examples d) (tags d) (map d) (schemas d)
        (requests d) (responses d) (returns d).
Definition set_examples (v : string * list string) (d : GoogleDocstring) :=
  mkDoc (description d) (parameters d) (Some v) (tags d) (map d) (schemas d)
        (requests d) (responses d) (returns d).
Definition set_tags (v : string) (d : GoogleDocstring) :=
  mkDoc (description d) (parameters d) (examples d) (Some v) (map d) (schemas d)
        (requests d) (responses d) (returns d).
Definition set_map (v : string) (d : GoogleDocstring) :=
  mkDoc (description d) (parameters d) (examples d) (tags d) (Some v) (schemas d)
        (requests d) (responses d) (returns d).
Definition set_schemas (v : string * list string) (d : GoogleDocstring) :=
  mkDoc (description d) (parameters d) (examples d) (tags d) (map d) (Some v)
        (requests d) (responses d) (returns d).
Definition set_requests (v : string * list string) (d : GoogleDocstring) :=
  mkDoc (description d) (parameters d) (examples d) (tags d) (map d) (schemas d)
        (Some v) (responses d) (returns d).
Definition set_responses (v : list (string * string)) (d : GoogleDocstring) :=
  mkDoc (description d) (parameters d) (examples d) (tags d) (map d) (schemas d)
        (requests d) (Some v) (returns d).
Definition set_returns (v : returns_value) (d : GoogleDocstring) :=
  mkDoc (description d) (parameters d) (examples d) (tags d) (map d) (schemas d)
        (requests d) (responses d) (Some v).

(** ** Section reducers

    A reducer consumes the body of its section, sets its attribute and
    returns rendered lines, which [_parse] appends to [_parsed_lines].
    Nothing reads [_parsed_lines] but the test [not self._parsed_lines]
    of [_parse]; the rendering ([_format_field], [_format_block],
    [_format_docutils_params], ...) raises nothing and is not modelled:
    a reducer gives, with the lines left and the object, whether the
    sequence it returns is non-empty. *)

Definition nonnil {A : Type} (l : list A) : bool :=
  match l with [] => false | _ => true end.

Fixpoint join_loop (lines : list string) (prev : string) (_lines : list string)
  : list string :=
  match lines with
  | [] => (_lines ++ [prev])%list
  | line :: lines' =>
      if startswith " " line then join_loop lines' (prev ++ line) _lines
      else join_loop lines' line (if truthy prev then (_lines ++ [prev])%list else _lines)
  end.

Fixpoint fill_subsections (_lines : list string) (retval : list (string * string))
  : result (list (string * string)) :=
  match _lines with
  | [] => Ok retval
  | line :: _lines' =>
      match split_char ":" (Some 1) line with
      | [name; response] =>
          fill_subsections _lines' (dict_set (strip name) (strip response) retval)
      | _ => Raise ValueError   (* not enough values to unpack *)
      end
  end.

Definition _join_subsection (lines : list string) : result (list (string * string)) :=
  fill_subsections (join_loop lines EmptyString []) [].

(** [len(lines) == 1 and lines[0].lower().startswith("see")] *)
Definition is_see (lines : list string) : option string :=
  match lines with
  | [line] => if startswith "see" (lower line) then Some line else None
  | _ => None
  end.

(** Whether some word of the line is a cross-reference. *)
Definition has_xref (line : string) : bool :=
  existsb (Re.matches _xref_regex) (split_char " " None line).

Definition body (in_section : bool) (section_indent : nat) (rest : list string)
  : list string * list string :=
  let '(lines, r) := _consume_to_next_section in_section section_indent rest in
  (_dedent (_strip_empty lines), r).

Definition reducer_result : Type := (bool * list string * GoogleDocstring)%type.

Definition _parse_parameters_section (section : string) (si : nat)
           (rest : list string) (d : GoogleDocstring) : result reducer_result :=
  '(fields, r) <- _consume_fields true si true false rest ;;
  Ok (true, r, set_parameters fields d).

Definition _parse_attributes_section (section : string) (si : nat)
           (rest : list string) (d : GoogleDocstring) : result reducer_result :=
  '(fields, r) <- _consume_fields true si true false rest ;;
  Ok (nonnil fields, r, d).

Definition _parse_examples_section (section : string) (si : nat)
           (rest : list string) (d : GoogleDocstring) : result reducer_result :=
  let '(lines, r) := body true si rest in
  Ok (true, r, set_examples (section, lines) d).

Definition _parse_keyword_arguments_section (section : string) (si : nat)
           (rest : list string) (d : GoogleDocstring) : result reducer_result :=
  '(fields, r) <- _consume_fields true si true false rest ;;
  Ok (true, r, d).

Definition _parse_methods_section (section : string) (si : nat)
           (rest : list string) (d : GoogleDocstring) : result reducer_result :=
  '(fields, r) <- _consume_fields true si false false rest ;;
  Ok (nonnil fields, r, d).

Definition _parse_other_parameters_section (section : string) (si : nat)
           (rest : list string) (d : GoogleDocstring) : result reducer_result :=
  '(fields, r) <- _consume_fields true si true false rest ;;
  match parameters d with
  | None => Raise AttributeError
  | Some ps => Ok (nonnil fields, r, set_parameters (ps ++ fields)%list d)
  end.

Definition _parse_tags_section (section : string) (si : nat)
           (rest : list string) (d : GoogleDocstring) : result reducer_result :=
  let '(lines, r) := body true si rest in
  Ok (true, r, set_tags (replace ",," "," (join "," lines)) d).

Definition _parse_map_section (section : string) (si : nat)
           (rest : list string) (d : GoogleDocstring) : result reducer_result :=
  let '(lines, r) := body true si rest in
  match lines with
  | [] => Raise IndexError
  | line0 :: _ => Ok (true, r, set_map line0 d)
  end.

Definition _parse_schemas_section (section : string) (si : nat)
           (rest : list string) (d : GoogleDocstring) : result reducer_result :=
  let '(lines, r) := body true si rest in
  Ok (true, r, set_schemas (section, lines) d).

Definition _parse_requests_section (section : string) (si : nat)
           (rest : list string) (d : GoogleDocstring) : result reducer_result :=
  let '(lines, r) := body true si rest in
  Ok (true, r, set_requests (section, lines) d).

Definition _parse_responses_section (section : string) (si : nat)
           (rest : list string) (d : GoogleDocstring) : result reducer_result :=
  let '(lines, r) := _consume_to_next_section true si rest in
  let lines := filter truthy (_dedent lines) in
  match is_see lines with
  | Some line =>
      Ok (true, r,
          set_responses (if has_xref line then [("responses", _ref_repl line)] else []) d)
  | None =>
      resp <- _join_subsection lines ;;
      Ok (nonnil lines, r, set_responses resp d)
  end.

(** [_consume_returns_section] returns nothing on its first branch, and
    [_parse_returns_section] takes the length of what it returns. *)
Definition _parse_returns_section (section : string) (si : nat)
           (rest : list string) (d : GoogleDocstring) : result reducer_result :=
  let '(lines, r) := _consume_to_next_section true si rest in
  let lines := _dedent lines in
  match is_see lines with
  | Some line => Raise TypeError
  | None => Ok (nonnil lines, r, set_returns (ReturnsLines (filter truthy lines)) d)
  end.

Definition reducer (kind : section_kind)
  : string -> nat -> list string -> GoogleDocstring -> result reducer_result :=
  match kind with
  | KParameters => _parse_parameters_section
  | KAttributes => _parse_attributes_section
  | KExamples => _parse_examples_section
  | KKeywordArguments => _parse_keyword_arguments_section
  | KMethods => _parse_methods_section
  | KOtherParameters => _parse_other_parameters_section
  | KSchemas => _parse_schemas_section
  | KMap => _parse_map_section
  | KTags => _parse_tags_section
  | KRequests => _parse_requests_section
  | KResponses => _parse_responses_section
  | KReturns => _parse_returns_section
  end.

(** ** [_parse] *)

(** The state of the loop of [_parse]: the lines left, whether
    [_parsed_lines] is non-empty, the object. *)
Record pstate : Type := mkState
  { rest : list string; parsed : bool; doc : GoogleDocstring }.

(** [_consume_section_header()] on the header line. *)
Definition _consume_section_header (line : string) : string :=
  let stripped_section := strip_chars ":" (strip_chars " " line) in
  if dict_has (lower stripped_section) _sections then stripped_section else line.

(** One turn of the loop [while self._line_iter.has_next()]. *)
Definition parse_step (st : pstate) : result pstate :=
  match rest st with
  | [] => Ok st
  | line :: after =>
      if _is_section_header line after then
        let section := _consume_section_header line in
        let section_indent := _get_current_indent 0 after in
        if Re.matches _directive_regex section then
          let '(_, r) := _consume_to_next_section true section_indent after in
          Ok (mkState r true (doc st))
        else
          match dict_get (lower section) _sections with
          | None => Raise KeyError
          | Some kind =>
              '(nonempty, r, d) <- reducer kind section section_indent after (doc st) ;;
              Ok (mkState r (parsed st || nonempty) d)
          end
      else if negb (parsed st) then
        let '(l1, r1) := _consume_contiguous (rest st) in
        let '(l2, r2) := _consume_empty r1 in
        let lines := (l1 ++ l2)%list in
        Ok (mkState r2 (nonnil lines)
                    (set_description (join " " (List.map lstrip lines)) (doc st)))
      else
        let '(lines, r) := _consume_to_next_section false 0 (rest st) in
        Ok (mkState r true (doc st))
  end.

Fixpoint parse_loop (fuel : nat) (st : pstate) : result pstate :=
  match rest st with
  | [] => Ok st
  | _ :: _ =>
      match fuel with
      | O => Fuel
      | S fuel' => st' <- parse_step st ;; parse_loop fuel' st'
      end
  end.

(** [_parse()], the name of the object being empty (the attribute
    docstring branch not taken). *)
Definition _parse (lines : list string) : result GoogleDocstring :=
  let '(empties, r) := _consume_empty lines in
  st <- parse_loop (length r) (mkState r (nonnil empties) empty_doc) ;;
  Ok (doc st).

(** [GoogleDocstring(docstring)] for a list of lines: the iterator
    right-strips each line. *)
Definition of_lines (docstring : list string) : result GoogleDocstring :=
  _parse (List.map rstrip docstring).

(** [GoogleDocstring(docstring)] for a [str]. *)
Definition of_string (docstring : string) : result GoogleDocstring :=
  of_lines (splitlines docstring).

End Docstring.

(* ================================================================== *)
(** * models.py: [add_nullable] *)
(* ================================================================== *)

Module Models.

(** ** Schema dictionaries *)

(** Keys are [str], or [int] for the positions of callable arguments. *)
Inductive key : Type := KS (s : string) | KI (n : nat).

#[local] Unset Elimination Schemes.

Inductive json : Type :=
| JNull
| JBool (b : bool)
| JNum (z : Z)
| JStr (s : string)
| JList (l : list json)
| JDict (d : list (key * json)).

Definition key_eqb (a b : key) : bool :=
  match a, b with
  | KS s, KS t => String.eqb s t
  | KI n, KI m => Nat.eqb n m
  | _, _ => false
  end.

Fixpoint lookup (k : key) (d : list (key * json)) : option json :=
  match d with
  | [] => None
  | (k', v) :: d' => if key_eqb k k' then Some v else lookup k d'
  end.

(** [d[k] = v]: an old key keeps its place, a new one goes last. *)
Fixpoint store (k : key) (v : json) (d : list (key * json)) : list (key * json) :=
  match d with
  | [] => [(k, v)]
  | (k', v') :: d' =>
      if key_eqb k k' then (k, v) :: d' else (k', v') :: store k v d'
  end.

(** [del d[k]]: no entry of the key is left. *)
Fixpoint remove (k : key) (d : list (key * json)) : list (key * json) :=
  match d with
  | [] => []
  | (k', v') :: d' => if key_eqb k k' then remove k d' else (k', v') :: remove k d'
  end.

Fixpoint list_set {A : Type} (i : nat) (x : A) (l : list A) : list A :=
  match l, i with
  | [], _ => []
  | _ :: l', O => x :: l'
  | y :: l', S i' => y :: list_set i' x l'
  end.

(** [k in value] *)
Definition contains (k : string) (value : json) : result bool :=
  match value with
  | JDict d => Ok (match lookup (KS k) d with Some _ => true | None => false end)
  | JList l =>
      Ok (existsb (fun e => match e with JStr s => String.eqb s k | _ => false end) l)
  | JStr s => Ok (PyStr.contains k s)
  | _ => Raise TypeError
  end.

(** [value[k]] *)
Definition getitem (value : json) (k : key) : result json :=
  match value, k with
  | JDict d, _ =>
      match lookup k d with Some v => Ok v | None => Raise KeyError end
  | JList l, KI i =>
      match nth_error l i with Some v => Ok v | None => Raise IndexError end
  | JStr s, KI i =>
      match String.get i s with
      | Some c => Ok (JStr (String c EmptyString))
      | None => Raise IndexError
      end
  | _, _ => Raise TypeError
  end.

(** [value[k] = v] *)
Definition setitem (value : json) (k : key) (v : json) : result json :=
  match value, k with
  | JDict d, _ => Ok (JDict (store k v d))
  | JList l, KI i =>
      if i <? length l then Ok (JList (list_set i v l)) else Raise IndexError
  | _, _ => Raise TypeError
  end.

(** [value.pop(k)]: what is left and what was taken. *)
Definition pop (value : json) (k : string) : result (json * json) :=
  match value with
  | JDict d =>
      match lookup (KS k) d with
      | Some v => Ok (JDict (remove (KS k) d), v)
      | None => Raise KeyError
      end
  | JList _ => Raise TypeError
  | _ => Raise AttributeError
  end.

(** [k in value and value[k] == s] *)
Definition has_str (k s : string) (value : json) : result bool :=
  c <- contains k value ;;
  if c then
    v <- getitem value (KS k) ;;
    Ok (match v with JStr t => String.eqb t s | _ => false end)
  else Ok false.

(** ** Field descriptors *)

(** [field.type_], as far as [add_nullable] looks at it: a pydantic
    model class with its configured title and its name, another class, or
    an object that is no class ([issubclass] raises). *)
Inductive pytype : Type :=
| TModel (config_title : option string) (name : string)
| TClass
| TNotClass.

(** [sub_fields]: [None], a tuple or a list. *)
Inductive subs (F : Type) : Type :=
| SubNone
| SubTuple (l : list F)
| SubList (l : list F).

Arguments SubNone {F}.
Arguments SubTuple {F} l.
Arguments SubList {F} l.

(** A [ModelField], with the [args_field] and [ret_field] of a callable. *)
Inductive ModelField : Type :=
  mkField (alias : string) (allow_none : bool) (type_ : pytype)
          (sub_fields : subs ModelField)
          (args_field ret_field : option ModelField).

Definition alias (f : ModelField) : string :=
  let '(mkField a _ _ _ _ _) := f in a.
Definition allow_none (f : ModelField) : bool :=
  let '(mkField _ b _ _ _ _) := f in b.
Definition type_ (f : ModelField) : pytype :=
  let '(mkField _ _ t _ _ _) := f in t.
Definition sub_fields (f : ModelField) : subs ModelField :=
  let '(mkField _ _ _ s _ _) := f in s.
Definition args_field (f : ModelField) : option ModelField :=
  let '(mkField _ _ _ _ a _) := f in a.
Definition ret_field (f : ModelField) : option ModelField :=
  let '(mkField _ _ _ _ _ r) := f in r.

Definition sub_list {F : Type} (s : subs F) : list F :=
  match s with
  | SubNone => []
  | SubTuple l => l
  | SubList l => l
  end.

(** [value['title'] = field.type_.__config__.title or field.type_.__name__]
    when the type is a pydantic model. *)
Definition set_model_title (t : pytype) (value : json) : result json :=
  match t with
  | TModel config_title name =>
      let title :=
        match config_title with
        | Some s => if PyStr.truthy s then s else name
        | None => name
        end in
      setitem value (KS "title") (JStr title)
  | TClass => Ok value
  | TNotClass => Raise TypeError
  end.

(** The first part of [add_nullable_subroutine], up to the walk into the
    sub-fields. *)
Definition mark_nullable (allow : bool) (t : pytype) (value : json) : result json :=
  is_null <- has_str "type" "null" value ;;
  value <- (if is_null then '(v, _) <- pop value "type" ;; Ok v else Ok value) ;;
  if allow then
    has_ref <- contains "$ref" value ;;
    value <-
      (if has_ref then
         value <- set_model_title t value ;;
         '(value, ref) <- pop value "$ref" ;;
         setitem value (KS "anyOf") (JList [JDict [(KS "$ref", ref)]])
       else Ok value) ;;
    setitem value (KS "nullable") (JBool true)
  else Ok value.

(** Which branch the walk into the sub-fields takes. *)
Inductive shape : Type :=
| ShAdditional | ShProperties | ShAnyOf | ShItems | ShOther.

Definition shape_of (value : json) : result shape :=
  is_obj <- has_str "type" "object" value ;;
  has_ap <- (if is_obj then contains "additionalProperties" value else Ok false) ;;
  if has_ap then Ok ShAdditional
  else
    has_props <- (if is_obj then contains "properties" value else Ok false) ;;
    if has_props then Ok ShProperties
    else
      has_any <- contains "anyOf" value ;;
      if has_any then Ok ShAnyOf
      else
        has_items <- contains "items" value ;;
        Ok (if has_items then ShItems else ShOther).

(** The walks of [add_nullable_subroutine] into the schema, [walk] being
    the subroutine itself. *)
Section Walks.

Variable walk : ModelField -> json -> bool -> result json.

(** [walk(s, value[name], process_all)] *)
Definition into (name : string) (s : ModelField) (process_all : bool) (value : json)
  : result json :=
  child <- getitem value (KS name) ;;
  child <- walk s child process_all ;;
  setitem value (KS name) child.

(** [for i, s in enumerate(fields): walk(s, value[name][i], process_all)] *)
Fixpoint each (name : string) (process_all : bool) (fields : list ModelField)
         (i : nat) (value : json) {struct fields} : result json :=
  match fields with
  | [] => Ok value
  | s :: fields' =>
      inner <- getitem value (KS name) ;;
      child <- getitem inner (KI i) ;;
      child <- walk s child process_all ;;
      inner <- setitem inner (KI i) child ;;
      value <- setitem value (KS name) inner ;;
      each name process_all fields' (S i) value
  end.

(** [if field.sub_fields: ...] *)
Definition walk_sub_fields (fields : list ModelField) (process_all : bool)
           (value : json) : result json :=
  match fields with
  | [] => Ok value
  | s :: _ =>
      sh <- shape_of value ;;
      match sh with
      | ShAdditional =>
          if process_all then each "additionalProperties" process_all fields 0 value
          else into "additionalProperties" s process_all value
      | ShProperties =>
          if process_all then each "properties" process_all fields 0 value
          else into "properties" s process_all value
      | ShAnyOf => each "anyOf" process_all fields 0 value
      | ShItems => into "items" s process_all value
      | ShOther => Ok value
      end
  end.

(** The three cases of [field.args_field]. *)
Definition walk_args (args : option ModelField) (value : json) : result json :=
  match args with
  | Some (mkField _ _ _ (SubTuple []) _ _) =>
      (* no arguments: [] *)
      props <- getitem value (KS "properties") ;;
      '(props, _) <- pop props "args" ;;
      setitem value (KS "properties") props
  | Some (mkField _ _ _ SubNone _ _) =>
      (* an ellipsis, or [Any] *)
      props <- getitem value (KS "properties") ;;
      props <- setitem props (KS "args") (JDict [(KS "type", JStr "object")]) ;;
      setitem value (KS "properties") props
  | Some af =>
      props <- getitem value (KS "properties") ;;
      props <- into "args" af true props ;;
      setitem value (KS "properties") props
  | None => Ok value
  end.

Definition walk_ret (ret : option ModelField) (value : json) : result json :=
  match ret with
  | Some rf =>
      props <- getitem value (KS "properties") ;;
      props <- into "retval" rf true props ;;
      setitem value (KS "properties") props
  | None => Ok value
  end.

End Walks.

Fixpoint add_nullable_subroutine (field : ModelField) (value : json)
         (process_all : bool) {struct field} : result json :=
  match field with
  | mkField _ allow t sub args ret =>
      value <- mark_nullable allow t value ;;
      value <-
        match sub with
        | SubNone => Ok value
        | SubTuple fields => walk_sub_fields add_nullable_subroutine fields process_all value
        | SubList fields => walk_sub_fields add_nullable_subroutine fields process_all value
        end ;;
      value <- walk_args add_nullable_subroutine args value ;;
      walk_ret add_nullable_subroutine ret value
  end.

(** [add_nullable(schema, model)]: [fields] are [model.__fields__.values()]. *)
Fixpoint add_nullable_loop (fields : list ModelField) (todo : list (key * json))
         (props : json) : result json :=
  match todo with
  | [] => Ok props
  | (prop, _) :: todo' =>
      match filter (fun x => match prop with
                             | KS p => String.eqb (alias x) p
                             | KI _ => false
                             end) fields with
      | [] => Raise IndexError
      | field :: _ =>
          value <- getitem props prop ;;
          is_fun <- has_str "x-type" "function" value ;;
          value <- add_nullable_subroutine field value is_fun ;;
          props <- setitem props prop value ;;
          add_nullable_loop fields todo' props
      end
  end.

Definition add_nullable (schema : json) (fields : list ModelField) : result json :=
  match schema with
  | JDict d =>
      match lookup (KS "properties") d with
      | None => Ok schema
      | Some (JDict props) =>
          props' <- add_nullable_loop fields props (JDict props) ;;
          setitem schema (KS "properties") props'
      | Some _ => Raise AttributeError
      end
  | _ => Raise AttributeError
  end.

End Models.

(* ================================================================== *)
(** * parser.py *)
(* ================================================================== *)

Module Parser.
Import PyStr.

(** ** Objects and name spaces *)

Inductive objkind : Type :=
| KFunction | KClass | KModule | KProperty | KPartial | KBool (b : bool) | KOther.

(** A Python object, as far as the parser looks at it: what it is, its
    [__name__], [__module__], [__qualname__] and [__doc__], and its
    attributes ([fget] of a property, [func] of a partial, the members
    of a class or a module). *)
Inductive pyobj : Type :=
  mkObj (kind : objkind) (__name__ __module__ __qualname__ : string)
        (__doc__ : option string) (attrs : list (string * pyobj)).

Definition kind (o : pyobj) : objkind := let '(mkObj k _ _ _ _ _) := o in k.
Definition __name__ (o : pyobj) : string := let '(mkObj _ n _ _ _ _) := o in n.
Definition __module__ (o : pyobj) : string := let '(mkObj _ _ m _ _ _) := o in m.
Definition __qualname__ (o : pyobj) : string := let '(mkObj _ _ _ q _ _) := o in q.
Definition __doc__ (o : pyobj) : option string := let '(mkObj _ _ _ _ d _) := o in d.
Definition attrs (o : pyobj) : list (string * pyobj) :=
  let '(mkObj _ _ _ _ _ a) := o in a.

Definition namespace : Type := list (string * pyobj).

(** [getattr(o, name)] *)
Definition getattr (o : pyobj) (name : string) : result pyobj :=
  match dict_get name (attrs o) with
  | Some v => Ok v
  | None => Raise AttributeError
  end.

(** The interpreter, as far as redirects depend on it: the registry
    [global_modules] filled by [_init], the globals of [parser.py] and
    of [util.py], the builtins, [sys.modules], and the modules an
    [import] statement would find and load. *)
Record interp : Type := mkInterp
  { global_modules : namespace;
    parser_globals : namespace;
    util_globals : namespace;
    builtins : namespace;
    sys_modules : namespace;
    importable : namespace }.

Definition is_identifier (s : string) : bool :=
  match s with
  | EmptyString => false
  | String c s' =>
      (isalpha_ascii c || Ascii.eqb c "_"%char)
      && is_empty (lstrip_by (fun d => isalnum_ascii d || Ascii.eqb d "_"%char) s')
  end.

Fixpoint lookup_scopes (scopes : list namespace) (name : string) : result pyobj :=
  match scopes with
  | [] => Raise NameError
  | ns :: scopes' =>
      match dict_get name ns with
      | Some v => Ok v
      | None => lookup_scopes scopes' name
      end
  end.

Fixpoint getattr_chain (o : pyobj) (names : list string) : result pyobj :=
  match names with
  | [] => Ok o
  | n :: names' => o' <- getattr o n ;; getattr_chain o' names'
  end.

(** [exec_and_return(exec_str, modules)] of [util.py]: the value of the
    expression in the scopes [{**modules, **globals()}] and the builtins.
    The expressions the resolver builds are dotted names; any other text
    is read as a syntax error.  [scopes] lists the dictionaries from the
    one that wins to the one that loses. *)
Definition exec_and_return (st : interp) (exec_str : string)
           (modules : list namespace) : result pyobj :=
  let names := split_char "." None exec_str in
  if forallb is_identifier names then
    match names with
    | [] => Raise SyntaxError
    | n :: names' =>
        o <- lookup_scopes ((util_globals st :: modules) ++ [builtins st])%list n ;;
        getattr_chain o names'
    end
  else Raise SyntaxError.

(** [{**global_modules, **globals()}] in [parser.py] *)
Definition parser_scopes (st : interp) : list namespace :=
  [parser_globals st; global_modules st].

(** [exec(f"import {modname}")]: a module already in [sys.modules] is
    left as it is, another one is loaded into it when it is found. *)
Definition exec_import (st : interp) (modname : string) : result interp :=
  if forallb is_identifier (split_char "." None modname) then
    match dict_get modname (sys_modules st) with
    | Some _ => Ok st
    | None =>
        match dict_get modname (importable st) with
        | Some m =>
            Ok (mkInterp (global_modules st) (parser_globals st) (util_globals st)
                         (builtins st) (dict_set modname m (sys_modules st))
                         (importable st))
        | None => Raise ImportError
        end
    end
  else Raise SyntaxError.

Definition last_of (l : list string) : string := List.last l EmptyString.

(** ** [get_func_for_redirect] *)

(** The four [try] blocks, each with what it evaluates. *)
Definition attempt1 (st : interp) (func_name : string) : result pyobj :=
  exec_and_return st func_name (parser_scopes st).

Definition attempt2 (st : interp) (func_name : string) (redirect_from : pyobj)
  : result pyobj :=
  exec_and_return st (join "." [__module__ redirect_from; func_name]) (parser_scopes st).

(** The third block: [None] when it falls through without a [return]. *)
Definition attempt3 (st : interp) (func_name : string) (redirect_from : pyobj)
  : result (option pyobj) :=
  let modname := __module__ redirect_from in
  match dict_get modname (sys_modules st) with
  | Some m =>
      let scopes := (parser_scopes st ++ [[(modname, m)]])%list in
      if contains "." modname then
        f <- exec_and_return st (join "." [last_of (split_char "." None modname); func_name])
                             scopes ;;
        Ok (Some f)
      else
        f <- exec_and_return st (join "." [__module__ redirect_from; func_name]) scopes ;;
        Ok (Some f)
  | None => Ok None
  end.

Definition attempt4 (st : interp) (func_name : string) (redirect_from : pyobj)
  : result pyobj :=
  match dict_get (__module__ redirect_from) (sys_modules st) with
  | None => Raise KeyError
  | Some m =>
      func_class <-
        getattr m (hd EmptyString (split_char "." None (__qualname__ redirect_from))) ;;
      getattr func_class func_name
  end.

(** [get_func_for_redirect(func_name, redirect_from)]: the function
    found, if any, and the interpreter after the call. *)
Definition get_func_for_redirect (st : interp) (func_name : string)
           (redirect_from : pyobj) : option pyobj * interp :=
  match attempt1 st func_name with
  | Ok func => (Some func, st)
  | _ =>
      match attempt2 st func_name redirect_from with
      | Ok func => (Some func, st)
      | _ =>
          let st3 :=
            match exec_import st (__module__ redirect_from) with
            | Ok st' => st'
            | _ => st
            end in
          match
            (match exec_import st (__module__ redirect_from) with
             | Ok st' => attempt3 st' func_name redirect_from
             | Raise e => Raise e
             | Fuel => Fuel
             end)
          with
          | Ok (Some func) => (Some func, st3)
          | _ =>
              match attempt4 st3 func_name redirect_from with
              | Ok func => (Some func, st3)
              | _ => (None, st3)
              end
          end
      end
  end.

(** ** [get_opId] *)

Definition capital_case (x : string) : string := replace "_" EmptyString (title x).

(** [x[0].lower() + x[1:]] on the capital case *)
Definition camel_case (x : string) : result string :=
  match capital_case x with
  | EmptyString => Raise IndexError
  | String c x' => Ok (String (lower_char c) x')
  end.

(** [v and capitalize(v)] *)
Definition and_capitalize (v : string) : string :=
  match capitalize v with
  | Some s => s
  | None => EmptyString
  end.

(** A value of the dictionary [components]. *)
Inductive component : Type :=
| CStr (v : string)
| CList (v : list string).

Fixpoint index (c : string) (x : list string) : option nat :=
  match x with
  | [] => None
  | y :: x' =>
      if String.eqb y c then Some 0
      else match index c x' with Some i => Some (S i) | None => None end
  end.

Definition set_nth (i : nat) (v : string) (x : list string) : list string :=
  firstn i x ++ v :: skipn (S i) x.

(** [(%[a-zA-Z])] *)
Definition token_regex : Re.regex :=
  Re.Group 1 (Re.Cat (Re.str "%") (Re.Chr isalpha_ascii)).

(** The loop of [template_subroutine] over [components.items()]; the
    [%p] and [%P] tokens return from inside the loop. *)
Fixpoint template_loop (components : list (string * component)) (x : list string)
         (prefix : string) : string :=
  match components with
  | [] => join prefix (filter truthy x)
  | (c, v) :: components' =>
      match index c (List.map lower x) with
      | None => template_loop components' x prefix   (* ValueError: pass *)
      | Some i =>
          let xi := nth i x EmptyString in
          match v with
          | CList params =>
              if String.eqb xi "%p" then join prefix params
              else if String.eqb xi "%P" then join prefix (List.map and_capitalize params)
              else template_loop components' x prefix
          | CStr s =>
              if String.eqb xi "%h" then template_loop components' (set_nth i (lower s) x) prefix
              else if String.eqb xi "%H" then
                template_loop components' (set_nth i (upper s) x) prefix
              else if String.eqb xi (upper c) then
                template_loop components' (set_nth i (and_capitalize s) x) prefix
              else template_loop components' (set_nth i s x) prefix
          end
      end
  end.

Definition template_subroutine (x : string) (components : list (string * component))
           (prefix : string) : string :=
  template_loop components (filter truthy (Re.split token_regex x)) prefix.

(** [\[.+?\]] *)
Definition group_regex : Re.regex :=
  Re.cat [Re.str "["; Re.plus false Re.dot; Re.str "]"].

(** [^(.*?)%] *)
Definition prefix_regex : Re.regex :=
  Re.cat [Re.Bol; Re.Group 1 (Re.Star false Re.dot); Re.str "%"].

Fixpoint filter_str (p : ascii -> bool) (s : string) : string :=
  match s with
  | EmptyString => EmptyString
  | String c s' => if p c then String c (filter_str p s') else filter_str p s'
  end.

(** The loop over the bracketed groups of the template.  The text put
    in place of a group is taken as it is: names hold no backslash. *)
Fixpoint render_groups (matches : list string) (components : list (string * component))
         (template : string) : string :=
  match matches with
  | [] => template
  | x :: matches' =>
      let x := strip_chars "[]" x in
      match Re.rmatch prefix_regex x with
      | Some m =>
          let prefix := Re.group 1 (Re.groups m) in
          let x := lstrip_chars prefix x in
          let x := template_subroutine x components prefix in
          render_groups matches' components (Re.sub group_regex (fun _ => x) (Some 1) template)
      | None => render_groups matches' components template
      end
  end.

(** [get_opId(name, func, redir_func, params, method, template, aliases)];
    [aliases] is not used by the body. *)
Definition get_opId (name : string) (func : pyobj) (redir_func : option pyobj)
           (params : list string) (method : string) (template : string)
  : result string :=
  if negb (truthy template) then Raise ValueError
  else
    let mod_ := __module__ func in
    let fname := __name__ func in
    let quals := split_char "." None (__qualname__ func) in
    let clsname := if 1 <? length quals then hd EmptyString quals else EmptyString in
    let clsname :=
      if String.eqb clsname fname && contains "%f" template then EmptyString else clsname in
    let redir :=
      match redir_func with
      | Some rf => last_of (split_char "." None (__qualname__ rf))
      | None => EmptyString
      end in
    let redir :=
      if String.eqb redir fname && contains "%f" template then EmptyString else redir in
    let name := last_of (split_char "/" None name) in
    let fname :=
      if String.eqb fname name && contains "%n" template then EmptyString else fname in
    if contains "[["
         (filter_str (fun c => Ascii.eqb c "["%char || Ascii.eqb c "]"%char) template)
    then Raise ValueError
    else
      let matches := Re.findall group_regex template in
      m <- camel_case mod_ ;;
      let components :=
        [("%m", CStr m); ("%c", CStr clsname); ("%f", CStr fname); ("%r", CStr redir);
         ("%n", CStr name); ("%p", CList params); ("%h", CStr method)] in
      let template := render_groups matches components template in
      Ok (template_subroutine template components EmptyString).

Definition bleh_annot : pyobj :=
  mkObj KFunction "bleh_annot" "tests.functions" "bleh_annot" None [].

(** ** Reading the sections of a docstring *)

Definition json : Type := Models.json.
Definition jstr (s : string) : json := Models.JStr s.
Definition jdict (d : list (string * json)) : json :=
  Models.JDict (List.map (fun '(k, v) => (Models.KS k, v)) d).

(** [ref_regex]: any text, a colon-led role ending in one of [-_+:.], and
    a target between backticks. *)
Definition ref_regex : Re.regex :=
  Re.cat [Re.Group 1 (Re.Star true Re.dot);
          Re.Group 2 (Re.cat [Re.str ":"; Re.plus true Docstring.alnum; Docstring.role_sep]);
          Re.lit backtick; Re.Group 3 (Re.plus false Re.dot); Re.lit backtick].

(** [ref_repl(x)]: the target in place of each reference, then
    [re.sub(r'~?(.+),?.*', r'\1', ...)]. *)
Definition ref_repl (x : string) : string :=
  Re.sub (Re.cat [Re.opt (Re.str "~"); Re.Group 1 (Re.plus true Re.dot);
                  Re.opt (Re.str ","); Re.Star true Re.dot])
         (fun f => Re.group 1 (Re.groups f)) None
         (Re.sub ref_regex (fun f => Re.group 3 (Re.groups f)) None x).

(** [\<.+\>] *)
Definition placeholder_regex : Re.regex :=
  Re.cat [Re.str "<"; Re.plus true Re.dot; Re.str ">"].

(** [x[1:-1]] *)
Definition inner (x : string) : string :=
  drop 1 (take (String.length x - 1) x).

Fixpoint redirect_loop (pairs : list (string * string)) (var rest : string)
  : string * string :=
  match pairs with
  | [] => (var, rest)
  | (x, y) :: pairs' =>
      if Re.matches placeholder_regex x
      then redirect_loop pairs' (inner x) (replace x y rest)
      else redirect_loop pairs' var rest
  end.

(** [check_function_redirect(docstr, rulename)] *)
Definition check_function_redirect (docstr : option string) (rulename : string)
  : result (string * string) :=
  match docstr with
  | None => Ok (EmptyString, EmptyString)
  | Some text =>
      if truthy text then
        doc <- Docstring.of_string text ;;
        match Docstring.map doc with
        | None => Ok (EmptyString, EmptyString)
        | Some m =>
            match split_char ":" (Some 1) m with
            | [rule; rest] =>
                let rule_ := split_char "/" None (strip rule) in
                let rest := ref_repl (strip rest) in
                let rulename_ := split_char "/" None rulename in
                Ok (redirect_loop (combine rule_ rulename_) EmptyString rest)
            | _ => Raise ValueError
            end
        end
      else Ok (EmptyString, EmptyString)
  end.

(** A value of the dictionary [get_requests] returns. *)
Inductive reqval : Type :=
| RStr (s : string)
| RList (l : list string).

Fixpoint requests_loop (lines : list string) (subsection : option string)
         (sections : list (string * reqval)) : result (list (string * reqval)) :=
  match lines with
  | [] => Ok sections
  | line :: lines' =>
      if negb (startswith " " line) then
        match split_char ":" (Some 1) line with
        | [sub; val] =>
            if truthy (strip val)
            then requests_loop lines' (Some sub) (dict_set sub (RStr (strip val)) sections)
            else
              let sub := strip_chars " " (strip_chars ":" line) in
              requests_loop lines' (Some sub) (dict_set sub (RList []) sections)
        | _ => Raise ValueError
        end
      else
        match subsection with
        | None => Raise NameError      (* the local is not bound yet *)
        | Some sub =>
            match dict_get sub sections with
            | Some (RList l) =>
                requests_loop lines' subsection
                              (dict_set sub (RList (l ++ [strip line])) sections)
            | Some (RStr _) => Raise AttributeError
            | None => Raise KeyError
            end
        end
  end.

(** What a loop over a value of the request goes through: the lines of
    a list, the characters of a text. *)
Definition items (v : reqval) : list string :=
  match v with
  | RList l => l
  | RStr s => List.map (fun c => String c EmptyString) (list_ascii_of_string s)
  end.

(** [get_requests(func, method, redirect)] *)
Definition get_requests (func : pyobj) : result (list (string * reqval)) :=
  match __doc__ func with
  | None => Ok []
  | Some text =>
      doc <- Docstring.of_string text ;;
      match Docstring.requests doc with
      | None => Ok []
      | Some (_, lines) => requests_loop lines None []
      end
  end.

(** [get_tags(func)] *)
Definition get_tags (func : pyobj) : result (list string) :=
  match __doc__ func with
  | None => Ok []
  | Some text =>
      doc <- Docstring.of_string text ;;
      match Docstring.tags doc with
      | None => Ok []
      | Some t =>
          let t := Re.sub (Re.plus true (Re.str " ")) (fun _ => EmptyString) None t in
          let t := Re.sub (Re.plus true (Re.str ",")) (fun _ => ",") None t in
          Ok (if truthy t then split_char "," None t else [])
      end
  end.

(** [FlaskTypes] of [schemas.py] *)
Definition ft : list (string * string) :=
  [("string", "str"); ("int", "integer"); ("integer", "integer");
   ("float", "float"); ("uuid", "uuid"); ("path", "path")].

(** [\<(.+?)\>] *)
Definition param_in_path_regex : Re.regex :=
  Re.cat [Re.str "<"; Re.Group 1 (Re.plus false Re.dot); Re.str ">"].

(** The name and the type of a placeholder. *)
Definition placeholder (p : string) : string * string :=
  match split_char ":" None p with
  | s0 :: s1 :: _ =>
      (s1, match dict_get s0 ft with Some t => t | None => "string" end)
  | _ => (p, "string")
  end.

Definition get_params_in_path (name : string) : list json :=
  List.map
    (fun p =>
       let '(p, p_type) := placeholder p in
       jdict [("in", jstr "path"); ("name", jstr p); ("required", Models.JBool true);
              ("schema",
               if String.eqb p_type "uuid"
               then jdict [("type", jstr "string"); ("format", jstr "uuid")]
               else jdict [("type", jstr p_type)])])
    (Re.findall1 param_in_path_regex name).

(** [[x["name"] for x in parameters]] *)
Definition param_name (x : json) : result string :=
  v <- Models.getitem x (Models.KS "name") ;;
  match v with
  | Models.JStr s => Ok s
  | _ => Raise TypeError
  end.

Fixpoint param_names (xs : list json) : result (list string) :=
  match xs with
  | [] => Ok []
  | x :: xs' => n <- param_name x ;; ns <- param_names xs' ;; Ok (n :: ns)
  end.

(** [schema_to_query_params(schema)] *)
Fixpoint query_params (props : list (Models.key * json)) : result (list json) :=
  match props with
  | [] => Ok []
  | (k, w) :: props' =>
      '(w, _) <- Models.pop w "title" ;;
      has_req <- Models.contains "required" w ;;
      '(w, temp) <-
        (if has_req then
           '(w, r) <- Models.pop w "required" ;; Ok (w, [(Models.KS "required", r)])
         else Ok (w, [])) ;;
      let name := match k with
                  | Models.KS s => jstr s
                  | Models.KI n => Models.JNum (Z.of_nat n)
                  end in
      let temp := Models.JDict (temp ++ [(Models.KS "name", name);
                                         (Models.KS "in", jstr "query");
                                         (Models.KS "schema", w)])%list in
      rest <- query_params props' ;;
      Ok (temp :: rest)
  end.

Definition schema_to_query_params (schema : json) : result (list json) :=
  props <- Models.getitem schema (Models.KS "properties") ;;
  match props with
  | Models.JDict d => query_params d
  | _ => Raise AttributeError
  end.

(** ** [get_specs_for_path] and [make_paths] *)

Section Paths.

(** What rests on pydantic and on evaluating the text of a docstring:
    the schema inferred from the annotations of the redirect target (from
    the test on its [request] annotation to [annot.schema()]),
    [get_request_params], [get_request_body], the content type of a
    request, [generate_responses], and the text of an exception. *)
Variable infer_request_schema : pyobj -> result (option json).
Variable get_request_params : list string -> result (list json).
Variable get_request_body : list string -> pyobj -> option pyobj -> result json.
Variable content_type : reqval -> result string.
Variable generate_responses : pyobj -> string -> string -> result json.
Variable error_text : exn -> string.

(** The first part of [get_specs_for_path], which ends where [redir_func],
    [redir_schema], [description] and [tags] are known. *)
Definition resolve_redirect (st : interp) (redirect : string) (method_func : pyobj)
           (tags : list string)
  : result (option pyobj * option json * string * list string) :=
  if truthy redirect then
    match fst (get_func_for_redirect st redirect method_func) with
    | None => Raise ValueError
    | Some redir_func =>
        doc <- match Docstring.of_string
                       (match __doc__ redir_func with Some d => d | None => EmptyString end)
               with
               | Ok d => Ok d
               | Raise _ => Raise ValueError
               | Fuel => Fuel
               end ;;
        let description :=
          match Docstring.description doc with Some d => d | None => EmptyString end in
        more <- get_tags redir_func ;;
        redir_func <-
          (match kind redir_func with
           | KProperty => getattr redir_func "fget"
           | _ => Ok redir_func
           end) ;;
        redir_schema <- infer_request_schema redir_func ;;
        Ok (Some redir_func, redir_schema, description, (tags ++ more)%list)
    end
  else
    doc <- match Docstring.of_string
                   (match __doc__ method_func with Some d => d | None => EmptyString end)
           with
           | Ok d => Ok d
           | Raise _ => Raise ValueError
           | Fuel => Fuel
           end ;;
    Ok (None, None,
        match Docstring.description doc with Some d => d | None => EmptyString end,
        tags).

(** The empty tuple, or the rule and what went wrong. *)
Definition error : Type := option (string * string).

Definition schema_truthy (s : option json) : bool :=
  match s with
  | Some (Models.JDict (_ :: _)) => true
  | _ => false
  end.

(** What [get_specs_for_path] holds when it comes to the body of the
    request: the redirect, the request, the function redirected to, and
    [retval] with the description, the operation identifier, the tags,
    the body of a redirected POST and the parameters. *)
Record before_body : Type := mkBefore
  { bb_redirect : string;
    bb_request : list (string * reqval);
    bb_redir_func : option pyobj;
    bb_retval : list (Models.key * json) }.

(** [get_specs_for_path] up to [if "body" in request]. *)
Definition specs_before_body (st : interp) (name : string) (method_func : pyobj)
           (method : string) (gen_opid : bool) (opid_template : string)
  : result before_body :=
  '(var, redirect) <- check_function_redirect (__doc__ method_func) name ;;
  request <- get_requests method_func ;;
  tags <- get_tags method_func ;;
  let parameters := get_params_in_path name in
  '(redir_func, redir_schema, description, tags) <-
    resolve_redirect st redirect method_func tags ;;
  let retval := [(Models.KS "description", jstr description)] in
  retval <-
    (if gen_opid then
       names <- param_names parameters ;;
       opid <- get_opId name method_func redir_func names method opid_template ;;
       Ok (Models.store (Models.KS "operationId") (jstr opid) retval)
     else Ok retval) ;;
  let retval :=
    if Docstring.nonnil tags
    then Models.store (Models.KS "tags") (Models.JList (List.map jstr tags)) retval
    else retval in
  parameters <-
    (match dict_get "params" request with
     | Some v => more <- get_request_params (items v) ;; Ok (parameters ++ more)%list
     | None => Ok parameters
     end) ;;
  let redirected := truthy redirect && schema_truthy redir_schema in
  parameters <-
    (match redir_schema with
     | Some schema =>
         if redirected && String.eqb (lower method) "get"
         then more <- schema_to_query_params schema ;; Ok (parameters ++ more)%list
         else Ok parameters
     | None => Ok parameters
     end) ;;
  let retval :=
    match redir_schema with
    | Some schema =>
        if redirected && String.eqb (lower method) "post"
        then Models.store (Models.KS "requestBody")
               (jdict [("content", jdict [("application/json", jdict [("schema", schema)])])])
               retval
        else retval
    | None => retval
    end in
  let retval :=
    if Docstring.nonnil parameters
    then Models.store (Models.KS "parameters") (Models.JList parameters) retval
    else retval in
  Ok (mkBefore redirect request redir_func retval).

(** The body of the request: the error of a body under GET or under a
    method that is neither GET nor POST, or [retval] with the request
    body of a POST. *)
Definition request_body (rule : string) (method_func : pyobj) (method : string)
           (b : before_body)
  : result (list (Models.key * json) + string * string) :=
  let retval := bb_retval b in
  match dict_get "body" (bb_request b) with
  | None => Ok (inl retval)
  | Some body =>
      if String.eqb (lower method) "get"
      then Ok (inr (rule, "Request body cannot be in GET"))
      else if String.eqb (lower method) "post" then
        body <- get_request_body (items body) method_func (bb_redir_func b) ;;
        body <- (match body with
                 | Models.JDict d =>
                     Ok (Models.JDict
                           (Models.remove (Models.KS "description")
                                          (Models.remove (Models.KS "title") d)))
                 | _ => Raise AttributeError
                 end) ;;
        ctype <-
          (match dict_get "content-type" (bb_request b) with
           | Some c =>
               match content_type c with
               | Ok t => Ok t
               | Raise _ => Raise ValueError
               | Fuel => Fuel
               end
           | None => Ok "application/json"
           end) ;;
        Ok (inl (Models.store (Models.KS "x-codegen-request-body-name") (jstr "body")
                   (Models.store (Models.KS "requestBody")
                      (Models.JDict
                         [(Models.KS "content",
                           Models.JDict [(Models.KS ctype, jdict [("schema", body)])])])
                      retval)))
      else Ok (inr (rule, "Only methods GET and POST are supported"))
  end.

(** [get_specs_for_path(name, rule, method_func, method, gen_opid,
    opid_template, aliases)]; [rule] stands for [rule.rule]. *)
Definition get_specs_for_path (st : interp) (name rule : string) (method_func : pyobj)
           (method : string) (gen_opid : bool) (opid_template : string)
  : result (json * error) :=
  b <- specs_before_body st name method_func method gen_opid opid_template ;;
  after_body <- request_body rule method_func method b ;;
  match after_body with
  | inr err => Ok (Models.JDict [], Some err)
  | inl retval =>
      match generate_responses method_func name (bb_redirect b) with
      | Ok responses =>
          Ok (Models.JDict (Models.store (Models.KS "responses") responses retval), None)
      | Raise e => Ok (Models.JDict [], Some (rule, error_text e))
      | Fuel => Fuel
      end
  end.

(** [default_response] of [make_paths] *)
Definition default_response : json :=
  Models.JDict
    [(Models.KI 200,
      jdict [("content",
              jdict [("application/json",
                      jdict [("schema",
                              jdict [("type", jstr "object");
                                     ("content", Models.JDict []);
                                     ("nullable", Models.JBool true)])])])])].

(** [paths[newname][method] = value] *)
Definition set_path (paths : list (string * list (string * json)))
           (newname method : string) (value : json)
  : list (string * list (string * json)) :=
  match dict_get newname paths with
  | Some methods => dict_set newname (dict_set method value methods) paths
  | None => paths
  end.

(** [bool(spec["responses"])] *)
Definition has_responses (spec : json) : result bool :=
  r <- Models.getitem spec (Models.KS "responses") ;;
  Ok (match r with
      | Models.JDict (_ :: _) => true
      | Models.JList (_ :: _) => true
      | Models.JStr (String _ _) => true
      | Models.JBool true => true
      | Models.JNum z => negb (Z.eqb z 0)
      | _ => false
      end).

(** What [make_paths] does with the pair [get_specs_for_path] returned,
    for [newname] and the lower-cased [method]; [login_required] is what
    the function and its view class say. *)
Definition record_spec (rule newname method : string) (login_required : bool)
           (returned : json * error)
           (acc : list (string * list (string * json)) * list (string * string))
  : result (list (string * list (string * json)) * list (string * string)) :=
  let '(paths, errors) := acc in
  let '(spec, err) := returned in
  match err with
  | Some e => Ok (set_path paths newname method default_response, (errors ++ [e])%list)
  | None =>
      ok <- has_responses spec ;;
      let errors :=
        if ok then errors else (errors ++ [(rule, "Got empty response spec")])%list in
      spec <- (if login_required then Ok spec
               else Models.setitem spec (Models.KS "security") (Models.JList [])) ;;
      Ok (set_path paths newname method spec, errors)
  end.

(** [resolve_partials(func)] *)
Fixpoint resolve_partials (func : pyobj) : result pyobj :=
  match func with
  | mkObj KPartial _ _ _ _ members =>
      (fix find (l : list (string * pyobj)) : result pyobj :=
         match l with
         | [] => Raise AttributeError
         | (k, v) :: l' => if String.eqb k "func" then resolve_partials v else find l'
         end) members
  | _ => Ok func
  end.

(** Truth of an object: [False] is false, what else the model holds is
    true. *)
Definition obj_truthy (o : pyobj) : bool :=
  match kind o with
  | KBool b => b
  | _ => true
  end.

(** [getattr(o, "__login_required__", False)], read as a truth value *)
Definition login_flag (o : pyobj) : bool :=
  match dict_get "__login_required__" (attrs o) with
  | Some v => obj_truthy v
  | None => false
  end.

(** A rule of the URL map with its view function
    ([app.view_functions[rule.endpoint]]). *)
Record url_rule : Type := mkRule
  { rule_text : string; endpoint : pyobj; methods : list string }.

(** The rule with its placeholders in braces. *)
Fixpoint brace_params (params : list string) (newname : string) : string :=
  match params with
  | [] => newname
  | param :: params' =>
      let repl := match split_char ":" None param with
                  | _ :: s1 :: _ => s1
                  | _ => param
                  end in
      brace_params params' (replace ("<" ++ param ++ ">") ("{" ++ repl ++ "}") newname)
  end.

Definition mem_str (x : string) (l : list string) : bool := existsb (String.eqb x) l.

Definition paths_t : Type := list (string * list (string * json)).

(** The loop [for method in rule.methods]. *)
Fixpoint methods_loop (st : interp) (gen_opid : bool) (opid_template : string)
         (r : url_rule) (newname : string) (todo : list string)
         (acc : paths_t * list (string * string))
  : result (paths_t * list (string * string)) :=
  match todo with
  | [] => Ok acc
  | method :: todo' =>
      if mem_str method ["GET"; "POST"] then
        match dict_get "view_class" (attrs (endpoint r)) with
        | Some view_class =>
            method_func <- getattr view_class (lower method) ;;
            returned <- get_specs_for_path st (rule_text r) (rule_text r) method_func
                                           (lower method) gen_opid opid_template ;;
            acc <- record_spec (rule_text r) newname (lower method)
                               (login_flag method_func || login_flag view_class)
                               returned acc ;;
            methods_loop st gen_opid opid_template r newname todo' acc
        | None =>
            if mem_str "GET" (methods r) && mem_str "POST" (methods r) then
              methods_loop st gen_opid opid_template r newname todo'
                           (fst acc,
                            (snd acc ++ [(rule_text r, "Multiple methods without methodview")])%list)
            else
              method_func <- resolve_partials (endpoint r) ;;
              returned <- get_specs_for_path st (rule_text r) (rule_text r) method_func
                                             (lower method) gen_opid opid_template ;;
              acc <- record_spec (rule_text r) newname (lower method)
                                 (login_flag method_func) returned acc ;;
              methods_loop st gen_opid opid_template r newname todo' acc
        end
      else methods_loop st gen_opid opid_template r newname todo' acc
  end.

(** [make_paths(app, excludes, gen_opid, opid_template, aliases)]: the
    paths, the errors, the rules left out.  The interpreter is the one
    the run starts in: the modules of the view functions are loaded. *)
Fixpoint make_paths (st : interp) (rules : list url_rule) (excludes : list Re.regex)
         (gen_opid : bool) (opid_template : string)
         (acc : paths_t * list (string * string) * list string)
  : result (paths_t * list (string * string) * list string) :=
  match rules with
  | [] => Ok acc
  | r :: rules' =>
      let '(paths, errors, excluded) := acc in
      let name := rule_text r in
      if existsb (fun e => Re.matches e name) excludes
      then make_paths st rules' excludes gen_opid opid_template
                      (paths, errors, (excluded ++ [name])%list)
      else
        let newname := brace_params (Re.findall1 param_in_path_regex name) name in
        '(paths, errors) <-
          methods_loop st gen_opid opid_template r newname (methods r)
                       (dict_set newname [] paths, errors) ;;
        make_paths st rules' excludes gen_opid opid_template (paths, errors, excluded)
  end.

End Paths.

End Parser.

(* ================================================================== *)
(** * Scenarios: the inputs the properties are read on *)
(* ================================================================== *)

Module Scenarios.
Import Models.

(** A field without structure, as pydantic builds it for [int], [str]
    and the like; [allow] is set when the annotation was [Optional]. *)
Definition plain (name : string) (allow : bool) : ModelField :=
  mkField name allow TClass SubNone None None.

Definition of_type (t : string) : json := JDict [(KS "type", JStr t)].

Definition titled (title : string) (d : list (key * json)) : json :=
  JDict ((KS "title", JStr title) :: d).

(** [str_int_union: Union[int, Optional[str]]]: the union takes the
    [None] of its member; its sub-fields are [int] and [str]. *)
Definition str_int_union : ModelField :=
  mkField "str_int_union" true TNotClass
          (SubList [plain "str_int_union_int" false; plain "str_int_union_str" false])
          None None.

(** [obj_int_union: Union[int, Dict[str, Optional[int]]]]: the mapping
    has one sub-field, its value type, which allows [None]. *)
Definition obj_int_union : ModelField :=
  mkField "obj_int_union" false TNotClass
          (SubList [plain "obj_int_union_int" false;
                    mkField "obj_int_union_Dict" false TNotClass
                            (SubList [plain "_obj_int_union_Dict" true]) None None])
          None None.

(** The model of the test [test_fix_nullable] and the schema pydantic
    hands to [schema_extra]. *)
Definition your_model_fields : list ModelField :=
  [plain "a_int" false; plain "n_a_int" true; str_int_union; obj_int_union].

Definition your_model_schema : json :=
  JDict
    [(KS "title", JStr "YourModel");
     (KS "type", JStr "object");
     (KS "properties",
      JDict
        [(KS "a_int", titled "A Int" [(KS "type", JStr "integer")]);
         (KS "n_a_int", titled "N A Int" [(KS "type", JStr "integer")]);
         (KS "str_int_union",
          titled "Str Int Union"
                 [(KS "anyOf", JList [of_type "integer"; of_type "string"])]);
         (KS "obj_int_union",
          titled "Obj Int Union"
                 [(KS "anyOf",
                   JList [of_type "integer";
                          JDict [(KS "type", JStr "object");
                                 (KS "additionalProperties", of_type "integer")]])])]);
     (KS "required", JList [JStr "a_int"; JStr "str_int_union"; JStr "obj_int_union"])].

(** A callable field: its arguments' descriptor and its return's, which
    is [None] and so allows none. *)
Definition callable_field (args : subs ModelField) : ModelField :=
  mkField "func" false TNotClass SubNone
          (Some (mkField "func_args" false TNotClass args None None))
          (Some (plain "func_ret" true)).

(** The node of a callable before the annotation: the arguments as an
    object keyed by position, the return of type [null]. *)
Definition callable_schema (args : json) : json :=
  titled "Func"
         [(KS "type", JStr "object"); (KS "x-type", JStr "function");
          (KS "properties", JDict [(KS "args", args); (KS "retval", of_type "null")])].

(** [Callable[[int, int], None]] *)
Definition two_ints : subs ModelField :=
  SubTuple [plain "0" false; plain "1" false].

Definition two_ints_schema : json :=
  callable_schema
    (JDict [(KS "type", JStr "object");
            (KS "properties", JDict [(KI 0, of_type "integer"); (KI 1, of_type "integer")])]).

End Scenarios.

Module OpIdScenario.
Import Parser.

(** A plain function named [bleh_annot], in whatever module. *)
Definition plain_function (module_ : string) (doc : option string) : pyobj :=
  mkObj KFunction "bleh_annot" module_ "bleh_annot" doc [].

(** The default template of [get_opId], and the template of the test
    [test_get_opId]. *)
Definition default_template : string := "[__%C%f%r%n]_[_%p]_%H".
Definition test_template : string := "[__%C%f%r%n]__[_%p]__%H".

End OpIdScenario.

Module RedirectScenario.
Import Parser.

(** A module [views], not dotted, with a view function and a helper;
    nothing of it is in the registry. *)
Definition helper : pyobj := mkObj KFunction "helper" "views" "helper" None [].
Definition view : pyobj := mkObj KFunction "view" "views" "view" None [].
Definition views : pyobj :=
  mkObj KModule "views" EmptyString EmptyString None [("view", view); ("helper", helper)].

Definition loaded : interp := mkInterp [] [] [] [] [("views", views)] [].

(** The same module, found by [import] but not loaded yet. *)
Definition not_loaded : interp := mkInterp [] [] [] [] [] [("views", views)].

(** ** The resolution order as the specification words it

    (1) the name in the registry; (2) the defining module of the context,
    a dot, the name; (3) for a dotted module, the last component of the
    module and then the full module name, against the imported module
    object; (4) the name as an attribute of the declaring class of the
    context.  The first success wins. *)
Definition or_else (a : result pyobj) (b : option pyobj) : option pyobj :=
  match a with
  | Ok f => Some f
  | _ => b
  end.

Definition third_as_specified (st : interp) (func_name : string) (redirect_from : pyobj)
  : result pyobj :=
  let modname := __module__ redirect_from in
  if PyStr.contains "." modname then
    match dict_get modname (sys_modules st) with
    | Some m =>
        let scopes := (parser_scopes st ++ [[(modname, m)]])%list in
        match exec_and_return st
                (PyStr.join "." [last_of (PyStr.split_char "." None modname); func_name])
                scopes with
        | Ok f => Ok f
        | _ => exec_and_return st (PyStr.join "." [modname; func_name]) scopes
        end
    | None => Raise KeyError
    end
  else Raise KeyError.

Definition resolve_as_specified (st : interp) (func_name : string) (redirect_from : pyobj)
  : option pyobj :=
  or_else (attempt1 st func_name)
    (or_else (attempt2 st func_name redirect_from)
       (or_else (third_as_specified st func_name redirect_from)
          (or_else (attempt4 st func_name redirect_from) None))).

(** ** The resolution order of the code *)

(** The interpreter after [import]: as before when the statement raises. *)
Definition after_import (st : interp) (modname : string) : interp :=
  match exec_import st modname with
  | Ok st' => st'
  | _ => st
  end.

(** The third block of the code: the module is imported; a dotted one is
    looked up under its last component only, another one under its name,
    bound to the module object. *)
Definition third (st : interp) (func_name : string) (redirect_from : pyobj)
  : result pyobj :=
  st' <- exec_import st (__module__ redirect_from) ;;
  r <- attempt3 st' func_name redirect_from ;;
  match r with
  | Some f => Ok f
  | None => Raise KeyError
  end.

Definition resolution (st : interp) (func_name : string) (redirect_from : pyobj)
  : option pyobj :=
  or_else (attempt1 st func_name)
    (or_else (attempt2 st func_name redirect_from)
       (or_else (third st func_name redirect_from)
          (or_else (attempt4 (after_import st (__module__ redirect_from))
                             func_name redirect_from) None))).

End RedirectScenario.

Module DocstringSpec.
Import PyStr Docstring.

(** The reducer [_parse] selects for a header line: none when the
    header reads as a directive. *)
Definition is_directive (line : string) : bool :=
  Re.matches _directive_regex (_consume_section_header line).

Definition header_kind (line : string) : option section_kind :=
  dict_get (lower (_consume_section_header line)) _sections.

(** [p] holds of every line of [lines] that [_is_section_header] takes
    for a header, the lines after it being those of [lines]. *)
Fixpoint all_headers (p : string -> bool) (lines : list string) : bool :=
  match lines with
  | [] => true
  | line :: after =>
      (if _is_section_header line after then p line else true) && all_headers p after
  end.

Definition no_headers (lines : list string) : bool := all_headers (fun _ => false) lines.

(** The reducers that raise on no body: parameters, attributes, examples,
    keyword arguments, methods, schemas, tags and requests. *)
Definition plain_kind (k : section_kind) : bool :=
  match k with
  | KParameters | KAttributes | KExamples | KKeywordArguments | KMethods
  | KSchemas | KTags | KRequests => true
  | KOtherParameters | KMap | KResponses | KReturns => false
  end.

Definition plain_header (line : string) : bool :=
  is_directive line
  || match header_kind line with Some k => plain_kind k | None => false end.

Definition plain_headers (lines : list string) : bool := all_headers plain_header lines.

(** The reducers that return lines whatever the body: all but those of
    attributes, methods, other parameters and returns, whose rendering is
    empty when the section holds no field or no line. *)
Definition always_renders (k : section_kind) : bool :=
  match k with
  | KAttributes | KMethods | KOtherParameters | KReturns => false
  | _ => true
  end.

(** The first block of a text without header and the blank lines after
    it, each line stripped on the left, joined by single spaces. *)
Fixpoint take_while (p : string -> bool) (lines : list string) : list string :=
  match lines with
  | [] => []
  | line :: lines' => if p line then line :: take_while p lines' else []
  end.

Fixpoint drop_while (p : string -> bool) (lines : list string) : list string :=
  match lines with
  | [] => []
  | line :: lines' => if p line then drop_while p lines' else lines
  end.

Definition blank (line : string) : bool := negb (truthy line).

Definition first_block (lines : list string) : string :=
  join " " (List.map lstrip
                     (take_while truthy lines ++ take_while blank (drop_while truthy lines))).

(** No attribute of a section is set. *)
Definition no_section (d : GoogleDocstring) : Prop :=
  parameters d = None /\ examples d = None /\ tags d = None /\ map d = None
  /\ schemas d = None /\ requests d = None /\ responses d = None
  /\ returns d = None.

End DocstringSpec.

Module DocstringScenario.
Import PyStr.

(** A docstring given by its lines. *)
Definition text (lines : list string) : string := join (String nl EmptyString) lines.

(** A header, a field that is only a colon, then free text. *)
Definition null_attributes : string :=
  text ["Attributes:"; "    :"; "text here"].

(** A map section whose body is another header. *)
Definition empty_map : string :=
  text ["Map:"; "    Args:"; "        x: the x"].

(** A response entry without colon. *)
Definition response_without_colon : string :=
  text ["Responses:"; "    Success"].

(** A returns section of one line that starts with [see]. *)
Definition see_returns : string :=
  text ["Returns:"; "    see :func:`helper`"].

(** Two paragraphs, no header; and the same text after a blank line. *)
Definition two_paragraphs : string :=
  text ["Create a session."; ""; "The session is kept."].

Definition after_blank_line : string :=
  text [""; "Create a session."].

(** Fields with a dangling indentation and an unterminated block. *)
Definition ragged_args : list string :=
  ["Args:"; "        x (int): the x"; "   dangling"; "            deeper";
   "Tags:"; "  a, b"; "      "; ""; "    trailing block"].

End DocstringScenario.

Module PathScenario.
Import Parser.

(** A view function whose request has a body. *)
Definition status_doc : string :=
  DocstringScenario.text
    ["Give the status of a task."; "";
     "    Request:"; "        body:"; "            task_id: int"; "    "].

Definition status : pyobj :=
  mkObj KFunction "status" "views" "status" (Some status_doc) [].

(** The same with a map section whose target is nowhere. *)
Definition lost_doc : string :=
  DocstringScenario.text
    ["Give the status of a task."; "";
     "    Map:"; "        /status: :func:`missing`"; "";
     "    Request:"; "        body:"; "            task_id: int"; "    "].

Definition lost : pyobj :=
  mkObj KFunction "lost" "views" "lost" (Some lost_doc) [].

Definition views : pyobj :=
  mkObj KModule "views" EmptyString EmptyString None [("status", status); ("lost", lost)].

Definition run : interp := mkInterp [] [] [] [] [("views", views)] [].

(** Stand-ins for what rests on pydantic; the scenarios stop before
    any of them is called. *)
Definition no_schema (f : pyobj) : result (option json) := Ok None.
Definition no_params (lines : list string) : result (list json) := Ok [].
Definition no_body (lines : list string) (f : pyobj) (r : option pyobj) : result json :=
  Ok (Models.JDict []).
Definition json_type (c : reqval) : result string := Ok "application/json".
Definition no_responses (f : pyobj) (name redirect : string) : result json :=
  Ok (Models.JDict []).
Definition no_text (e : exn) : string := EmptyString.

(** The application with the one rule [/status], GET, on [status]. *)
Definition status_rule : url_rule := mkRule "/status" status ["GET"].

End PathScenario.

(* ================================================================== *)
(** * More of Python's strings *)
(* ================================================================== *)

Module PyText.
Import PyStr.

(** [s.split(sep)] for a separator of one character or more: the
    occurrences are taken from the left and do not overlap.  [skip]
    counts the characters of a separator still to pass. *)
Fixpoint split_on_aux (sep : string) (skip : nat) (acc s : string) : list string :=
  match s with
  | EmptyString => [rev_str acc]
  | String c s' =>
      match skip with
      | S n => split_on_aux sep n acc s'
      | O =>
          if startswith sep s
          then rev_str acc :: split_on_aux sep (String.length sep - 1) EmptyString s'
          else split_on_aux sep 0 (String c acc) s'
      end
  end.

Definition split_on (sep s : string) : list string :=
  split_on_aux sep 0 EmptyString s.

(** [s.replace(old, new)]; an empty [old] stands before every character
    and at the end. *)
Fixpoint interleave (new s : string) : string :=
  match s with
  | EmptyString => new
  | String c s' => new ++ String c (interleave new s')
  end.

Definition replace_any (old new s : string) : string :=
  if is_empty old then interleave new s else replace old new s.

Definition double_quote : string := String (ascii_of_nat 34) EmptyString.

(** [int(s)] in base ten: white space around, a sign, then digits, with
    single underscores between digits.  The white space of [int] is that
    of [str.strip] without the four separators of codes 28 to 31.  (The
    bound recent interpreters put on the number of digits is left out.) *)
Definition int_space (c : ascii) : bool :=
  isspace c && negb (in_range 28 31 c).
Definition digit_value (c : ascii) : Z := Z.of_nat (code c - 48).

(** The digits after the first one: [prev_digit] tells whether the
    character before was a digit (and not an underscore). *)
Fixpoint digits (prev_digit : bool) (acc : Z) (s : string) : option Z :=
  match s with
  | EmptyString => if prev_digit then Some acc else None
  | String c s' =>
      if isdigit c then digits true (acc * 10 + digit_value c)%Z s'
      else if Ascii.eqb c "_"%char && prev_digit then digits false acc s'
      else None
  end.

Definition unsigned (s : string) : option Z :=
  match s with
  | String c s' => if isdigit c then digits true (digit_value c) s' else None
  | EmptyString => None
  end.

Definition int (s : string) : result Z :=
  let r :=
    match strip_by int_space s with
    | String c s' =>
        if Ascii.eqb c "-"%char then option_map Z.opp (unsigned s')
        else if Ascii.eqb c "+"%char then unsigned s'
        else unsigned (String c s')
    | EmptyString => None
    end in
  match r with
  | Some z => Ok z
  | None => Raise ValueError
  end.

End PyText.

(* ================================================================== *)
(** * util.py: [dget], [recurse_dict], [pop_if] *)
(* ================================================================== *)

Module Util.
Import Models.

(** [obj.get(k)]: [None] for a key that is missing; what is no
    dictionary has no [get]. *)
Definition get (obj : json) (k : key) : result json :=
  match obj with
  | JDict d => Ok (match lookup k d with Some v => v | None => JNull end)
  | _ => Raise AttributeError
  end.

(** [dget(obj, *args)] *)
Fixpoint dget (obj : json) (args : list key) : result json :=
  match args with
  | [] => Ok obj
  | k :: args' => v <- get obj k ;; dget v args'
  end.

(** [popped.update(more)] *)
Definition update (popped more : list (key * json)) : list (key * json) :=
  fold_left (fun acc kv => store (fst kv) (snd kv) acc) more popped.

(** [recurse_dict(jdict, pred, repl, repl_only)].  The value is a tree:
    each entry of a dictionary gets its new value in turn, the keys and
    their order stay.  The value [v] of an entry is the one bound by the
    loop: what [repl] returned is overwritten by the recursion into a
    dictionary [v]; a list [v] is rewritten in place, and the entry keeps
    what [repl] returned (taken to be a new object). *)
Section RecurseDict.

Variable pred : key -> json -> result bool.
Variable repl : key -> json -> result json.
Variable repl_only : bool.

Section Loops.

(** The function itself, for the calls of its loops. *)
Variable recurse : json -> result json.

(** [for i, item in enumerate(v): v[i] = recurse_dict(item, ...)] *)
Fixpoint each (l : list json) : result (list json) :=
  match l with
  | [] => Ok []
  | item :: l' =>
      item' <- recurse item ;;
      rest <- each l' ;;
      Ok (item' :: rest)
  end.

(** What [jdict[k]] is after the turn of the entry [(k, v)]. *)
Definition turn (k : key) (v : json) : result json :=
  p <- pred k v ;;
  r <- (if p then r <- repl k v ;; Ok (Some r) else Ok None) ;;
  let kept := match r with Some x => x | None => v end in
  if p && repl_only then Ok kept
  else
    match v with
    | JDict _ => recurse v
    | JList l => l' <- each l ;; Ok (match r with Some x => x | None => JList l' end)
    | _ => Ok kept
    end.

(** [for k, v in jdict.items(): ...] *)
Fixpoint entries (todo : list (key * json)) : result (list (key * json)) :=
  match todo with
  | [] => Ok []
  | (k, v) :: todo' =>
      v' <- turn k v ;;
      rest <- entries todo' ;;
      Ok ((k, v') :: rest)
  end.

End Loops.

Fixpoint recurse_dict (jdict : json) : result json :=
  match jdict with
  | JDict d => d' <- entries recurse_dict d ;; Ok (JDict d')
  | JList l => l' <- each recurse_dict l ;; Ok (JList l')
  | _ => Ok jdict
  end.

End RecurseDict.

(** [pop_if(jdict, pred)] for a predicate that holds of dictionaries
    only, as the one [extract_definitions] passes: [q k d] is
    [pred(k, v)] for the dictionary [v] of entries [d].  The test of an
    entry comes before the recursion into its value; the entries to pop
    are taken out after the loop, with what the recursion left of them.
    The result: what is left of [jdict], and [popped]. *)
Section PopIf.

Variable q : key -> list (key * json) -> bool.

Section Loop.

Variable pop : json -> result (json * list (key * json)).

(** The first loop: the entries that stay, the entries to pop, and
    [popped]. *)
Fixpoint sweep (todo : list (key * json)) (popped : list (key * json))
  : result (list (key * json) * list (key * json) * list (key * json)) :=
  match todo with
  | [] => Ok ([], [], popped)
  | (k, v) :: todo' =>
      match v with
      | JDict dv =>
          '(v', more) <- pop v ;;
          '(kept, to_pop, popped') <- sweep todo' (update popped more) ;;
          Ok (if q k dv then (kept, (k, v') :: to_pop, popped')
              else ((k, v') :: kept, to_pop, popped'))
      | _ =>
          '(kept, to_pop, popped') <- sweep todo' popped ;;
          Ok ((k, v) :: kept, to_pop, popped')
      end
  end.

End Loop.

(** [for p in to_pop: popped.update(jdict.pop(p))] *)
Definition take_out (to_pop popped : list (key * json)) : list (key * json) :=
  fold_left (fun acc kv =>
               match snd kv with
               | JDict dv => update acc dv
               | _ => acc
               end) to_pop popped.

Fixpoint pop_if (jdict : json) : result (json * list (key * json)) :=
  match jdict with
  | JDict d =>
      '(kept, to_pop, popped) <- sweep pop_if d [] ;;
      Ok (JDict kept, take_out to_pop popped)
  | _ => Raise AttributeError
  end.

End PopIf.

End Util.

(* ================================================================== *)
(** * schemas.py: [recurse_dict], [ResponseSchema] *)
(* ================================================================== *)

Module Schemas.
Import PyStr Models.

(** [MimeTypes]: a [str] enumeration; a member compares equal to its
    value. *)
Definition text : string := "text/plain".
Definition html : string := "text/html".
Definition form : string := "application/x-www-form-urlencoded".
Definition multipart : string := "multipart/form-data".
Definition json_ : string := "application/json".
Definition binary : string := "binary".

(** [recurse_dict(jdict, subs)], [subs] being [(key, sub, repl)]: only
    the values that are dictionaries are entered. *)
Section RecurseDict.

Variables key_ sub repl : string.

Section Loop.

Variable recurse : json -> result json.

Definition turn (k : key) (v : json) : result json :=
  let v1 :=
    if key_eqb k (KS key_) && match v with JStr s => String.eqb s sub | _ => false end
    then JStr repl else v in
  match v with
  | JDict _ => recurse v
  | _ => Ok v1
  end.

Fixpoint entries (todo : list (key * json)) : result (list (key * json)) :=
  match todo with
  | [] => Ok []
  | (k, v) :: todo' =>
      v' <- turn k v ;;
      rest <- entries todo' ;;
      Ok ((k, v') :: rest)
  end.

End Loop.

Fixpoint recurse_dict (jdict : json) : result json :=
  match jdict with
  | JDict d => d' <- entries recurse_dict d ;; Ok (JDict d')
  | _ => Raise AttributeError
  end.

End RecurseDict.

(** Truth of a value. *)
Definition truthy (v : json) : bool :=
  match v with
  | JNull => false
  | JBool b => b
  | JNum z => negb (Z.eqb z 0)
  | JStr s => PyStr.truthy s
  | JList l => match l with [] => false | _ => true end
  | JDict d => match d with [] => false | _ => true end
  end.

(** [len(v)] *)
Definition len (v : json) : result nat :=
  match v with
  | JDict d => Ok (length d)
  | JList l => Ok (length l)
  | JStr s => Ok (String.length s)
  | _ => Raise TypeError
  end.

(** A [ResponseSchema]; [None] is [JNull] for [spec]. *)
Record ResponseSchema : Type := mkResponse
  { status_code : nat;
    description : string;
    mimetype : string;
    example : option string;
    spec : json }.

(** [self.schema_field], set by [__init__] *)
Definition schema_field (r : ResponseSchema) : option string :=
  if String.eqb (mimetype r) json_ || String.eqb (mimetype r) binary
  then example r else None.

Definition one (k : string) (v : json) : json := JDict [(KS k, v)].

Definition content_text (r : ResponseSchema) : json :=
  match example r with
  | Some e =>
      if PyStr.truthy e
      then one "text/plain"
               (one "schema" (JDict [(KS "type", JStr "string"); (KS "example", JStr e)]))
      else one "text/plain" (one "schema" (one "type" (JStr "string")))
  | None => one "text/plain" (one "schema" (one "type" (JStr "string")))
  end.

Definition content_json (spec : json) : result json :=
  is_obj <- has_str "type" "object" spec ;;
  unwrap <-
    (if is_obj then
       props <- getitem spec (KS "properties") ;;
       contains "default" props
     else Ok false) ;;
  if unwrap then
    title <- getitem spec (KS "title") ;;
    props <- getitem spec (KS "properties") ;;
    spec <- getitem props (KS "default") ;;
    spec <- setitem spec (KS "title") title ;;
    Ok (one "application/json" (one "schema" spec))
  else Ok (one "application/json" (one "schema" spec)).

Definition content_binary (spec : json) : result json :=
  props <- getitem spec (KS "properties") ;;
  n <- len props ;;
  if n =? 1 then
    match props with
    | JDict d =>
        match d with
        | [(KS k, val)] =>
            if String.eqb k "default"
            then
              val <- getitem props (KS "default") ;;
              Ok (one "application/octet-stream" (one "schema" val))
            else Ok (one (replace "_" "/" k) (one "schema" val))
        | [(KI _, _)] => Raise AttributeError    (* an [int] has no [replace] *)
        | _ => Raise KeyError
        end
    | _ => Raise AttributeError                  (* no [keys] *)
    end
  else
    spec <- recurse_dict "format" "binary" "byte" spec ;;
    content_json spec.

(** [self.schema(spec)]; leaving [content] unbound is an
    [UnboundLocalError], a [NameError]. *)
Definition schema (r : ResponseSchema) (arg : json) : result json :=
  content <-
    (if String.eqb (mimetype r) text then Ok (content_text r)
     else if String.eqb (mimetype r) json_ then
       if truthy arg then content_json arg
       else if truthy (spec r) then content_json (spec r)
       else content_json (one "type" (JStr "object"))
     else if String.eqb (mimetype r) binary then
       let spec := if truthy arg then arg else spec r in
       if truthy spec then content_binary spec else Raise NameError
     else Raise NameError) ;;
  Ok (JDict [(KI (status_code r),
              JDict [(KS "description", JStr (description r)); (KS "content", content)])]).

End Schemas.

(* ================================================================== *)
(** * models.py: [add_required], [remove_attr], [remove_prop_titles]
      and the [schema_extra] hooks *)
(* ================================================================== *)

Module SchemaHooks.
Import Models.

(** The first part of [add_required_subroutine], up to the walk into the
    sub-fields. *)
Definition mark_required (allow : bool) (t : pytype) (value : json) : result json :=
  if allow then
    has_ref <- contains "$ref" value ;;
    value <-
      (if has_ref then
         value <- set_model_title t value ;;
         '(value, ref) <- pop value "$ref" ;;
         setitem value (KS "anyOf") (JList [JDict [(KS "$ref", ref)]])
       else Ok value) ;;
    setitem value (KS "required") (JBool false)
  else setitem value (KS "required") (JBool true).

(** [if field.sub_fields: ...], [walk] being the subroutine itself. *)
Definition required_sub_fields (walk : ModelField -> json -> bool -> result json)
           (fields : list ModelField) (value : json) : result json :=
  match fields with
  | [] => Ok value
  | s :: _ =>
      is_obj <- has_str "type" "object" value ;;
      has_ap <- (if is_obj then contains "additionalProperties" value else Ok false) ;;
      if has_ap then into walk "additionalProperties" s false value
      else
        has_any <- contains "anyOf" value ;;
        if has_any then each walk "anyOf" false fields 0 value else Ok value
  end.

Fixpoint add_required_subroutine (field : ModelField) (value : json) {struct field}
  : result json :=
  match field with
  | mkField _ allow t sub _ _ =>
      value <- mark_required allow t value ;;
      match sub with
      | SubNone => Ok value
      | SubTuple fields =>
          required_sub_fields (fun f v _ => add_required_subroutine f v) fields value
      | SubList fields =>
          required_sub_fields (fun f v _ => add_required_subroutine f v) fields value
      end
  end.

(** [add_required(schema, model)]: [fields] are [model.__fields__.values()]. *)
Fixpoint add_required_loop (fields : list ModelField) (todo : list (key * json))
         (props : json) : result json :=
  match todo with
  | [] => Ok props
  | (prop, _) :: todo' =>
      match filter (fun x => match prop with
                             | KS p => String.eqb (alias x) p
                             | KI _ => false
                             end) fields with
      | [] => Raise IndexError
      | field :: _ =>
          value <- getitem props prop ;;
          value <- add_required_subroutine field value ;;
          props <- setitem props prop value ;;
          add_required_loop fields todo' props
      end
  end.

Definition add_required (schema : json) (fields : list ModelField) : result json :=
  match schema with
  | JDict d =>
      match lookup (KS "properties") d with
      | None => Ok schema
      | Some (JDict props) =>
          props' <- add_required_loop fields props (JDict props) ;;
          setitem schema (KS "properties") props'
      | Some _ => Raise AttributeError
      end
  | _ => Raise AttributeError
  end.

(** [remove_attr(schema, model, attr)] *)
Definition remove_attr (schema : json) (attr : string) : result json :=
  c <- contains attr schema ;;
  if c then '(schema, _) <- pop schema attr ;; Ok schema else Ok schema.

(** [prop.pop('title', None)] *)
Definition pop_title (prop : json) : result json :=
  match prop with
  | JDict d => Ok (JDict (remove (KS "title") d))
  | JList _ => Raise TypeError
  | _ => Raise AttributeError
  end.

Fixpoint pop_titles (props : list (key * json)) : result (list (key * json)) :=
  match props with
  | [] => Ok []
  | (k, prop) :: props' =>
      prop' <- pop_title prop ;;
      rest <- pop_titles props' ;;
      Ok ((k, prop') :: rest)
  end.

(** [remove_prop_titles(schema, model)] *)
Definition remove_prop_titles (schema : json) : result json :=
  match schema with
  | JDict d =>
      match lookup (KS "properties") d with
      | None => Ok schema
      | Some (JDict props) =>
          props' <- pop_titles props ;;
          setitem schema (KS "properties") (JDict props')
      | Some _ => Raise AttributeError
      end
  | _ => Raise AttributeError
  end.

(** [Config.schema_extra] of [BaseModel], of [ParamsModel] and of
    [ModelNoTitleNoRequiredNoPropTitle]. *)
Definition base_schema_extra (schema : json) (fields : list ModelField) : result json :=
  add_nullable schema fields.

Definition params_schema_extra (schema : json) (fields : list ModelField) : result json :=
  add_required schema fields.

Definition bare_schema_extra (schema : json) (fields : list ModelField) : result json :=
  schema <- add_nullable schema fields ;;
  schema <- remove_prop_titles schema ;;
  schema <- remove_attr schema "title" ;;
  remove_attr schema "required".

End SchemaHooks.

(* ================================================================== *)
(** * openapi.py: [extract_definitions], [fix_yaml_references] *)
(* ================================================================== *)

Module Openapi.
Import PyStr PyText Models.

(** ** [extract_definitions] *)

(** [pred] and [repl] of [extract_definitions]; a value under [$ref]
    that is no [str] has no [startswith]. *)
Definition pred (a : key) (b : json) : result bool :=
  if key_eqb a (KS "$ref") then
    match b with
    | JStr s => Ok (startswith "#/definitions/" s)
    | _ => Raise AttributeError
    end
  else if key_eqb a (KS "type") then
    Ok (match b with JStr s => String.eqb s "type" | _ => false end)
  else Ok false.

Definition repl (k : key) (v : json) : result json :=
  match v with
  | JStr s =>
      if startswith "#/definitions/" s
      then Ok (JStr (replace "#/definitions/" "#/components/schemas/" s))
      else if String.eqb s "type" then Ok (JStr "string")
      else Ok JNull
  | _ => Raise AttributeError
  end.

(** [pop_pred(x, y)]: [x == "definitions" and isinstance(y, dict)], on
    the dictionaries [y]. *)
Definition pop_pred (x : key) (y : list (key * json)) : bool :=
  key_eqb x (KS "definitions").

(** [for x in missing: ...]: a model is given by its [__name__] and its
    [schema()]. *)
Fixpoint add_missing (missing : list (string * json)) (definitions : list (key * json))
  : list (key * json) :=
  match missing with
  | [] => definitions
  | (name, schema) :: missing' =>
      add_missing missing'
        (match lookup (KS name) definitions with
         | Some _ => definitions
         | None => store (KS name) schema definitions
         end)
  end.

(** [extract_definitions(paths, missing)]: [paths] as the call leaves
    it, and the dictionary returned. *)
Definition extract_definitions (paths : json) (missing : list (string * json))
  : result (json * list (key * json)) :=
  paths <- Util.recurse_dict pred repl false paths ;;
  '(paths, definitions) <- Util.pop_if pop_pred paths ;;
  let definitions := add_missing missing definitions in
  definitions <- Util.recurse_dict pred repl false (JDict definitions) ;;
  '(definitions, more_definitions) <- Util.pop_if pop_pred definitions ;;
  match definitions with
  | JDict d => Ok (paths, Util.update d more_definitions)
  | _ => Raise TypeError
  end.

(** ** [fix_yaml_references] *)

(** [a, b = l] *)
Definition unpack2 (l : list string) : result (string * string) :=
  match l with
  | [a; b] => Ok (a, b)
  | _ => Raise ValueError
  end.

(** The first loop: the anchors are recorded and cut off their lines. *)
Fixpoint anchors (splits : list string) (refs : list (string * string))
  : result (list string * list (string * string)) :=
  match splits with
  | [] => Ok ([], refs)
  | x :: splits' =>
      if PyStr.contains "&id" x then
        '(ref, _id) <- unpack2 (List.map strip (split_on ": " x)) ;;
        let refs := dict_set (drop 1 _id) (rstrip_chars ":" ref) refs in
        '(rest, refs) <- anchors splits' refs ;;
        Ok ((hd EmptyString (split_on ": " x) ++ ":") :: rest, refs)
      else
        '(rest, refs) <- anchors splits' refs ;;
        Ok (x :: rest, refs)
  end.

(** The second loop: an alias becomes a reference to the schema of its
    anchor. *)
Fixpoint aliases (splits : list string) (refs : list (string * string))
  : result (list string) :=
  match splits with
  | [] => Ok []
  | x :: splits' =>
      if PyStr.contains "*id" x then
        '(name, _id) <- unpack2 (List.map strip (split_on ": " x)) ;;
        match dict_get (drop 1 _id) refs with
        | None => Raise KeyError
        | Some ref =>
            let left := hd EmptyString (split_char ":" None x) in
            rest <- aliases splits' refs ;;
            Ok ((left ++ ":" ++ String nl EmptyString ++ replace_any name "  " left
                 ++ "$ref: '#/components/schemas/" ++ ref ++ "'") :: rest)
        end
      else
        rest <- aliases splits' refs ;;
        Ok (x :: rest)
  end.

Definition fix_yaml_references (spec : string) : result string :=
  '(splits, refs) <- anchors (split_char nl None spec) [] ;;
  splits <- aliases splits refs ;;
  Ok (join (String nl EmptyString) splits).

End Openapi.

(* ================================================================== *)
(** * parser.py: [check_indirection], [join_subsection] *)
(* ================================================================== *)

Module Redirects.
Import PyStr PyText Parser.

(** [param_regex]: spaces, then three groups: letters followed by
    letters, digits or underscores (one at least, as few as can be); a
    colon with spaces around it; the rest of the line, not empty. *)
Definition param_regex : Re.regex :=
  Re.cat [Re.Star true (Re.lit " ");
          Re.Group 1 (Re.Cat (Re.plus true (Re.Chr isalpha_ascii))
                             (Re.plus false
                                (Re.Chr (fun c => isalnum_ascii c || Ascii.eqb c "_"%char))));
          Re.Group 2 (Re.cat [Re.Star true (Re.lit " "); Re.lit ":";
                              Re.Star true (Re.lit " ")]);
          Re.Group 3 (Re.plus true Re.dot)].

(** The loop of [join_subsection]: a line that does not open a parameter
    goes on with the line before. *)
Fixpoint join_loop (lines : list string) (prev : string) (_lines : list string)
  : list string :=
  match lines with
  | [] => (_lines ++ [prev])%list
  | line :: lines' =>
      if negb (Re.matches param_regex line) then join_loop lines' (prev ++ line) _lines
      else join_loop lines' line (if truthy prev then (_lines ++ [prev])%list else _lines)
  end.

Definition join_subsection (lines : list string) : list string :=
  join_loop lines EmptyString [].

(** [.*\((.+)\).*] *)
Definition call_regex : Re.regex :=
  Re.cat [Re.Star true Re.dot; Re.lit "("; Re.Group 1 (Re.plus true Re.dot);
          Re.lit ")"; Re.Star true Re.dot].

(** [l[-2]] and [l[-1]] *)
Definition last_two (l : list string) : result (string * string) :=
  match rev l with
  | b :: a :: _ => Ok (a, b)
  | _ => Raise IndexError
  end.

(** [check_indirection(response_str)] *)
Definition check_indirection (response_str : string) : result (option (Z * string)) :=
  match Re.rmatch call_regex response_str with
  | None => Ok None
  | Some m =>
      let inner := List.map strip (split_char "," None (Re.group 1 (Re.groups m))) in
      '(type_field, schema_field) <- last_two inner ;;
      if Re.matches ref_regex type_field && Re.matches ref_regex schema_field then
        code <- int (nth 0 inner EmptyString) ;;
        Ok (Some (code,
                  replace double_quote EmptyString
                          (replace "'" EmptyString (nth 1 inner EmptyString))))
      else Ok None
  end.

End Redirects.

(* ================================================================== *)
(** * What the fixes of the generated schemas are to achieve *)
(* ================================================================== *)

Module OpenapiSpec.
Import PyStr Models.

(** An entry that [extract_definitions] rewrites: a [$ref] into
    [#/definitions/], or [type: type]. *)
Definition stale (k : key) (v : json) : bool :=
  match v with
  | JStr s =>
      (key_eqb k (KS "$ref") && startswith "#/definitions/" s)
      || (key_eqb k (KS "type") && String.eqb s "type")
  | _ => false
  end.

(** No entry of the tree is stale, through dictionaries and lists. *)
Fixpoint clean (j : json) : bool :=
  match j with
  | JDict d => forallb (fun kv => negb (stale (fst kv) (snd kv)) && clean (snd kv)) d
  | JList l => forallb clean l
  | _ => true
  end.

(** The entry is a dictionary under the key [definitions]. *)
Definition is_definitions (k : key) (v : json) : bool :=
  key_eqb k (KS "definitions") && match v with JDict _ => true | _ => false end.

(** No dictionary is left under a key [definitions], along the
    dictionaries of the tree (lists are not entered). *)
Fixpoint extracted (j : json) : bool :=
  match j with
  | JDict d => forallb (fun kv => negb (is_definitions (fst kv) (snd kv))
                                  && extracted (snd kv)) d
  | _ => true
  end.

(** No entry [key: sub] is left along the dictionaries of the tree. *)
Fixpoint without (key_ sub : string) (j : json) : bool :=
  match j with
  | JDict d =>
      forallb (fun kv =>
                 negb (key_eqb (fst kv) (KS key_)
                       && match snd kv with JStr s => String.eqb s sub | _ => false end)
                 && without key_ sub (snd kv)) d
  | _ => true
  end.

End OpenapiSpec.

Module OpenapiScenario.
Import Models.

(** The paths of an application with one route, whose request body
    refers to a model that pydantic left under [definitions]. *)
Definition task_model : json :=
  JDict [(KS "title", JStr "Task"); (KS "type", JStr "object");
         (KS "properties", JDict [(KS "id", JDict [(KS "type", JStr "integer")])])].

Definition body_schema (ref : string) (more : list (key * json)) : json :=
  JDict ([(KS "title", JStr "Body"); (KS "type", JStr "object");
          (KS "properties", JDict [(KS "task", JDict [(KS "$ref", JStr ref)])])]
         ++ more).

Definition paths_of (schema : json) : json :=
  JDict [(KS "/task",
          JDict [(KS "post",
                  JDict [(KS "requestBody",
                          JDict [(KS "content",
                                  JDict [(KS "application/json",
                                          JDict [(KS "schema", schema)])])])])])].

Definition task_paths : json :=
  paths_of (body_schema "#/definitions/Task"
                        [(KS "definitions", JDict [(KS "Task", task_model)])]).

End OpenapiScenario.

Module ResponseScenario.
Import Models Schemas.

(** The schema of a model of three fields, one of them [bytes], as
    [ModelNoTitleNoRequiredNoPropTitle] leaves it. *)
Definition upload_schema : json :=
  JDict [(KS "description", JStr "Simple Description"); (KS "type", JStr "object");
         (KS "properties",
          JDict [(KS "name", JDict [(KS "type", JStr "string")]);
                 (KS "stuff",
                  JDict [(KS "type", JStr "array");
                         (KS "items", JDict [(KS "type", JStr "string")])]);
                 (KS "file",
                  JDict [(KS "type", JStr "string"); (KS "format", JStr "binary")])])].

(** A JSON response that carries its schema. *)
Definition task_response : ResponseSchema :=
  mkResponse 200 "Initiated Task" json_ (Some "Task")
             (JDict [(KS "title", JStr "Task"); (KS "type", JStr "string")]).

End ResponseScenario.

Module RequiredScenario.
Import Models Scenarios.

(** The parameters [page: int] and [query: Optional[str]] of a request,
    and the schema pydantic hands to [schema_extra]. *)
Definition params_fields : list ModelField :=
  [plain "page" false; plain "query" true].

Definition params_schema : json :=
  JDict [(KS "title", JStr "Params"); (KS "type", JStr "object");
         (KS "properties",
          JDict [(KS "page", titled "Page" [(KS "type", JStr "integer")]);
                 (KS "query", titled "Query" [(KS "type", JStr "string")])]);
         (KS "required", JList [JStr "page"])].

Definition params_props : list (key * json) :=
  [(KS "page", titled "Page" [(KS "type", JStr "integer")]);
   (KS "query", titled "Query" [(KS "type", JStr "string")])].

End RequiredScenario.

Module YamlScenario.

(** A dump without anchors. *)
Definition plain_dump : string :=
  DocstringScenario.text ["openapi: 3.0.1"; "info: {}"; "paths:"; "  /task: {}"].

End YamlScenario.

Module RaiseSpec.
Import Docstring DocstringSpec.

(** The header that answers for an exception of the parser: the map
    section for an [IndexError], the responses section for a
    [ValueError], the returns section for a [TypeError], the section of
    other parameters for an [AttributeError]; no header for the others. *)
Definition blamed (e : exn) : option section_kind :=
  match e with
  | IndexError => Some KMap
  | ValueError => Some KResponses
  | TypeError => Some KReturns
  | AttributeError => Some KOtherParameters
  | _ => None
  end.

(** The exception comes from the section that [line] opens. *)
Definition raised_by (e : exn) (line : string) : Prop :=
  exists k, blamed e = Some k /\ header_kind line = Some k.

End RaiseSpec.

Module PartialScenario.
Import Parser.

(** [functools.partial(func)] *)
Definition partial_of (func : pyobj) : pyobj :=
  mkObj KPartial EmptyString "functools" EmptyString None [("func", func)].

End PartialScenario.

Module PathsSpec.
Import PyStr Parser.

(** The rule is left out: one of the patterns matches its text. *)
Definition excluded_by (excludes : list Re.regex) (name : string) : bool :=
  existsb (fun e => Re.matches e name) excludes.

(** The key of a rule in the paths: its text with the placeholders in
    braces. *)
Definition path_of (name : string) : string :=
  brace_params (Re.findall1 param_in_path_regex name) name.

(** The methods of a rule that [make_paths] looks at. *)
Definition served (method : string) : bool := mem_str method ["GET"; "POST"].

End PathsSpec.

Module PathsScenario.
Import Parser PathScenario.

(** An application with static files, and a route registered twice:
    under GET by one call, under OPTIONS alone by another. *)
Definition listing : pyobj :=
  mkObj KFunction "listing" "views" "listing" None [].

Definition static_rule : url_rule :=
  mkRule "/static/<path:filename>" listing ["GET"; "HEAD"; "OPTIONS"].
Definition task_rule : url_rule :=
  mkRule "/task/<int:task_id>" listing ["GET"; "HEAD"; "OPTIONS"].
Definition options_rule : url_rule :=
  mkRule "/task/<int:task_id>" listing ["OPTIONS"].

(** The pattern [/static] *)
Definition static_pattern : Re.regex := Re.str "/static".

(** [make_paths] with the stand-ins for what rests on pydantic. *)
Definition run_paths (rules : list url_rule)
  : result (paths_t * list (string * string) * list string) :=
  make_paths no_schema no_params no_body json_type no_responses no_text
             run rules [static_pattern] false EmptyString ([], [], []).

End PathsScenario.

Module IndirectionScenario.

(** A response left to two other functions. *)
Definition delegated : string :=
  "ResponseSchema(200, 'Initiated Task', :func:`tasks.kind`, :func:`tasks.start`)".

End IndirectionScenario.

Module OpIdSpec.
Import PyStr.

(** The text holds no percent sign. *)
Definition pfree (s : string) : Prop := mem_char "%" s = false.

End OpIdSpec.

Module PlainScenario.
Import Parser.

(** A view function with a docstring of two paragraphs and no section. *)
Definition greet : pyobj :=
  mkObj KFunction "greet" "views" "greet" (Some DocstringScenario.two_paragraphs) [].

End PlainScenario.

Module AliasScenario.

(** A dump with an alias and no anchor. *)
Definition dangling : string :=
  DocstringScenario.text ["paths:"; "  schema: *id001"].

End AliasScenario.

Module MissingScenario.
Import Models.

(** A model that pydantic left out of [definitions]. *)
Definition user_model : json :=
  JDict [(KS "title", JStr "User"); (KS "type", JStr "object")].

End MissingScenario.

(* ================================================================== *)
(** * Facts about results *)
(* ================================================================== *)

Lemma bind_Ok {A B : Type} (m : result A) (f : A -> result B) (b : B) :
  bind m f = Ok b -> exists a, m = Ok a /\ f a = Ok b.
Proof. destruct m; simpl; intros H; try discriminate. eauto. Qed.

(** Splits a hypothesis [x <- m ;; k = Ok b] into its two steps. *)
Ltac bind_inv H :=
  let a := fresh "a" in
  let Ha := fresh "Ha" in
  apply bind_Ok in H; destruct H as [a [Ha H]].

Module ModelsFacts.
Import Models.

Lemma key_eqb_refl (k : key) : key_eqb k k = true.
Proof. destruct k; simpl; [apply String.eqb_refl | apply Nat.eqb_refl]. Qed.

Lemma key_eqb_eq (a b : key) : key_eqb a b = true -> a = b.
Proof.
  destruct a, b; simpl; intros H; try discriminate.
  - apply String.eqb_eq in H. now subst.
  - apply Nat.eqb_eq in H. now subst.
Qed.

Lemma lookup_store_same (k : key) (v : json) (d : list (key * json)) :
  lookup k (store k v d) = Some v.
Proof.
  induction d as [|[k' v'] d IH]; simpl.
  - now rewrite key_eqb_refl.
  - destruct (key_eqb k k') eqn:E; simpl.
    + now rewrite key_eqb_refl.
    + now rewrite E.
Qed.

Lemma lookup_store_other (k k' : key) (v : json) (d : list (key * json)) :
  key_eqb k k' = false -> lookup k (store k' v d) = lookup k d.
Proof.
  intros Hk. induction d as [|[k2 v2] d IH]; simpl.
  - now rewrite Hk.
  - destruct (key_eqb k' k2) eqn:E; simpl.
    + apply key_eqb_eq in E. subst k2. now rewrite Hk.
    + destruct (key_eqb k k2); auto.
Qed.

Lemma lookup_remove_same (k : key) (d : list (key * json)) :
  lookup k (remove k d) = None.
Proof.
  induction d as [|[k' v'] d IH]; simpl; auto.
  destruct (key_eqb k k') eqn:E; simpl; auto. now rewrite E.
Qed.

Lemma lookup_remove_other (k k' : key) (d : list (key * json)) :
  key_eqb k k' = false -> lookup k (remove k' d) = lookup k d.
Proof.
  intros Hk. induction d as [|[k2 v2] d IH]; simpl; auto.
  destruct (key_eqb k' k2) eqn:E; simpl.
  - apply key_eqb_eq in E. subst k2. now rewrite Hk.
  - destruct (key_eqb k k2); auto.
Qed.

(** The entry of a key in a node; none in what is no dictionary. *)
Definition entry (k : string) (v : json) : option json :=
  match v with
  | JDict d => lookup (KS k) d
  | _ => None
  end.

Lemma setitem_entry_same (v v' x : json) (k : string) :
  setitem v (KS k) x = Ok v' -> entry k v' = Some x.
Proof.
  destruct v; simpl; intros H; try discriminate.
  injection H as <-. simpl. apply lookup_store_same.
Qed.

Lemma setitem_entry_other (v v' x : json) (k k' : string) :
  setitem v (KS k') x = Ok v' -> String.eqb k k' = false -> entry k v' = entry k v.
Proof.
  destruct v; simpl; intros H Hk; try discriminate.
  injection H as <-. simpl. now apply lookup_store_other.
Qed.

Lemma pop_entry_same (v v' x : json) (k : string) :
  pop v k = Ok (v', x) -> entry k v' = None.
Proof.
  destruct v; simpl; intros H; try discriminate.
  destruct (lookup (KS k) d); try discriminate.
  injection H as <- _. simpl. apply lookup_remove_same.
Qed.

Lemma pop_entry_other (v v' x : json) (k k' : string) :
  pop v k' = Ok (v', x) -> String.eqb k k' = false -> entry k v' = entry k v.
Proof.
  destruct v; simpl; intros H Hk; try discriminate.
  destruct (lookup (KS k') d); try discriminate.
  injection H as <- _. simpl. now apply lookup_remove_other.
Qed.

Lemma getitem_entry (v x : json) (k : string) :
  getitem v (KS k) = Ok x -> entry k v = Some x.
Proof.
  destruct v; simpl; intros H; try discriminate.
  destruct (lookup (KS k) d); try discriminate. now injection H as <-.
Qed.

Section Walk.

Variable walk : ModelField -> json -> bool -> result json.

Lemma into_entry_other (name k : string) (s : ModelField) (pa : bool) (v v' : json) :
  into walk name s pa v = Ok v' -> String.eqb k name = false -> entry k v' = entry k v.
Proof.
  unfold into. intros H Hk. bind_inv H. bind_inv H.
  eapply setitem_entry_other; eauto.
Qed.

Lemma into_entry_same (name : string) (s : ModelField) (pa : bool) (v v' : json) :
  into walk name s pa v = Ok v' ->
  exists child child', entry name v = Some child /\ walk s child pa = Ok child'
                       /\ entry name v' = Some child'.
Proof.
  unfold into. intros H. bind_inv H. bind_inv H.
  exists a, a0. repeat split; auto.
  - now apply getitem_entry.
  - eapply setitem_entry_same; eauto.
Qed.

Lemma each_entry_other (name k : string) (pa : bool) (fields : list ModelField) :
  String.eqb k name = false ->
  forall (i : nat) (v v' : json),
    each walk name pa fields i v = Ok v' -> entry k v' = entry k v.
Proof.
  intros Hk. induction fields as [|s fields IH]; simpl; intros i v v' H.
  - now injection H as <-.
  - do 5 bind_inv H. apply IH in H. rewrite H.
    eapply setitem_entry_other; eauto.
Qed.

(** The keys the walks write under. *)
Definition walk_names : list string :=
  ["additionalProperties"; "properties"; "anyOf"; "items"].

Definition untouched (k : string) : bool := negb (existsb (String.eqb k) walk_names).

Lemma untouched_neq (k : string) :
  untouched k = true ->
  String.eqb k "additionalProperties" = false /\ String.eqb k "properties" = false
  /\ String.eqb k "anyOf" = false /\ String.eqb k "items" = false.
Proof.
  unfold untouched, walk_names. simpl. intros H.
  apply negb_true_iff in H.
  repeat (apply orb_false_iff in H; destruct H as [? H]). auto.
Qed.

Lemma walk_sub_fields_entry (k : string) (fields : list ModelField) (pa : bool)
      (v v' : json) :
  walk_sub_fields walk fields pa v = Ok v' -> untouched k = true ->
  entry k v' = entry k v.
Proof.
  intros H Hk. apply untouched_neq in Hk. destruct Hk as (H1 & H2 & H3 & H4).
  destruct fields as [|s fields]; unfold walk_sub_fields in H.
  - now injection H as <-.
  - bind_inv H. destruct a.
    + destruct pa;
        [apply (each_entry_other _ k) in H | apply (into_entry_other _ k) in H]; auto.
    + destruct pa;
        [apply (each_entry_other _ k) in H | apply (into_entry_other _ k) in H]; auto.
    + apply (each_entry_other _ k) in H; auto.
    + apply (into_entry_other _ k) in H; auto.
    + now injection H as <-.
Qed.

Lemma walk_args_entry (k : string) (args : option ModelField) (v v' : json) :
  walk_args walk args v = Ok v' -> String.eqb k "properties" = false ->
  entry k v' = entry k v.
Proof.
  intros H Hk. destruct args as [af|]; [|now injection H as <-].
  destruct af as [a b t s ar rt].
  destruct s as [|l|l]; [|destruct l|]; unfold walk_args in H;
    bind_inv H; bind_inv H; try (destruct a1 as [p x]);
    eapply setitem_entry_other; eauto.
Qed.

Lemma walk_ret_entry (k : string) (ret : option ModelField) (v v' : json) :
  walk_ret walk ret v = Ok v' -> String.eqb k "properties" = false ->
  entry k v' = entry k v.
Proof.
  intros H Hk. destruct ret as [rf|]; simpl in H.
  - repeat bind_inv H. eapply setitem_entry_other; eauto.
  - now injection H as <-.
Qed.

Lemma walk_ret_properties (rf : ModelField) (v v' : json) :
  walk_ret walk (Some rf) v = Ok v' ->
  exists props props' r r',
    entry "properties" v = Some props /\ entry "retval" props = Some r
    /\ walk rf r true = Ok r'
    /\ entry "properties" v' = Some props' /\ entry "retval" props' = Some r'
    /\ forall k, String.eqb k "retval" = false -> entry k props' = entry k props.
Proof.
  simpl. intros H. bind_inv H. bind_inv H.
  pose proof (into_entry_same _ _ _ _ _ Ha0) as (r & r' & E1 & E2 & E3).
  exists a, a0, r, r'. repeat split; auto.
  - now apply getitem_entry.
  - eapply setitem_entry_same; eauto.
  - intros k Hk. eapply into_entry_other; eauto.
Qed.

Lemma walk_args_empty (af : ModelField) (v v' : json) :
  sub_fields af = SubTuple [] -> walk_args walk (Some af) v = Ok v' ->
  exists props, entry "properties" v' = Some props /\ entry "args" props = None.
Proof.
  destruct af as [a b t s ar rt]. simpl. intros -> H.
  bind_inv H. bind_inv H. destruct a1 as [p x].
  exists p. split.
  - eapply setitem_entry_same; eauto.
  - eapply pop_entry_same; eauto.
Qed.

Lemma walk_args_any (af : ModelField) (v v' : json) :
  sub_fields af = SubNone -> walk_args walk (Some af) v = Ok v' ->
  exists props, entry "properties" v' = Some props
                /\ entry "args" props = Some (JDict [(KS "type", JStr "object")]).
Proof.
  destruct af as [a b t s ar rt]. simpl. intros -> H.
  bind_inv H. bind_inv H.
  exists a1. split; eapply setitem_entry_same; eauto.
Qed.

(** What [walk_ret] leaves of the [args] property. *)
Lemma walk_ret_keeps_args (ret : option ModelField) (v v' props : json) (x : option json) :
  walk_ret walk ret v = Ok v' ->
  entry "properties" v = Some props -> entry "args" props = x ->
  exists props', entry "properties" v' = Some props' /\ entry "args" props' = x.
Proof.
  intros H Hp Hx. destruct ret as [rf|].
  - apply walk_ret_properties in H.
    destruct H as (p & p' & r & r' & E1 & _ & _ & E4 & _ & E6).
    rewrite Hp in E1. injection E1 as <-.
    exists p'. split; auto. rewrite E6; auto.
  - injection H as <-. eauto.
Qed.

(** What [walk_args] leaves of the [retval] property. *)
Lemma walk_args_keeps_retval (args : option ModelField) (v v' props : json)
      (x : option json) :
  walk_args walk args v = Ok v' ->
  entry "properties" v = Some props -> entry "retval" props = x ->
  exists props', entry "properties" v' = Some props' /\ entry "retval" props' = x.
Proof.
  intros H Hp Hx. destruct args as [af|]; [|injection H as <-; eauto].
  destruct af as [a b t s ar rt].
  destruct s as [|l|l]; [|destruct l|]; unfold walk_args in H;
    bind_inv H; apply getitem_entry in Ha; rewrite Hp in Ha; injection Ha as <-;
    bind_inv H; try (destruct a0 as [p y]);
    (eexists; split; [eapply setitem_entry_same; eauto|]); rewrite <- Hx.
  - eapply setitem_entry_other; eauto.
  - eapply pop_entry_other; eauto.
  - eapply into_entry_other; eauto.
  - eapply into_entry_other; eauto.
Qed.

End Walk.

Lemma mark_nullable_false (t : pytype) (k : string) (v v' : json) :
  mark_nullable false t v = Ok v' -> String.eqb k "type" = false ->
  entry k v' = entry k v.
Proof.
  unfold mark_nullable. intros H Hk. bind_inv H. bind_inv H.
  injection H as <-. destruct a.
  - bind_inv Ha0. destruct a as [p x]. injection Ha0 as <-.
    eapply pop_entry_other; eauto.
  - now injection Ha0 as <-.
Qed.

Lemma mark_nullable_true (t : pytype) (v v' : json) :
  mark_nullable true t v = Ok v' -> entry "nullable" v' = Some (JBool true).
Proof.
  unfold mark_nullable. intros H. do 4 bind_inv H.
  eapply setitem_entry_same; eauto.
Qed.

(** The first part of the subroutine writes under five keys only. *)
Definition marked (k : string) : bool :=
  existsb (String.eqb k) ["type"; "title"; "$ref"; "anyOf"; "nullable"].

Lemma mark_nullable_entry_other (allow : bool) (t : pytype) (k : string) (v v' : json) :
  mark_nullable allow t v = Ok v' -> marked k = false -> entry k v' = entry k v.
Proof.
  unfold marked. simpl. intros H Hk.
  repeat (apply orb_false_iff in Hk; destruct Hk as [? Hk]).
  unfold mark_nullable in H. bind_inv H. bind_inv H.
  assert (E0 : entry k a0 = entry k v).
  { destruct a.
    - bind_inv Ha0. destruct a as [p x]. injection Ha0 as <-.
      eapply pop_entry_other; eauto.
    - now injection Ha0 as <-. }
  rewrite <- E0. destruct allow; [|now injection H as <-].
  bind_inv H. bind_inv H.
  rewrite (setitem_entry_other _ _ _ k _ H) by auto.
  destruct a1; [|now injection Ha2 as <-].
  bind_inv Ha2. bind_inv Ha2. destruct a3 as [p x].
  rewrite (setitem_entry_other _ _ _ k _ Ha2) by auto.
  rewrite (pop_entry_other _ _ _ k _ Ha4) by auto.
  destruct t; simpl in Ha3.
  - eapply setitem_entry_other; eauto.
  - now injection Ha3 as <-.
  - discriminate.
Qed.

(** After the first part of the subroutine, the rest leaves every key
    alone but the four it walks under. *)
Lemma subroutine_tail_entry (k : string) (sub : subs ModelField)
      (args ret : option ModelField) (pa : bool) (v v' : json) :
  (v1 <- match sub with
         | SubNone => Ok v
         | SubTuple fields => walk_sub_fields add_nullable_subroutine fields pa v
         | SubList fields => walk_sub_fields add_nullable_subroutine fields pa v
         end ;;
   v2 <- walk_args add_nullable_subroutine args v1 ;;
   walk_ret add_nullable_subroutine ret v2) = Ok v' ->
  untouched k = true -> entry k v' = entry k v.
Proof.
  intros H Hk. pose proof (untouched_neq k Hk) as (_ & Hp & _ & _).
  bind_inv H. bind_inv H.
  rewrite (walk_ret_entry _ _ _ _ _ H Hp), (walk_args_entry _ _ _ _ _ Ha0 Hp).
  destruct sub; try (now injection Ha as <-);
    eapply walk_sub_fields_entry; eauto.
Qed.

Lemma subroutine_eq (a : string) (allow : bool) (t : pytype) (sub : subs ModelField)
      (args ret : option ModelField) (value : json) (pa : bool) :
  add_nullable_subroutine (mkField a allow t sub args ret) value pa
  = (value <- mark_nullable allow t value ;;
     value <- match sub with
              | SubNone => Ok value
              | SubTuple fields => walk_sub_fields add_nullable_subroutine fields pa value
              | SubList fields => walk_sub_fields add_nullable_subroutine fields pa value
              end ;;
     value <- walk_args add_nullable_subroutine args value ;;
     walk_ret add_nullable_subroutine ret value).
Proof. reflexivity. Qed.

Lemma not_nullable_kept (field : ModelField) (value v' : json) (pa : bool) :
  allow_none field = false ->
  add_nullable_subroutine field value pa = Ok v' ->
  entry "nullable" v' = entry "nullable" value.
Proof.
  destruct field as [a allow t sub args ret]. simpl allow_none. intros -> H.
  rewrite subroutine_eq in H. bind_inv H.
  rewrite (subroutine_tail_entry "nullable" _ _ _ _ _ _ H eq_refl).
  eapply mark_nullable_false; eauto.
Qed.

Lemma nullable_set_true (field : ModelField) (value v' : json) (pa : bool) :
  allow_none field = true ->
  add_nullable_subroutine field value pa = Ok v' ->
  entry "nullable" v' = Some (JBool true).
Proof.
  destruct field as [a allow t sub args ret]. simpl allow_none. intros -> H.
  rewrite subroutine_eq in H. bind_inv H.
  rewrite (subroutine_tail_entry "nullable" _ _ _ _ _ _ H eq_refl).
  eapply mark_nullable_true; eauto.
Qed.

Lemma no_args_dropped (field af : ModelField) (value v' : json) (pa : bool) :
  args_field field = Some af -> sub_fields af = SubTuple [] ->
  add_nullable_subroutine field value pa = Ok v' ->
  exists props, entry "properties" v' = Some props /\ entry "args" props = None.
Proof.
  destruct field as [a allow t sub args ret]. simpl args_field. intros -> Hs H.
  rewrite subroutine_eq in H. do 3 bind_inv H.
  destruct (walk_args_empty _ _ _ _ Hs Ha1) as (p & Hp & Hx).
  eapply walk_ret_keeps_args; eauto.
Qed.

Lemma any_args_object (field af : ModelField) (value v' : json) (pa : bool) :
  args_field field = Some af -> sub_fields af = SubNone ->
  add_nullable_subroutine field value pa = Ok v' ->
  exists props, entry "properties" v' = Some props
                /\ entry "args" props = Some (JDict [(KS "type", JStr "object")]).
Proof.
  destruct field as [a allow t sub args ret]. simpl args_field. intros -> Hs H.
  rewrite subroutine_eq in H. do 3 bind_inv H.
  destruct (walk_args_any _ _ _ _ Hs Ha1) as (p & Hp & Hx).
  eapply walk_ret_keeps_args; eauto.
Qed.

Lemma ret_walked (field rf : ModelField) (value v' : json) (pa : bool) :
  ret_field field = Some rf ->
  add_nullable_subroutine field value pa = Ok v' ->
  exists props r r',
    entry "properties" v' = Some props /\ entry "retval" props = Some r'
    /\ add_nullable_subroutine rf r true = Ok r'.
Proof.
  destruct field as [a allow t sub args ret]. simpl ret_field. intros -> H.
  rewrite subroutine_eq in H. do 3 bind_inv H.
  apply walk_ret_properties in H.
  destruct H as (p & p' & r & r' & _ & _ & E3 & E4 & E5 & _).
  exists p', r, r'. auto.
Qed.

Lemma ret_walked_exact (field rf : ModelField) (value v' props r : json) (pa : bool) :
  ret_field field = Some rf -> sub_list (sub_fields field) = [] ->
  entry "properties" value = Some props -> entry "retval" props = Some r ->
  add_nullable_subroutine field value pa = Ok v' ->
  exists props' r',
    entry "properties" v' = Some props' /\ entry "retval" props' = Some r'
    /\ add_nullable_subroutine rf r true = Ok r'.
Proof.
  destruct field as [a allow t sub args ret]. simpl ret_field. simpl sub_fields.
  intros -> Hsub Hp Hr H.
  rewrite subroutine_eq in H. do 3 bind_inv H.
  assert (E0 : entry "properties" a0 = Some props).
  { rewrite <- Hp. eapply mark_nullable_entry_other; eauto. }
  assert (E1 : a1 = a0).
  { destruct sub as [|l|l]; simpl in Hsub; subst; simpl in Ha0; congruence. }
  subst a1.
  destruct (walk_args_keeps_retval _ _ _ _ _ _ Ha1 E0 Hr) as (p2 & Hp2 & Hr2).
  apply walk_ret_properties in H.
  destruct H as (p & p' & r0 & r' & F1 & F2 & F3 & F4 & F5 & _).
  rewrite Hp2 in F1. injection F1 as <-. rewrite Hr2 in F2. injection F2 as <-.
  exists p', r'. auto.
Qed.

(** [dget(obj, *args)] of [util.py], on dictionaries. *)
Fixpoint dget (obj : json) (args : list string) : option json :=
  match args with
  | [] => Some obj
  | k :: args' =>
      match entry k obj with
      | Some v => dget v args'
      | None => None
      end
  end.

End ModelsFacts.

(* ================================================================== *)
(** * The annotator: unions and callables *)
(* ================================================================== *)

Section AnnotatorClaims.
Import Models ModelsFacts Scenarios.

(** C1. A field [Union[int, Optional[str]]] of a model whose
    [schema_extra] runs [add_nullable] gets a property with an [anyOf]
    list and [nullable: true] on the union itself; a field
    [Union[int, Dict[str, Optional[int]]]] gets [anyOf] at the top with no
    [nullable] key there nor on the dictionary alternative, whose
    [additionalProperties] carries [nullable: true]; and at every node
    the walk reaches, the [nullable] key is left as it was when the field
    does not allow none, and is [true] when it does: it is never set to
    [false]. *)
Theorem c1_union_nullability :
  (exists schema,
      add_nullable your_model_schema your_model_fields = Ok schema
      /\ (exists alts,
             dget schema ["properties"; "str_int_union"; "anyOf"] = Some (JList alts))
      /\ dget schema ["properties"; "str_int_union"; "nullable"] = Some (JBool true)
      /\ dget schema ["properties"; "obj_int_union"; "nullable"] = None
      /\ (exists alts alt,
             dget schema ["properties"; "obj_int_union"; "anyOf"] = Some (JList alts)
             /\ List.last alts JNull = alt
             /\ entry "nullable" alt = None
             /\ dget alt ["additionalProperties"; "nullable"] = Some (JBool true)))
  /\ (forall (field : ModelField) (value v' : json) (process_all : bool),
         allow_none field = false ->
         add_nullable_subroutine field value process_all = Ok v' ->
         entry "nullable" v' = entry "nullable" value)
  /\ (forall (field : ModelField) (value v' : json) (process_all : bool),
         allow_none field = true ->
         add_nullable_subroutine field value process_all = Ok v' ->
         entry "nullable" v' = Some (JBool true)).
Proof.
  split; [|split].
  - eexists. split; [vm_compute; reflexivity|].
    split; [eexists; vm_compute; reflexivity|].
    split; [vm_compute; reflexivity|].
    split; [vm_compute; reflexivity|].
    eexists. eexists. split; [vm_compute; reflexivity|].
    split; [reflexivity|]. split; vm_compute; reflexivity.
  - intros. eapply not_nullable_kept; eauto.
  - intros. eapply nullable_set_true; eauto.
Qed.

Lemma c1_union_nullability_witness :
  allow_none (plain "a_int" false) = false
  /\ add_nullable_subroutine (plain "a_int" false) (of_type "integer") false
     = Ok (of_type "integer")
  /\ entry "nullable" (of_type "integer") = entry "nullable" (of_type "integer").
Proof.
  split; [reflexivity|]. split; [vm_compute; reflexivity|].
  apply (proj1 (proj2 c1_union_nullability)
               (plain "a_int" false) (of_type "integer") (of_type "integer") false);
    [reflexivity | vm_compute; reflexivity].
Defined.

(** C2. For a callable field the subroutine handles: without arguments
    ([Callable[[], None]]) the [args] property is gone from the node; with
    any arguments ([Callable[..., None]]) [args] is [{type: object}] and
    nothing more; for [Callable[[int, int], None]] the properties of
    [args] are keyed 0 and 1, each [{type: integer}]; and when there is a
    return descriptor, the [retval] property of the node becomes what the
    walk of that descriptor over it gives, all positions processed (the
    callable field having no sub-fields of its own). *)
Theorem c2_callable_encoding :
  (forall (field af : ModelField) (value v' : json) (process_all : bool),
      args_field field = Some af -> sub_fields af = SubTuple [] ->
      add_nullable_subroutine field value process_all = Ok v' ->
      exists props, entry "properties" v' = Some props /\ entry "args" props = None)
  /\ (forall (field af : ModelField) (value v' : json) (process_all : bool),
         args_field field = Some af -> sub_fields af = SubNone ->
         add_nullable_subroutine field value process_all = Ok v' ->
         exists props,
           entry "properties" v' = Some props
           /\ entry "args" props = Some (JDict [(KS "type", JStr "object")]))
  /\ (exists v,
         add_nullable_subroutine (callable_field two_ints) two_ints_schema true = Ok v
         /\ dget v ["properties"; "args"; "properties"]
            = Some (JDict [(KI 0, of_type "integer"); (KI 1, of_type "integer")]))
  /\ (forall (field rf : ModelField) (value v' props r : json) (process_all : bool),
         ret_field field = Some rf -> sub_list (sub_fields field) = [] ->
         entry "properties" value = Some props -> entry "retval" props = Some r ->
         add_nullable_subroutine field value process_all = Ok v' ->
         exists props' r',
           entry "properties" v' = Some props' /\ entry "retval" props' = Some r'
           /\ add_nullable_subroutine rf r true = Ok r').
Proof.
  split; [|split; [|split]].
  - intros. eapply no_args_dropped; eauto.
  - intros. eapply any_args_object; eauto.
  - eexists. split; vm_compute; reflexivity.
  - intros. eapply ret_walked_exact; eauto.
Qed.

Lemma c2_callable_encoding_witness :
  exists props,
    entry "properties"
          (JDict [(KS "title", JStr "Func"); (KS "type", JStr "object");
                  (KS "x-type", JStr "function");
                  (KS "properties",
                   JDict [(KS "retval", JDict [(KS "nullable", JBool true)])])])
    = Some props
    /\ entry "args" props = None.
Proof.
  apply (proj1 c2_callable_encoding
               (callable_field (SubTuple []))
               (mkField "func_args" false TNotClass (SubTuple []) None None)
               (callable_schema (of_type "object")) _ true);
    [reflexivity | reflexivity | vm_compute; reflexivity].
Defined.

End AnnotatorClaims.

(* ================================================================== *)
(** * The operation identifier *)
(* ================================================================== *)

Section OpIdClaims.
Import Parser OpIdScenario.

(** C8, as stated, fails: with the template [[__%C%f%r%n]_[_%p]_%H] the
    function [bleh_annot] on the route [get_stuff] with the parameters
    [task_id] and [op_id] and the method GET does not render
    [bleh_annot__get_stuff__task_id_op_id__GET]. *)
Lemma c8_default_template_counterexample :
  get_opId "/path/get_stuff" (plain_function "tests.functions" None) None
           ["task_id"; "op_id"] "GET" "[__%C%f%r%n]_[_%p]_%H"
  <> Ok "bleh_annot__get_stuff__task_id_op_id__GET".
Proof. vm_compute. discriminate. Qed.

(** C8, amended. For a plain function named [bleh_annot] (no class, no
    redirect, any module whose name has a camel case), the route basename
    [get_stuff], the parameters [task_id] and [op_id] and the method GET,
    the template [[__%C%f%r%n]_[_%p]_%H] renders
    [bleh_annot__get_stuff_task_id_op_id_GET]: a group gets no leading
    separator and the literal single underscores between the groups stay;
    the first letter is the lower-case one of the function name.  The
    text [bleh_annot__get_stuff__task_id_op_id__GET] is what the template
    [[__%C%f%r%n]__[_%p]__%H] renders. *)
Theorem c8_operation_id :
  forall (module_ camel : string) (doc : option string),
    camel_case module_ = Ok camel ->
    get_opId "/path/get_stuff" (plain_function module_ doc) None
             ["task_id"; "op_id"] "GET" default_template
    = Ok "bleh_annot__get_stuff_task_id_op_id_GET"
    /\ get_opId "/path/get_stuff" (plain_function module_ doc) None
                ["task_id"; "op_id"] "GET" test_template
       = Ok "bleh_annot__get_stuff__task_id_op_id__GET".
Proof.
  intros module_ camel doc H.
  unfold get_opId, plain_function, default_template, test_template.
  cbv beta iota zeta delta [__module__ __name__ __qualname__].
  rewrite H. split; vm_compute; reflexivity.
Qed.

Lemma c8_operation_id_witness :
  get_opId "/path/get_stuff" (plain_function "tests.functions" None) None
           ["task_id"; "op_id"] "GET" default_template
  = Ok "bleh_annot__get_stuff_task_id_op_id_GET"
  /\ get_opId "/path/get_stuff" (plain_function "tests.functions" None) None
              ["task_id"; "op_id"] "GET" test_template
     = Ok "bleh_annot__get_stuff__task_id_op_id__GET".
Proof.
  apply (c8_operation_id "tests.functions" "tests.Functions" None).
  vm_compute. reflexivity.
Defined.

End OpIdClaims.

(* ================================================================== *)
(** * Section headers *)
(* ================================================================== *)

Section HeaderClaims.
Import Docstring.

(** C3, on the code. [_is_section_header] measures the indentation of
    the header on the line stripped of its spaces: a space in front of
    the header line changes nothing, and the line [    Args:] followed by
    a line at the same indentation of four is taken for a header, its
    follower parsed as a parameter. *)
Theorem c3_header_indent_ignored :
  (forall (line : string) (after : list string),
      _is_section_header (String " " line) after = _is_section_header line after)
  /\ _get_indent "    Args:" = 4
  /\ _get_current_indent 1 ["    Args:"; "    task_id: the task"] = 4
  /\ _is_section_header "    Args:" ["    task_id: the task"] = true
  /\ (exists d, of_lines ["    Args:"; "    task_id: the task"] = Ok d
                /\ parameters d = Some [("task_id", EmptyString, [])]).
Proof.
  split; [|repeat split; try (vm_compute; reflexivity)].
  - intros line after. reflexivity.
  - eexists. split; vm_compute; reflexivity.
Qed.

End HeaderClaims.

(* ================================================================== *)
(** * The redirect resolver *)
(* ================================================================== *)

Module ResolverFacts.
Import Parser RedirectScenario.

Lemma dict_get_set_same {V : Type} (k : string) (v : V) (d : list (string * V)) :
  dict_get k (dict_set k v d) = Some v.
Proof.
  induction d as [|[k' v'] d IH]; simpl.
  - now rewrite String.eqb_refl.
  - destruct (String.eqb k k') eqn:E; simpl.
    + now rewrite String.eqb_refl.
    + now rewrite E.
Qed.

(** [import] changes [sys.modules] only, and only by the module named. *)
Lemma exec_import_frame (st st' : interp) (modname : string) :
  exec_import st modname = Ok st' ->
  global_modules st' = global_modules st /\ parser_globals st' = parser_globals st
  /\ util_globals st' = util_globals st /\ builtins st' = builtins st
  /\ importable st' = importable st
  /\ (exists m, dict_get modname (sys_modules st') = Some m).
Proof.
  unfold exec_import. intros H.
  destruct (forallb is_identifier (PyStr.split_char "." None modname)); try discriminate.
  destruct (dict_get modname (sys_modules st)) as [m|] eqn:E.
  - injection H as <-. repeat split; eauto.
  - destruct (dict_get modname (importable st)) as [m|]; try discriminate.
    injection H as <-. simpl. repeat split; auto.
    exists m. apply dict_get_set_same.
Qed.

Lemma exec_import_loaded (st : interp) (modname : string) (m : pyobj) :
  dict_get modname (sys_modules st) = Some m ->
  exec_import st modname = Ok st \/ exec_import st modname = Raise SyntaxError.
Proof.
  unfold exec_import. intros ->.
  destruct (forallb is_identifier (PyStr.split_char "." None modname)); auto.
Qed.

(** Importing again changes nothing more. *)
Lemma exec_import_again (st st' : interp) (modname : string) :
  exec_import st modname = Ok st' -> exec_import st' modname = Ok st'.
Proof.
  intros H. destruct (exec_import_frame _ _ _ H) as (_ & _ & _ & _ & _ & m & Hm).
  unfold exec_import in *.
  destruct (forallb is_identifier (PyStr.split_char "." None modname)); try discriminate.
  now rewrite Hm.
Qed.

Lemma exec_import_fails_again (st : interp) (modname : string) :
  is_ok (exec_import st modname) = false ->
  after_import st modname = st.
Proof. unfold after_import. destruct (exec_import st modname); simpl; congruence. Qed.

Lemma exec_and_return_frame (st st' : interp) (e : string) (scopes : list namespace) :
  util_globals st' = util_globals st -> builtins st' = builtins st ->
  exec_and_return st' e scopes = exec_and_return st e scopes.
Proof. unfold exec_and_return. now intros -> ->. Qed.

Lemma attempts_frame (st : interp) (modname func_name : string) (redirect_from : pyobj) :
  attempt1 (after_import st modname) func_name = attempt1 st func_name
  /\ attempt2 (after_import st modname) func_name redirect_from
     = attempt2 st func_name redirect_from.
Proof.
  unfold after_import. destruct (exec_import st modname) as [st'| |] eqn:E; auto.
  destruct (exec_import_frame _ _ _ E) as (Hg & Hp & Hu & Hb & _).
  unfold attempt1, attempt2, parser_scopes. rewrite Hg, Hp.
  split; apply exec_and_return_frame; auto.
Qed.

(** The code resolves in the order of [resolution], and leaves the
    interpreter untouched when one of the first two blocks succeeds, and
    as [import] left it otherwise. *)
Lemma get_func_for_redirect_order (st : interp) (func_name : string)
      (redirect_from : pyobj) :
  fst (get_func_for_redirect st func_name redirect_from)
  = resolution st func_name redirect_from
  /\ snd (get_func_for_redirect st func_name redirect_from)
     = if is_ok (attempt1 st func_name) || is_ok (attempt2 st func_name redirect_from)
       then st else after_import st (__module__ redirect_from).
Proof.
  unfold get_func_for_redirect, resolution, third, after_import, or_else.
  destruct (attempt1 st func_name); simpl; auto;
    destruct (attempt2 st func_name redirect_from); simpl; auto;
    destruct (exec_import st (__module__ redirect_from)) as [st'| |]; simpl;
    try (destruct (attempt3 st' func_name redirect_from) as [[f|]| |]; simpl; auto);
    try (destruct (attempt4 st' func_name redirect_from); simpl; auto);
    destruct (attempt4 st func_name redirect_from); simpl; auto.
Qed.

Lemma after_import_idem (st : interp) (modname : string) :
  after_import (after_import st modname) modname = after_import st modname.
Proof.
  unfold after_import at 2 3. destruct (exec_import st modname) as [st'| |] eqn:E.
  - unfold after_import. now rewrite (exec_import_again _ _ _ E).
  - unfold after_import. now rewrite E.
  - unfold after_import. now rewrite E.
Qed.

Lemma third_after_import (st : interp) (func_name : string) (redirect_from : pyobj) :
  third (after_import st (__module__ redirect_from)) func_name redirect_from
  = third st func_name redirect_from.
Proof.
  unfold third, after_import.
  destruct (exec_import st (__module__ redirect_from)) as [st'| |] eqn:E; simpl.
  - now rewrite (exec_import_again _ _ _ E).
  - now rewrite E.
  - now rewrite E.
Qed.

Lemma resolution_after_import (st : interp) (func_name : string) (redirect_from : pyobj) :
  resolution (after_import st (__module__ redirect_from)) func_name redirect_from
  = resolution st func_name redirect_from.
Proof.
  unfold resolution.
  destruct (attempts_frame st (__module__ redirect_from) func_name redirect_from)
    as [-> ->].
  now rewrite third_after_import, after_import_idem.
Qed.

Lemma after_import_loaded (st : interp) (modname : string) (m : pyobj) :
  dict_get modname (sys_modules st) = Some m -> after_import st modname = st.
Proof.
  intros H. unfold after_import.
  destruct (exec_import_loaded _ _ _ H) as [-> | ->]; reflexivity.
Qed.

Lemma after_import_registry (st : interp) (modname : string) :
  global_modules (after_import st modname) = global_modules st
  /\ parser_globals (after_import st modname) = parser_globals st.
Proof.
  unfold after_import. destruct (exec_import st modname) as [st'| |] eqn:E; auto.
  destruct (exec_import_frame _ _ _ E) as (Hg & Hp & _). auto.
Qed.

End ResolverFacts.

Section ResolverClaims.
Import Parser RedirectScenario ResolverFacts.





(** The second call in the scenario where the first one loads the
    module. *)
Example resolution_twice_not_loaded :
  let first := get_func_for_redirect not_loaded "helper" view in
  fst first = Some helper
  /\ sys_modules (snd first) = [("views", views)]
  /\ get_func_for_redirect (snd first) "helper" view = first.
Proof. repeat split; vm_compute; reflexivity. Qed.

End ResolverClaims.

(* ================================================================== *)
(** * The section parser: what the consumers take *)
(* ================================================================== *)

Module DocstringFacts.
Import PyStr Docstring DocstringSpec.

#[local] Arguments dict_get : simpl never.
#[local] Arguments Re.matches : simpl never.

(** Every consumer splits the lines left into the lines it takes and
    the lines it leaves. *)
Lemma _consume_empty_split (rest ls r : list string) :
  _consume_empty rest = (ls, r) -> rest = (ls ++ r)%list.
Proof.
  revert ls r. induction rest as [|line after IH]; simpl; intros ls r H.
  - now injection H as <- <-.
  - destruct (truthy line).
    + now injection H as <- <-.
    + destruct (_consume_empty after) as [ls' r'].
      injection H as <- <-. simpl. f_equal. now apply IH.
Qed.

Lemma _consume_contiguous_split (rest ls r : list string) :
  _consume_contiguous rest = (ls, r) -> rest = (ls ++ r)%list.
Proof.
  revert ls r. induction rest as [|line after IH]; simpl; intros ls r H.
  - now injection H as <- <-.
  - destruct (truthy line && negb (_is_section_header line after)).
    + destruct (_consume_contiguous after) as [ls' r'].
      injection H as <- <-. simpl. f_equal. now apply IH.
    + now injection H as <- <-.
Qed.

Lemma consume_until_break_split (b : bool) (si : nat) (rest ls r : list string) :
  consume_until_break b si rest = (ls, r) -> rest = (ls ++ r)%list.
Proof.
  revert ls r. induction rest as [|line after IH]; intros ls r H.
  - simpl in H. now injection H as <- <-.
  - unfold consume_until_break in H; fold consume_until_break in H.
    destruct (_is_section_break b si (line :: after)).
    + now injection H as <- <-.
    + destruct (consume_until_break b si after) as [ls' r'].
      injection H as <- <-. simpl. f_equal. now apply IH.
Qed.

Lemma _consume_indented_block_split (b : bool) (si indent : nat)
      (rest ls r : list string) :
  _consume_indented_block b si indent rest = (ls, r) -> rest = (ls ++ r)%list.
Proof.
  revert ls r. induction rest as [|line after IH]; intros ls r H.
  - simpl in H. now injection H as <- <-.
  - unfold _consume_indented_block in H; fold _consume_indented_block in H.
    destruct (negb (_is_section_break b si (line :: after))
              && (negb (truthy line) || _is_indented line indent)).
    + destruct (_consume_indented_block b si indent after) as [ls' r'].
      injection H as <- <-. simpl. f_equal. now apply IH.
    + now injection H as <- <-.
Qed.

(** [r] is what is left of [l] after some lines. *)
Definition left_of (r l : list string) : Prop := exists taken, l = (taken ++ r)%list.

Lemma left_of_refl (l : list string) : left_of l l.
Proof. now exists []. Qed.

Lemma left_of_trans (a b c : list string) : left_of a b -> left_of b c -> left_of a c.
Proof.
  intros [t1 ->] [t2 ->]. exists (t2 ++ t1)%list. now rewrite app_assoc.
Qed.

Lemma left_of_cons (r l : list string) (x : string) : left_of r l -> left_of r (x :: l).
Proof. intros [t ->]. now exists (x :: t). Qed.

Lemma left_of_length (r l : list string) : left_of r l -> length r <= length l.
Proof. intros [t ->]. rewrite length_app. lia. Qed.

Lemma _consume_to_next_section_left (b : bool) (si : nat) (rest ls r : list string) :
  _consume_to_next_section b si rest = (ls, r) -> left_of r rest.
Proof.
  unfold _consume_to_next_section.
  destruct (_consume_empty rest) as [e1 r1] eqn:E1.
  destruct (consume_until_break b si r1) as [l2 r2] eqn:E2.
  destruct (_consume_empty r2) as [e3 r3] eqn:E3.
  intros H. injection H as _ <-.
  apply _consume_empty_split in E1, E3. apply consume_until_break_split in E2.
  subst. exists (e1 ++ l2 ++ e3)%list. now rewrite <- !app_assoc.
Qed.

Lemma body_left (b : bool) (si : nat) (rest ls r : list string) :
  body b si rest = (ls, r) -> left_of r rest.
Proof.
  unfold body. destruct (_consume_to_next_section b si rest) as [l r'] eqn:E.
  intros H. injection H as _ <-. eapply _consume_to_next_section_left; eauto.
Qed.

Lemma _consume_field_left (b : bool) (si : nat) (pt pf : bool) (rest r : list string)
      (f : field) :
  _consume_field b si pt pf rest = Ok (f, r) ->
  exists line after, rest = line :: after /\ left_of r after.
Proof.
  unfold _consume_field. destruct rest as [|line after]; try discriminate.
  destruct (_partition_field_on_colon line) as [[before colon] after_colon].
  destruct (if pt then _ else _) as [n t].
  destruct (if pf && _ then _ else _) as [n' t'].
  destruct (_consume_indented_block b si (_get_indent line + 1) after) as [blk r'] eqn:E.
  intros H. injection H as _ <-.
  exists line, after. split; auto.
  apply _consume_indented_block_split in E. now exists blk.
Qed.

Lemma _consume_field_ok (b : bool) (si : nat) (pt pf : bool) (line : string)
      (after : list string) :
  exists f r, _consume_field b si pt pf (line :: after) = Ok (f, r).
Proof.
  unfold _consume_field.
  destruct (_partition_field_on_colon line) as [[before colon] after_colon].
  destruct (if pt then _ else _) as [n t].
  destruct (if pf && _ then _ else _) as [n' t'].
  destruct (_consume_indented_block b si (_get_indent line + 1) after) as [blk r'].
  eauto.
Qed.

(** The loop over the fields ends before its fuel does, and leaves a
    tail of the lines it was given. *)
Lemma consume_fields_loop_ok (b : bool) (si : nat) (pt pf : bool) (fuel : nat) :
  forall rest : list string,
    length rest <= fuel ->
    exists fs r, consume_fields_loop fuel b si pt pf rest = Ok (fs, r) /\ left_of r rest.
Proof.
  induction fuel as [|fuel IH]; intros rest Hlen.
  - destruct rest; [|simpl in Hlen; lia].
    exists [], []. split; [reflexivity | apply left_of_refl].
  - unfold consume_fields_loop; fold consume_fields_loop.
    destruct (_is_section_break b si rest) eqn:Hb.
    + exists [], rest. split; [reflexivity | apply left_of_refl].
    + destruct rest as [|line after]; [discriminate|].
      destruct (_consume_field_ok b si pt pf line after) as (f & r & Hf).
      rewrite Hf. simpl.
      destruct (_consume_field_left _ _ _ _ _ _ _ Hf) as (l' & a' & E & Hl).
      injection E as <- <-.
      destruct (IH r) as (fs & r' & Hloop & Hl').
      { apply left_of_length in Hl. simpl in Hlen. lia. }
      rewrite Hloop. simpl. eexists. exists r'. split; [reflexivity|].
      apply left_of_cons. eapply left_of_trans; eauto.
Qed.

Lemma _consume_fields_ok (b : bool) (si : nat) (pt pf : bool) (rest : list string) :
  exists fs r, _consume_fields b si pt pf rest = Ok (fs, r) /\ left_of r rest.
Proof.
  unfold _consume_fields. destruct (_consume_empty rest) as [e r1] eqn:E.
  destruct (consume_fields_loop_ok b si pt pf (length r1) r1 (le_n _))
    as (fs & r & H & Hl).
  exists fs, r. split; auto.
  apply _consume_empty_split in E. eapply left_of_trans; eauto. now exists e.
Qed.

(** ** The reducers *)

Lemma reducer_left (k : section_kind) (section : string) (si : nat)
      (rest r : list string) (d d' : GoogleDocstring) (ne : bool) :
  reducer k section si rest d = Ok (ne, r, d') ->
  left_of r rest /\ description d' = description d.
Proof.
  destruct k; simpl;
    unfold _parse_parameters_section, _parse_attributes_section,
      _parse_examples_section, _parse_keyword_arguments_section,
      _parse_methods_section, _parse_other_parameters_section,
      _parse_schemas_section, _parse_map_section, _parse_tags_section,
      _parse_requests_section, _parse_responses_section, _parse_returns_section;
    intros H.
  - destruct (_consume_fields_ok true si true false rest) as (fs & r0 & E & Hl).
    rewrite E in H. simpl in H. injection H as _ <- <-. auto.
  - destruct (_consume_fields_ok true si true false rest) as (fs & r0 & E & Hl).
    rewrite E in H. simpl in H. injection H as _ <- <-. auto.
  - destruct (body true si rest) as [ls r0] eqn:E. injection H as _ <- <-.
    split; auto. eapply body_left; eauto.
  - destruct (_consume_fields_ok true si true false rest) as (fs & r0 & E & Hl).
    rewrite E in H. simpl in H. injection H as _ <- <-. auto.
  - destruct (_consume_fields_ok true si false false rest) as (fs & r0 & E & Hl).
    rewrite E in H. simpl in H. injection H as _ <- <-. auto.
  - destruct (_consume_fields_ok true si true false rest) as (fs & r0 & E & Hl).
    rewrite E in H. simpl in H. destruct (parameters d); try discriminate.
    injection H as _ <- <-. auto.
  - destruct (body true si rest) as [ls r0] eqn:E. injection H as _ <- <-.
    split; auto. eapply body_left; eauto.
  - destruct (body true si rest) as [ls r0] eqn:E.
    destruct ls; try discriminate. injection H as _ <- <-.
    split; auto. eapply body_left; eauto.
  - destruct (body true si rest) as [ls r0] eqn:E. injection H as _ <- <-.
    split; auto. eapply body_left; eauto.
  - destruct (body true si rest) as [ls r0] eqn:E. injection H as _ <- <-.
    split; auto. eapply body_left; eauto.
  - destruct (_consume_to_next_section true si rest) as [ls r0] eqn:E.
    apply _consume_to_next_section_left in E.
    destruct (is_see _).
    + injection H as _ <- <-. auto.
    + destruct (_join_subsection _); try discriminate.
      simpl in H. injection H as _ <- <-. auto.
  - destruct (_consume_to_next_section true si rest) as [ls r0] eqn:E.
    apply _consume_to_next_section_left in E.
    destruct (is_see _); try discriminate.
    injection H as _ <- <-. auto.
Qed.

Lemma reducer_plain (k : section_kind) (section : string) (si : nat)
      (rest : list string) (d : GoogleDocstring) :
  plain_kind k = true -> exists out, reducer k section si rest d = Ok out.
Proof.
  destruct k; simpl; try discriminate; intros _;
    unfold _parse_parameters_section, _parse_attributes_section,
      _parse_examples_section, _parse_keyword_arguments_section,
      _parse_methods_section, _parse_schemas_section, _parse_tags_section,
      _parse_requests_section;
    try (destruct (body true si rest) as [ls r0]; eauto; fail);
    match goal with
    | |- context [_consume_fields ?b ?s ?pt ?pf ?r] =>
        destruct (_consume_fields_ok b s pt pf r) as (fs & r0 & E & _);
        rewrite E; simpl; eauto
    end.
Qed.

Lemma reducer_renders (k : section_kind) (section : string) (si : nat)
      (rest r : list string) (d d' : GoogleDocstring) (ne : bool) :
  always_renders k = true -> reducer k section si rest d = Ok (ne, r, d') -> ne = true.
Proof.
  destruct k; simpl; try discriminate; intros _;
    unfold _parse_parameters_section, _parse_examples_section,
      _parse_keyword_arguments_section, _parse_schemas_section, _parse_map_section,
      _parse_tags_section, _parse_requests_section, _parse_responses_section;
    intros H.
  - bind_inv H. destruct a as [fs r0]. now injection H as <- _ _.
  - destruct (body true si rest) as [ls r0]. now injection H as <- _ _.
  - bind_inv H. destruct a as [fs r0]. now injection H as <- _ _.
  - destruct (body true si rest) as [ls r0]. now injection H as <- _ _.
  - destruct (body true si rest) as [ls r0]. destruct ls; try discriminate.
    now injection H as <- _ _.
  - destruct (body true si rest) as [ls r0]. now injection H as <- _ _.
  - destruct (body true si rest) as [ls r0]. now injection H as <- _ _.
  - destruct (_consume_to_next_section true si rest) as [ls r0].
    destruct (is_see _).
    + now injection H as <- _ _.
    + destruct (filter truthy (_dedent ls)) eqn:E.
      * vm_compute in H. discriminate.
      * bind_inv H. now injection H as <- _ _.
Qed.

(** ** One turn of the loop *)

Lemma left_of_shorter (r after : list string) (line : string) :
  left_of r after -> length r < length (line :: after).
Proof. intros H. apply left_of_length in H. simpl. lia. Qed.

(** A turn takes at least one line. *)
Lemma parse_step_progress (st st' : pstate) (line : string) (after : list string) :
  rest st = line :: after -> parse_step st = Ok st' ->
  left_of (rest st') after.
Proof.
  unfold parse_step. intros -> H.
  destruct (_is_section_header line after) eqn:Hh.
  - destruct (Re.matches _directive_regex (_consume_section_header line)).
    + destruct (_consume_to_next_section true _ after) as [ls r] eqn:E.
      injection H as <-. simpl. eapply _consume_to_next_section_left; eauto.
    + destruct (dict_get _ _sections) as [k|]; try discriminate.
      bind_inv H. destruct a as [[ne r] d]. injection H as <-. simpl.
      eapply reducer_left; eauto.
  - destruct (negb (parsed st)).
    + destruct (_consume_contiguous (line :: after)) as [l1 r1] eqn:E1.
      destruct (_consume_empty r1) as [l2 r2] eqn:E2.
      injection H as <-. simpl.
      simpl in E1. rewrite Hh in E1. rewrite andb_true_r in E1.
      destruct (truthy line) eqn:Ht.
      * destruct (_consume_contiguous after) as [l1' r1'] eqn:E1'.
        injection E1 as <- <-. apply _consume_contiguous_split in E1'.
        apply _consume_empty_split in E2.
        subst. exists (l1' ++ l2)%list. now rewrite app_assoc.
      * injection E1 as <- <-. simpl in E2. rewrite Ht in E2.
        destruct (_consume_empty after) as [l2' r2'] eqn:E2'.
        injection E2 as <- <-. apply _consume_empty_split in E2'.
        now exists l2'.
    + destruct (_consume_to_next_section false 0 (line :: after)) as [ls r] eqn:E.
      injection H as <-. simpl.
      unfold _consume_to_next_section in E. simpl in E.
      destruct (truthy line) eqn:Ht.
      * unfold consume_until_break in E; fold consume_until_break in E.
        unfold _is_section_break in E. rewrite Hh in E. simpl in E.
        destruct (consume_until_break false 0 after) as [l2 r2] eqn:E2.
        destruct (_consume_empty r2) as [l3 r3] eqn:E3.
        injection E as _ <-.
        apply consume_until_break_split in E2. apply _consume_empty_split in E3.
        subst. exists (l2 ++ l3)%list. now rewrite app_assoc.
      * destruct (_consume_empty after) as [l1 r1] eqn:E1.
        destruct (consume_until_break false 0 r1) as [l2 r2] eqn:E2.
        destruct (_consume_empty r2) as [l3 r3] eqn:E3.
        injection E as _ <-.
        apply _consume_empty_split in E1, E3. apply consume_until_break_split in E2.
        subst. exists (l1 ++ l2 ++ l3)%list. now rewrite <- !app_assoc.
Qed.

(** Once something is parsed, a turn leaves the description alone. *)
Lemma parse_step_keeps_description (st st' : pstate) :
  parsed st = true -> parse_step st = Ok st' ->
  parsed st' = true /\ description (doc st') = description (doc st).
Proof.
  unfold parse_step. intros Hp H.
  destruct (rest st) as [|line after].
  - injection H as <-. auto.
  - destruct (_is_section_header line after).
    + destruct (Re.matches _directive_regex (_consume_section_header line)).
      * destruct (_consume_to_next_section true _ after) as [ls r].
        injection H as <-. auto.
      * destruct (dict_get _ _sections) as [k|]; try discriminate.
        bind_inv H. destruct a as [[ne r] d]. injection H as <-. simpl.
        rewrite Hp. split; auto. eapply reducer_left; eauto.
    + rewrite Hp in H. simpl negb in H. cbv iota in H.
      destruct (_consume_to_next_section false 0 (line :: after)) as [ls r].
      injection H as <-. auto.
Qed.

Lemma parse_loop_keeps_description (fuel : nat) :
  forall st st' : pstate,
    parsed st = true -> parse_loop fuel st = Ok st' ->
    description (doc st') = description (doc st).
Proof.
  induction fuel as [|fuel IH]; intros st st' Hp H; simpl in H.
  - destruct (rest st); try discriminate. now injection H as <-.
  - destruct (rest st) eqn:E.
    + now injection H as <-.
    + bind_inv H. destruct (parse_step_keeps_description _ _ Hp Ha) as [Hp' Hd].
      rewrite <- Hd. now apply IH.
Qed.

(** ** The loop *)

Lemma all_headers_left (p : string -> bool) (r l : list string) :
  left_of r l -> all_headers p l = true -> all_headers p r = true.
Proof.
  intros [taken ->]. induction taken as [|x taken IH]; simpl; auto.
  intros H. apply andb_true_iff in H. now apply IH.
Qed.

(** The loop ends before its fuel does when every turn succeeds: [inv]
    is a property of the state that the turns keep. *)
Lemma parse_loop_ok (inv : pstate -> Prop) :
  (forall st line after,
      inv st -> rest st = line :: after ->
      exists st', parse_step st = Ok st' /\ inv st') ->
  forall (fuel : nat) (st : pstate),
    inv st -> length (rest st) <= fuel ->
    exists st', parse_loop fuel st = Ok st' /\ inv st' /\ rest st' = [].
Proof.
  intros Hstep. induction fuel as [|fuel IH]; intros st Hi Hlen.
  - destruct (rest st) eqn:E; [|simpl in Hlen; lia].
    exists st. simpl. rewrite E. auto.
  - simpl. destruct (rest st) as [|line after] eqn:E.
    + exists st. auto.
    + destruct (Hstep st line after Hi E) as (st1 & H1 & Hi1).
      rewrite H1. simpl. apply IH; auto.
      pose proof (parse_step_progress _ _ _ _ E H1) as Hl.
      apply left_of_length in Hl. simpl in Hlen. lia.
Qed.

Lemma fill_subsections_no_fuel (l : list string) :
  forall acc : list (string * string), fill_subsections l acc <> Fuel.
Proof.
  induction l as [|x l IH]; intros acc; simpl; try discriminate.
  destruct (split_char ":" (Some 1) x) as [|a [|b [|c t]]]; try discriminate.
  apply IH.
Qed.

(** A turn never runs out of fuel. *)
Lemma parse_step_no_fuel (st : pstate) : parse_step st <> Fuel.
Proof.
  unfold parse_step. destruct (rest st) as [|line after]; try discriminate.
  destruct (_is_section_header line after).
  - destruct (Re.matches _directive_regex _).
    + destruct (_consume_to_next_section true _ after). discriminate.
    + destruct (dict_get _ _sections) as [k|]; try discriminate.
      set (sec := _consume_section_header line).
      set (si := _get_current_indent 0 after).
      assert (Hr : reducer k sec si after (doc st) <> Fuel).
      { destruct k; simpl;
          unfold _parse_parameters_section, _parse_attributes_section,
            _parse_examples_section, _parse_keyword_arguments_section,
            _parse_methods_section, _parse_other_parameters_section,
            _parse_schemas_section, _parse_map_section, _parse_tags_section,
            _parse_requests_section, _parse_responses_section,
            _parse_returns_section;
          try (destruct (body true si after) as [ls r0]; try destruct ls; discriminate);
          try (match goal with
               | |- context [_consume_fields ?b ?s ?pt ?pf ?r] =>
                   destruct (_consume_fields_ok b s pt pf r) as (fs & r0 & E & _);
                   rewrite E; simpl; try destruct (parameters (doc st)); discriminate
               end).
        - destruct (_consume_to_next_section true si after) as [ls r0].
          destruct (is_see _); try discriminate.
          pose proof (fill_subsections_no_fuel
                        (join_loop (filter truthy (_dedent ls)) EmptyString []) []) as Hf.
          unfold _join_subsection.
          destruct (fill_subsections _ _); simpl; try discriminate. congruence.
        - destruct (_consume_to_next_section true si after) as [ls r0].
          destruct (is_see _); discriminate. }
      destruct (reducer k sec si after (doc st)) as [[[ne r] d]| |];
        simpl; try discriminate. congruence.
  - destruct (negb (parsed st)).
    + destruct (_consume_contiguous _) as [l1 r1]. destruct (_consume_empty r1).
      discriminate.
    + destruct (_consume_to_next_section false 0 _). discriminate.
Qed.

Lemma parse_loop_no_fuel (fuel : nat) :
  forall st : pstate, length (rest st) <= fuel -> parse_loop fuel st <> Fuel.
Proof.
  induction fuel as [|fuel IH]; intros st Hlen; simpl.
  - destruct (rest st) eqn:E; [discriminate | simpl in Hlen; lia].
  - destruct (rest st) as [|line after] eqn:E; try discriminate.
    destruct (parse_step st) as [st1| |] eqn:H1; simpl; try discriminate.
    + apply IH. pose proof (parse_step_progress _ _ _ _ E H1) as Hl.
      apply left_of_length in Hl. simpl in Hlen. lia.
    + now apply parse_step_no_fuel in H1.
Qed.

(** The fuel of the model is enough: the parser returns an object or
    raises. *)
Lemma of_lines_no_fuel (lines : list string) : of_lines lines <> Fuel.
Proof.
  unfold of_lines, _parse.
  destruct (_consume_empty _) as [e r].
  destruct (parse_loop (length r) _) as [st| |] eqn:E; simpl; try discriminate.
  now apply parse_loop_no_fuel in E.
Qed.

(** ** A header selects a reducer *)

Lemma map_str_app (f : ascii -> ascii) (a b : string) :
  map_str f (a ++ b) = map_str f a ++ map_str f b.
Proof. induction a as [|c a IH]; simpl; auto. now rewrite IH. Qed.

Lemma map_str_rev (f : ascii -> ascii) (s : string) :
  map_str f (rev_str s) = rev_str (map_str f s).
Proof. induction s as [|c s IH]; simpl; auto. now rewrite map_str_app, IH. Qed.

Lemma lstrip_by_map (p : ascii -> bool) (f : ascii -> ascii) (s : string) :
  (forall c, p (f c) = p c) ->
  lstrip_by p (map_str f s) = map_str f (lstrip_by p s).
Proof.
  intros Hp. induction s as [|c s IH]; simpl; auto.
  rewrite Hp. destruct (p c); auto.
Qed.

Lemma strip_by_map (p : ascii -> bool) (f : ascii -> ascii) (s : string) :
  (forall c, p (f c) = p c) ->
  strip_by p (map_str f s) = map_str f (strip_by p s).
Proof.
  intros Hp. unfold strip_by, rstrip_by.
  now rewrite lstrip_by_map, <- map_str_rev, lstrip_by_map, map_str_rev.
Qed.

(** Lower-casing makes no space and no colon, and unmakes none. *)
Lemma lower_char_keeps (chars : string) (c : ascii) :
  chars = " " \/ chars = ":" ->
  mem_char (lower_char c) chars = mem_char c chars.
Proof.
  intros [-> | ->];
    destruct c as [[] [] [] [] [] [] [] []]; vm_compute; reflexivity.
Qed.

Lemma lower_strip_header (line : string) :
  lower (strip_chars ":" (strip_chars " " line))
  = strip_chars ":" (strip_chars " " (lower line)).
Proof.
  unfold lower, strip_chars.
  rewrite !strip_by_map; auto; intros c; apply lower_char_keeps; auto.
Qed.

(** What [_is_section_header] takes for a header is in the table that
    [_parse] looks the reducer up in: no [KeyError] there. *)
Lemma header_kind_defined (line : string) (after : list string) :
  _is_section_header line after = true -> exists k, header_kind line = Some k.
Proof.
  unfold _is_section_header, header_kind, _consume_section_header.
  rewrite lower_strip_header.
  destruct (Re.matches _google_section_regex _); simpl; try discriminate.
  destruct (dict_has _ _sections) eqn:E; simpl; try discriminate.
  intros _. unfold dict_has in E. rewrite lower_strip_header.
  destruct (dict_get _ _sections) as [k|]; try discriminate. eauto.
Qed.

Lemma parse_step_plain (st : pstate) (line : string) (after : list string) :
  plain_headers (rest st) = true -> rest st = line :: after ->
  exists st', parse_step st = Ok st' /\ plain_headers (rest st') = true.
Proof.
  intros Hp E.
  assert (Hok : exists st', parse_step st = Ok st').
  { unfold parse_step. rewrite E. rewrite E in Hp.
    unfold plain_headers in Hp. simpl in Hp. apply andb_true_iff in Hp.
    destruct Hp as [Hl _].
    destruct (_is_section_header line after).
    - unfold plain_header, is_directive, header_kind in Hl.
      destruct (Re.matches _directive_regex (_consume_section_header line)).
      + destruct (_consume_to_next_section true _ after). eauto.
      + simpl in Hl. destruct (dict_get _ _sections) as [k|]; try discriminate.
        destruct (reducer_plain k (_consume_section_header line)
                                (_get_current_indent 0 after) after (doc st) Hl)
          as [[[ne r] d] Hr].
        rewrite Hr. simpl. eauto.
    - destruct (negb (parsed st)).
      + destruct (_consume_contiguous _) as [l1 r1]. destruct (_consume_empty r1). eauto.
      + destruct (_consume_to_next_section false 0 _). eauto. }
  destruct Hok as [st' H]. exists st'. split; auto.
  pose proof (parse_step_progress _ _ _ _ E H) as Hl.
  eapply all_headers_left; [apply left_of_cons; exact Hl|].
  rewrite <- E. exact Hp.
Qed.

(** ** Texts without header *)

Lemma take_drop_while (p : string -> bool) (l : list string) :
  l = (take_while p l ++ drop_while p l)%list.
Proof.
  induction l as [|x l IH]; simpl; auto.
  destruct (p x); simpl; auto. now rewrite <- IH.
Qed.

Lemma drop_while_length (p : string -> bool) (l : list string) :
  length (drop_while p l) <= length l.
Proof. induction l as [|x l IH]; simpl; auto. destruct (p x); simpl; lia. Qed.

Lemma _consume_empty_spec (l : list string) :
  _consume_empty l = (take_while blank l, drop_while blank l).
Proof.
  induction l as [|x l IH]; simpl; auto.
  unfold blank at 1 3. destruct (truthy x); simpl; auto. now rewrite IH.
Qed.

Lemma _consume_contiguous_spec (l : list string) :
  no_headers l = true ->
  _consume_contiguous l = (take_while truthy l, drop_while truthy l).
Proof.
  unfold no_headers. induction l as [|x l IH]; simpl; auto.
  intros H. apply andb_true_iff in H. destruct H as [Hx Hl].
  destruct (_is_section_header x l); try discriminate.
  rewrite andb_true_r. destruct (truthy x); auto. now rewrite IH.
Qed.

Lemma parse_step_no_headers (st : pstate) (line : string) (after : list string) :
  no_headers (rest st) = true -> parsed st = true -> rest st = line :: after ->
  exists st', parse_step st = Ok st'
              /\ no_headers (rest st') = true /\ parsed st' = true /\ doc st' = doc st.
Proof.
  intros Hn Hp E.
  assert (Hok : exists st', parse_step st = Ok st' /\ parsed st' = true
                            /\ doc st' = doc st).
  { unfold parse_step. rewrite E. rewrite E in Hn.
    unfold no_headers in Hn. simpl in Hn. apply andb_true_iff in Hn.
    destruct Hn as [Hl _].
    destruct (_is_section_header line after); try discriminate.
    rewrite Hp. simpl negb. cbv iota.
    destruct (_consume_to_next_section false 0 _). eauto. }
  destruct Hok as (st' & H & Hp' & Hd). exists st'. repeat split; auto.
  pose proof (parse_step_progress _ _ _ _ E H) as Hl.
  eapply all_headers_left; [apply left_of_cons; exact Hl|].
  rewrite <- E. exact Hn.
Qed.

Lemma parse_loop_no_headers (st : pstate) :
  no_headers (rest st) = true -> parsed st = true ->
  exists st', parse_loop (length (rest st)) st = Ok st' /\ doc st' = doc st.
Proof.
  intros Hn Hp.
  destruct (parse_loop_ok
              (fun s => no_headers (rest s) = true /\ parsed s = true /\ doc s = doc st))
    with (fuel := length (rest st)) (st := st) as (st' & H & (_ & _ & Hd) & _); auto.
  - intros s line after (H1 & H2 & H3) E.
    destruct (parse_step_no_headers s line after H1 H2 E) as (s' & Hs & Hn' & Hp' & Hd').
    exists s'. repeat split; auto. congruence.
  - eauto.
Qed.

End DocstringFacts.

(* ================================================================== *)
(** * The section parser: description, sections, failures *)
(* ================================================================== *)

Section ParserClaims.
Import PyStr Docstring DocstringSpec DocstringFacts DocstringScenario.

#[local] Arguments dict_get : simpl never.
#[local] Arguments Re.matches : simpl never.




(** C5, as stated, fails: two paragraphs without header give the first
    paragraph and a space, not the full stripped text; and a text that
    starts with a blank line gives no description at all. *)
Lemma c5_full_text_counterexample :
  (no_headers (List.map rstrip (splitlines two_paragraphs)) = true
   /\ exists d, of_string two_paragraphs = Ok d
                /\ description d = Some "Create a session. "
                /\ description d <> Some (strip two_paragraphs))
  /\ (no_headers (List.map rstrip (splitlines after_blank_line)) = true
      /\ exists d, of_string after_blank_line = Ok d /\ description d = None).
Proof.
  split; split; try (vm_compute; reflexivity).
  - eexists. split; [vm_compute; reflexivity|].
    split; [vm_compute; reflexivity | vm_compute; discriminate].
  - eexists. split; vm_compute; reflexivity.
Qed.

(** C5, amended. For every docstring without section header the parser
    returns an object on which no section attribute is present; when the
    first line is not blank the description is the first block of lines
    with the blank lines that follow it, each stripped on the left and
    joined by single spaces; when the docstring is empty or starts with a
    blank line there is no description. *)
Theorem c5_no_header_description :
  forall lines : list string,
    no_headers (List.map rstrip lines) = true ->
    exists d,
      of_lines lines = Ok d
      /\ no_section d
      /\ description d
         = match List.map rstrip lines with
           | [] => None
           | line :: _ =>
               if truthy line then Some (first_block (List.map rstrip lines)) else None
           end.
Proof.
  intros lines. unfold of_lines, _parse.
  generalize (List.map rstrip lines). clear lines. intros ls Hn.
  rewrite _consume_empty_spec.
  destruct ls as [|line after].
  - simpl. exists empty_doc. repeat split; reflexivity.
  - destruct (truthy line) eqn:Ht.
    + (* the first turn sets the description *)
      assert (Hb : blank line = false) by (unfold blank; now rewrite Ht).
      simpl take_while. simpl drop_while. rewrite Hb. simpl nonnil.
      simpl length. simpl parse_loop.
      unfold parse_step at 1. simpl rest.
      pose proof Hn as Hn'. unfold no_headers in Hn'. simpl in Hn'.
      apply andb_true_iff in Hn'. destruct Hn' as [Hl Hafter].
      destruct (_is_section_header line after) eqn:Hh; [discriminate|].
      simpl negb. cbv iota.
      rewrite (_consume_contiguous_spec _ Hn), _consume_empty_spec.
      cbv beta iota zeta. simpl bind.
      set (st1 := mkState _ _ _).
      assert (Hp1 : parsed st1 = true).
      { unfold st1. simpl. now rewrite Ht. }
      assert (Hn1 : no_headers (rest st1) = true).
      { unfold st1. simpl rest.
        eapply all_headers_left; [|exact Hn].
        exists (take_while truthy (line :: after)
                ++ take_while blank (drop_while truthy (line :: after)))%list.
        rewrite <- app_assoc.
        rewrite <- take_drop_while. apply take_drop_while. }
      destruct (parse_loop_no_headers st1 Hn1 Hp1) as (st' & Hloop & Hd).
      assert (Hfuel : exists st'', parse_loop (length after) st1 = Ok st''
                                   /\ doc st'' = doc st1).
      { destruct (parse_loop_ok
                    (fun s => no_headers (rest s) = true /\ parsed s = true
                              /\ doc s = doc st1))
          with (fuel := length after) (st := st1) as (s2 & H2 & (_ & _ & Hd2) & _); auto.
        - intros s l a (H1 & H2 & H3) E.
          destruct (parse_step_no_headers s l a H1 H2 E) as (s' & Hs & Hn' & Hp' & Hd').
          exists s'. repeat split; auto. congruence.
        - unfold st1. simpl rest.
          simpl drop_while. rewrite Ht.
          etransitivity; [apply drop_while_length | apply drop_while_length].
        - eauto. }
      destruct Hfuel as (st'' & Hloop' & Hd').
      rewrite Hloop'. simpl. exists (doc st''). rewrite Hd'. unfold st1. simpl.
      split; [reflexivity|]. split; [repeat split; reflexivity|].
      unfold first_block. simpl. now rewrite Ht.
    + (* a blank first line: nothing sets the description *)
      assert (Hb : blank line = true) by (unfold blank; now rewrite Ht).
      simpl take_while. simpl drop_while. rewrite Hb. simpl nonnil.
      set (st0 := mkState _ _ _).
      assert (Hn0 : no_headers (rest st0) = true).
      { unfold st0. simpl rest. eapply all_headers_left; [|exact Hn].
        exists (line :: take_while blank after).
        simpl. f_equal. apply take_drop_while. }
      destruct (parse_loop_no_headers st0 Hn0 eq_refl) as (st' & Hloop & Hd).
      unfold st0 in Hloop at 1. simpl rest in Hloop. fold st0 in Hloop.
      rewrite Hloop. simpl. exists (doc st'). rewrite Hd. unfold st0. simpl.
      repeat split; reflexivity.
Qed.

Lemma c5_no_header_description_witness :
  exists d,
    of_lines ["Create a session."; ""; "The session is kept."] = Ok d
    /\ no_section d
    /\ description d = Some "Create a session. ".
Proof.
  apply (c5_no_header_description ["Create a session."; ""; "The session is kept."]).
  vm_compute. reflexivity.
Defined.




End ParserClaims.

(* ================================================================== *)
(** * The path synthesizer: a body under GET *)
(* ================================================================== *)

Section PathClaims.
Import PyStr Parser PathScenario ResolverFacts.

Variable infer_request_schema : pyobj -> result (option json).
Variable get_request_params : list string -> result (list json).
Variable get_request_body : list string -> pyobj -> option pyobj -> result json.
Variable content_type : reqval -> result string.
Variable generate_responses : pyobj -> string -> string -> result json.
Variable error_text : exn -> string.

Let before_body_of :=
  specs_before_body infer_request_schema get_request_params.
Let specs :=
  get_specs_for_path infer_request_schema get_request_params get_request_body
                     content_type generate_responses error_text.
Let paths_of :=
  make_paths infer_request_schema get_request_params get_request_body
             content_type generate_responses error_text.

(** The request [get_specs_for_path] works on is the one of the
    docstring. *)
Lemma before_body_request (st : interp) (name : string) (method_func : pyobj)
      (method : string) (gen_opid : bool) (opid_template : string) (b : before_body) :
  before_body_of st name method_func method gen_opid opid_template = Ok b ->
  get_requests method_func = Ok (bb_request b).
Proof.
  unfold before_body_of, specs_before_body. intros H.
  repeat (bind_inv H;
          repeat match goal with
                 | x : (_ * _)%type |- _ => destruct x
                 end).
  injection H as <-. simpl.
  match goal with
  | E : get_requests _ = Ok _ |- _ => exact E
  end.
Qed.

Lemma body_under_get (st : interp) (name rule : string) (method_func : pyobj)
      (method : string) (gen_opid : bool) (opid_template : string)
      (request : list (string * reqval)) :
  get_requests method_func = Ok request ->
  dict_has "body" request = true ->
  lower method = "get" ->
  is_ok (before_body_of st name method_func method gen_opid opid_template) = true ->
  specs st name rule method_func method gen_opid opid_template
  = Ok (Models.JDict [], Some (rule, "Request body cannot be in GET")).
Proof.
  intros Hr Hb Hm Hok. unfold specs, get_specs_for_path.
  fold before_body_of.
  destruct (before_body_of st name method_func method gen_opid opid_template)
    as [b| |] eqn:E; try discriminate.
  apply before_body_request in E. rewrite Hr in E. injection E as E.
  simpl. unfold request_body. rewrite <- E.
  unfold dict_has in Hb. destruct (dict_get "body" request); try discriminate.
  rewrite Hm. reflexivity.
Qed.

Lemma one_get_rule (st : interp) (r : url_rule) (gen_opid : bool)
      (opid_template : string) (e : string * string) :
  methods r = ["GET"] ->
  dict_get "view_class" (attrs (endpoint r)) = None ->
  kind (endpoint r) <> KPartial ->
  specs st (rule_text r) (rule_text r) (endpoint r) "get" gen_opid opid_template
  = Ok (Models.JDict [], Some e) ->
  exists paths newname,
    paths_of st [r] [] gen_opid opid_template ([], [], []) = Ok (paths, [e], [])
    /\ paths = [(newname, [("get", default_response)])].
Proof.
  intros Hm Hv Hk Hs. unfold paths_of, make_paths.
  simpl existsb. cbv iota. rewrite Hm. unfold methods_loop.
  simpl mem_str. cbv iota. rewrite Hv, Hm. simpl mem_str. simpl andb. cbv iota.
  assert (Hp : resolve_partials (endpoint r) = Ok (endpoint r)).
  { destruct (endpoint r) as [k n m q d a]. simpl in Hk.
    destruct k; simpl; congruence. }
  rewrite Hp. simpl bind.
  change (lower "GET") with "get". fold specs. rewrite Hs.
  set (newname := brace_params _ _).
  exists [(newname, [("get", default_response)])], newname.
  split; [|reflexivity].
  unfold record_spec, set_path. simpl.
  rewrite String.eqb_refl. reflexivity.
Qed.


End PathClaims.

Section PathScenarios.
Import PyStr Parser PathScenario.



End PathScenarios.


(* ================================================================== *)
(** * Facts about schema trees *)
(* ================================================================== *)

Module JsonFacts.
Import Models.

(** Induction over a tree: the property holds of the items of a list
    and of the values of a dictionary. *)
Section Induction.

Variable P : json -> Prop.
Hypothesis HNull : P JNull.
Hypothesis HBool : forall b, P (JBool b).
Hypothesis HNum : forall z, P (JNum z).
Hypothesis HStr : forall s, P (JStr s).
Hypothesis HList : forall l, Forall P l -> P (JList l).
Hypothesis HDict : forall d, Forall (fun kv => P (snd kv)) d -> P (JDict d).

Fixpoint json_induction (j : json) : P j :=
  match j with
  | JNull => HNull
  | JBool b => HBool b
  | JNum z => HNum z
  | JStr s => HStr s
  | JList l =>
      HList l ((fix items (l : list json) : Forall P l :=
                  match l with
                  | [] => Forall_nil P
                  | x :: l' => Forall_cons x (json_induction x) (items l')
                  end) l)
  | JDict d =>
      HDict d ((fix values (d : list (key * json)) : Forall (fun kv => P (snd kv)) d :=
                  match d with
                  | [] => Forall_nil _
                  | kv :: d' => Forall_cons kv (json_induction (snd kv)) (values d')
                  end) d)
  end.

End Induction.

End JsonFacts.

(* ================================================================== *)
(** * The definitions of the generated specification *)
(* ================================================================== *)

Module DefinitionsFacts.
Import PyStr Models ModelsFacts JsonFacts Util Openapi OpenapiSpec.

Definition fine (kv : key * json) : bool :=
  negb (stale (fst kv) (snd kv)) && clean (snd kv).

Lemma clean_dict (d : list (key * json)) : clean (JDict d) = forallb fine d.
Proof. reflexivity. Qed.

Lemma forallb_store {P : key * json -> bool} (k : key) (v : json)
      (d : list (key * json)) :
  forallb P d = true -> P (k, v) = true -> forallb P (store k v d) = true.
Proof.
  intros Hd Hv. induction d as [|[k' v'] d IH]; simpl in *.
  - now rewrite Hv.
  - apply andb_true_iff in Hd. destruct Hd as [H1 H2].
    destruct (key_eqb k k'); simpl.
    + now rewrite Hv, H2.
    + now rewrite H1, IH.
Qed.

Lemma forallb_update {P : key * json -> bool} (more popped : list (key * json)) :
  forallb P popped = true -> forallb P more = true ->
  forallb P (update popped more) = true.
Proof.
  unfold update. revert popped.
  induction more as [|[k v] more IH]; simpl; intros popped Hp Hm; auto.
  apply andb_true_iff in Hm. destruct Hm as [H1 H2].
  apply IH; auto. now apply forallb_store.
Qed.

(** The rewritten reference no longer points into [#/definitions/]. *)
Lemma replaced_prefix (s : string) :
  startswith "#/definitions/" s = true ->
  startswith "#/definitions/"
             (replace "#/definitions/" "#/components/schemas/" s) = false.
Proof.
  intros H. unfold replace. destruct s as [|c s]; [discriminate|].
  cbn [String.length replace_aux]. rewrite H. reflexivity.
Qed.

Lemma each_clean (rec : json -> result json) (l l' : list json) :
  Forall (fun x => forall x', rec x = Ok x' -> clean x' = true) l ->
  each rec l = Ok l' -> forallb clean l' = true.
Proof.
  intros Hl. revert l'. induction Hl as [|x l Hx Hl IH]; simpl; intros l' H.
  - now injection H as <-.
  - bind_inv H. bind_inv H. injection H as <-. simpl.
    now rewrite (Hx _ Ha), (IH _ Ha0).
Qed.

Lemma pred_true (k : key) (v : json) :
  pred k v = Ok true ->
  exists s, v = JStr s
            /\ ((k = KS "$ref" /\ startswith "#/definitions/" s = true)
                \/ (key_eqb k (KS "$ref") = false /\ k = KS "type" /\ s = "type")).
Proof.
  unfold pred. intros H.
  destruct (key_eqb k (KS "$ref")) eqn:Eref.
  - apply key_eqb_eq in Eref. destruct v; try discriminate.
    injection H as H. eauto.
  - destruct (key_eqb k (KS "type")) eqn:Etype; [|discriminate].
    apply key_eqb_eq in Etype. destruct v; try discriminate.
    injection H as H. apply String.eqb_eq in H. eauto 6.
Qed.

Lemma pred_false (k : key) (v : json) : pred k v = Ok false -> stale k v = false.
Proof.
  unfold pred, stale. intros H. destruct v; auto.
  destruct (key_eqb k (KS "$ref")) eqn:Eref.
  - apply key_eqb_eq in Eref. subst k.
    destruct (startswith "#/definitions/" s); [discriminate | reflexivity].
  - destruct (key_eqb k (KS "type")); [|reflexivity].
    destruct (String.eqb s "type"); [discriminate | reflexivity].
Qed.

Lemma repl_fine (k : key) (v r : json) :
  pred k v = Ok true -> repl k v = Ok r -> fine (k, r) = true.
Proof.
  intros Hp Hr. apply pred_true in Hp.
  destruct Hp as (s & -> & [[-> Hs] | (Hk & -> & ->)]).
  - unfold repl in Hr. rewrite Hs in Hr. injection Hr as <-.
    unfold fine, stale. simpl fst. simpl snd. cbv iota.
    rewrite (replaced_prefix _ Hs). reflexivity.
  - simpl in Hr. injection Hr as <-. reflexivity.
Qed.

Lemma turn_clean (rec : json -> result json) (k : key) (v v' : json) :
  (forall d x', v = JDict d -> rec v = Ok x' -> fine (k, x') = true) ->
  (forall l, v = JList l ->
             Forall (fun x => forall x', rec x = Ok x' -> clean x' = true) l) ->
  turn pred repl false rec k v = Ok v' -> fine (k, v') = true.
Proof.
  intros Hrec Hlist H. unfold turn in H.
  bind_inv H. rename a into p. bind_inv H. rename a into r.
  rewrite andb_false_r in H.
  destruct p.
  - (* the entry is rewritten: its value is a text *)
    bind_inv Ha0. injection Ha0 as <-.
    pose proof (repl_fine _ _ _ Ha Ha1) as Hf.
    apply pred_true in Ha. destruct Ha as (s & -> & _).
    now injection H as <-.
  - injection Ha0 as <-. apply pred_false in Ha.
    destruct v as [| b | z | s | l | d];
      try (injection H as <-; unfold fine; simpl fst; simpl snd; now rewrite Ha).
    + bind_inv H. injection H as <-. unfold fine. simpl fst. simpl snd.
      simpl clean. now rewrite (each_clean _ _ _ (Hlist l eq_refl) Ha0).
    + eapply Hrec; eauto.
Qed.

Lemma entries_clean (rec : json -> result json) (d d' : list (key * json)) :
  Forall (fun kv =>
            (forall d x', snd kv = JDict d -> rec (snd kv) = Ok x' ->
                          fine (fst kv, x') = true)
            /\ (forall l, snd kv = JList l ->
                          Forall (fun x => forall x', rec x = Ok x' -> clean x' = true) l))
         d ->
  entries pred repl false rec d = Ok d' -> forallb fine d' = true.
Proof.
  intros Hd. revert d'. induction Hd as [|[k v] d [H1 H2] Hd IH]; simpl; intros d' H.
  - now injection H as <-.
  - bind_inv H. bind_inv H. injection H as <-. simpl.
    rewrite (IH _ Ha0).
    now rewrite (turn_clean rec k v a H1 H2 Ha).
Qed.

(** What [recurse_dict] returns for a dictionary is a dictionary, for a
    list a list. *)
Lemma recurse_dict_dict (d : list (key * json)) (x : json) :
  recurse_dict pred repl false (JDict d) = Ok x -> exists e, x = JDict e.
Proof. simpl. intros H. bind_inv H. injection H as <-. eauto. Qed.

(** Cleaning a tree, and the items of a list. *)
Definition cleaned (j : json) : Prop :=
  forall j', recurse_dict pred repl false j = Ok j' -> clean j' = true.

Lemma recurse_dict_cleaned (j : json) :
  cleaned j /\ (forall l, j = JList l -> Forall cleaned l).
Proof.
  induction j using json_induction;
    try (split; [intros j' Hr; injection Hr as <-; reflexivity | discriminate]).
  - (* a list *)
    assert (Hl : Forall cleaned l).
    { induction H as [|x l [Hx _] Hl IH]; constructor; auto. }
    split; [|intros l' E; now injection E as <-].
    intros j' Hr. simpl in Hr. bind_inv Hr. injection Hr as <-. simpl.
    eapply each_clean; eauto.
  - (* a dictionary *)
    split; [|discriminate].
    intros j' Hr. simpl in Hr. bind_inv Hr. injection Hr as <-. rewrite clean_dict.
    eapply entries_clean; [|exact Ha].
    clear Ha. induction H as [|[k v] d [Hv Hitems] Hd IH]; constructor; auto.
    simpl fst. simpl snd. simpl in Hv, Hitems. split.
    + intros e x' -> Hx. unfold fine. simpl fst. simpl snd.
      destruct (recurse_dict_dict _ _ Hx) as [e' ->].
      unfold stale. simpl negb. rewrite andb_true_l.
      now apply Hv.
    + intros l ->. now apply Hitems.
Qed.

Lemma recurse_dict_clean (j j' : json) :
  recurse_dict pred repl false j = Ok j' -> clean j' = true.
Proof. apply recurse_dict_cleaned. Qed.

Lemma pop_if_eq (q : key -> list (key * json) -> bool) (d : list (key * json)) :
  pop_if q (JDict d)
  = ('(kept, to_pop, popped) <- sweep q (pop_if q) d [] ;;
     Ok (JDict kept, take_out to_pop popped)).
Proof. reflexivity. Qed.

Lemma pop_if_dict (q : key -> list (key * json) -> bool) (j j' : json)
      (popped : list (key * json)) :
  pop_if q j = Ok (j', popped) -> exists d d', j = JDict d /\ j' = JDict d'.
Proof.
  destruct j; try discriminate. rewrite pop_if_eq. intros H.
  bind_inv H. destruct a as [[kept to_pop] p]. injection H as <- _. eauto.
Qed.

(** [take_out] merges dictionaries whose entries have the property. *)
Lemma take_out_forallb {P : key * json -> bool} (to_pop popped : list (key * json)) :
  forallb P popped = true ->
  Forall (fun kv => forall d, snd kv = JDict d -> forallb P d = true) to_pop ->
  forallb P (take_out to_pop popped) = true.
Proof.
  unfold take_out. intros Hp Ht. revert popped Hp.
  induction Ht as [|[k v] to_pop Hv Ht IH]; simpl; intros popped Hp; auto.
  apply IH. destruct v; auto. apply forallb_update; auto.
Qed.

(** *** Popping keeps a clean tree clean *)

Definition pops_clean (q : key -> list (key * json) -> bool) (j : json) : Prop :=
  clean j = true ->
  forall j' popped, pop_if q j = Ok (j', popped) ->
                    clean j' = true /\ forallb fine popped = true.

Lemma sweep_clean (q : key -> list (key * json) -> bool)
      (pop : json -> result (json * list (key * json))) (d : list (key * json)) :
  Forall (fun kv =>
            clean (snd kv) = true ->
            forall v' more, pop (snd kv) = Ok (v', more) ->
                            (exists e, v' = JDict e) /\ clean v' = true
                            /\ forallb fine more = true) d ->
  forallb fine d = true ->
  forall popped kept to_pop popped',
    forallb fine popped = true ->
    sweep q pop d popped = Ok (kept, to_pop, popped') ->
    forallb fine kept = true
    /\ Forall (fun kv => forall e, snd kv = JDict e -> forallb fine e = true) to_pop
    /\ forallb fine popped' = true.
Proof.
  intros Hd. induction Hd as [|[k v] d Hv Hd IH]; simpl;
    intros Hf popped kept to_pop popped' Hp H.
  - injection H as <- <- <-. auto.
  - apply andb_true_iff in Hf. destruct Hf as [Hkv Hf].
    unfold fine in Hkv. simpl fst in Hkv. simpl snd in Hkv.
    apply andb_true_iff in Hkv. destruct Hkv as [Hs Hc].
    simpl snd in Hv. specialize (Hv Hc).
    destruct v as [| b | z | s | l | dv];
      try (bind_inv H; destruct a as [[kept0 to_pop0] popped0];
           injection H as <- <- <-;
           destruct (IH Hf _ _ _ _ Hp Ha) as (H1 & H2 & H3);
           repeat split; auto; simpl; rewrite H1;
           unfold fine; simpl fst; simpl snd; now rewrite Hs, Hc).
    bind_inv H. destruct a as [v' more].
    destruct (Hv _ _ Ha) as ([e ->] & Hc' & Hm).
    bind_inv H. destruct a as [[kept0 to_pop0] popped0].
    destruct (IH Hf _ _ _ _ (forallb_update _ _ Hp Hm) Ha0) as (H1 & H2 & H3).
    destruct (q k dv); injection H as <- <- <-; repeat split; auto.
    + constructor; auto. simpl. intros e' E. injection E as <-. exact Hc'.
    + simpl. rewrite H1. unfold fine at 1. simpl fst. simpl snd.
      now rewrite Hc'.
Qed.

Lemma pop_if_clean (q : key -> list (key * json) -> bool) (j : json) : pops_clean q j.
Proof.
  induction j using json_induction; intros Hc j' popped Hp; try discriminate.
  rewrite pop_if_eq in Hp. bind_inv Hp. destruct a as [[kept to_pop] p].
  injection Hp as <- <-.
  destruct (sweep_clean q (pop_if q) d) with (popped := @nil (key * json))
    (kept := kept) (to_pop := to_pop) (popped' := p) as (H1 & H2 & H3); auto.
  - clear Ha Hc. induction H as [|[k v] d Hv Hd IH]; constructor; auto.
    simpl snd. intros Hcv v' more Hpop.
    destruct (Hv Hcv _ _ Hpop) as [Hc' Hm].
    destruct (pop_if_dict _ _ _ _ Hpop) as (e & e' & _ & ->). eauto.
  - split; [exact H1|]. now apply take_out_forallb.
Qed.

(** *** Popping leaves no dictionary of definitions *)

Definition plain (kv : key * json) : bool :=
  negb (is_definitions (fst kv) (snd kv)) && extracted (snd kv).

Lemma extracted_dict (d : list (key * json)) : extracted (JDict d) = forallb plain d.
Proof. reflexivity. Qed.

Lemma sweep_extracted (pop : json -> result (json * list (key * json)))
      (d : list (key * json)) :
  Forall (fun kv =>
            forall v' more, pop (snd kv) = Ok (v', more) ->
                            (exists e, v' = JDict e) /\ extracted v' = true
                            /\ forallb plain more = true) d ->
  forall popped kept to_pop popped',
    forallb plain popped = true ->
    sweep pop_pred pop d popped = Ok (kept, to_pop, popped') ->
    forallb plain kept = true
    /\ Forall (fun kv => forall e, snd kv = JDict e -> forallb plain e = true) to_pop
    /\ forallb plain popped' = true.
Proof.
  intros Hd. induction Hd as [|[k v] d Hv Hd IH]; simpl;
    intros popped kept to_pop popped' Hp H.
  - injection H as <- <- <-. auto.
  - simpl snd in Hv.
    destruct v as [| b | z | s | l | dv];
      try (bind_inv H; destruct a as [[kept0 to_pop0] popped0];
           injection H as <- <- <-;
           destruct (IH _ _ _ _ Hp Ha) as (H1 & H2 & H3);
           repeat split; auto; simpl; rewrite H1;
           unfold plain, is_definitions; simpl fst; simpl snd;
           now rewrite andb_false_r).
    bind_inv H. destruct a as [v' more].
    destruct (Hv _ _ Ha) as ([e ->] & Hc' & Hm).
    bind_inv H. destruct a as [[kept0 to_pop0] popped0].
    destruct (IH _ _ _ _ (forallb_update _ _ Hp Hm) Ha0) as (H1 & H2 & H3).
    unfold pop_pred in H.
    destruct (key_eqb k (KS "definitions")) eqn:Ek;
      injection H as <- <- <-; repeat split; auto.
    + constructor; auto. simpl. intros e' E. injection E as <-. exact Hc'.
    + simpl. rewrite H1. unfold plain at 1, is_definitions. simpl fst. simpl snd.
      now rewrite Ek, Hc'.
Qed.

Lemma pop_if_extracted (j : json) :
  forall j' popped, pop_if pop_pred j = Ok (j', popped) ->
                    extracted j' = true /\ forallb plain popped = true.
Proof.
  induction j using json_induction; intros j' popped Hp; try discriminate.
  rewrite pop_if_eq in Hp. bind_inv Hp. destruct a as [[kept to_pop] p].
  injection Hp as <- <-.
  destruct (sweep_extracted (pop_if pop_pred) d) with (popped := @nil (key * json))
    (kept := kept) (to_pop := to_pop) (popped' := p) as (H1 & H2 & H3); auto.
  - clear Ha. induction H as [|[k v] d Hv Hd IH]; constructor; auto.
    simpl snd. intros v' more Hpop.
    destruct (Hv _ _ Hpop) as [Hc' Hm].
    destruct (pop_if_dict _ _ _ _ Hpop) as (e & e' & _ & ->). eauto.
  - split; [exact H1|]. now apply take_out_forallb.
Qed.

End DefinitionsFacts.

Section DefinitionsProperties.
Import Models Util Openapi OpenapiSpec DefinitionsFacts OpenapiScenario.

(** X1. What [extract_definitions(paths, missing)] returns and what it
    leaves of [paths] hold no entry [$ref] whose text starts with
    [#/definitions/] and no entry [type: type], at any depth, through
    dictionaries and lists. *)
Theorem extract_definitions_rewrites_references :
  forall (paths : json) (missing : list (string * json)) (paths' : json)
         (definitions : list (key * json)),
    extract_definitions paths missing = Ok (paths', definitions) ->
    clean paths' = true /\ clean (JDict definitions) = true.
Proof.
  intros paths missing paths' definitions H. unfold extract_definitions in H.
  bind_inv H. rename a into p1. bind_inv H. destruct a as [p2 d1].
  bind_inv H. rename a into d2. bind_inv H. destruct a as [d3 more].
  destruct d3 as [| | | | |d3]; try discriminate. injection H as <- <-.
  apply recurse_dict_clean in Ha.
  destruct (pop_if_clean _ _ Ha _ _ Ha0) as [Hp2 _].
  apply recurse_dict_clean in Ha1.
  destruct (pop_if_clean _ _ Ha1 _ _ Ha2) as [Hd3 Hmore].
  split; [exact Hp2|]. rewrite clean_dict. rewrite clean_dict in Hd3.
  now apply forallb_update.
Qed.

Lemma extract_definitions_rewrites_references_witness :
  clean (paths_of (body_schema "#/components/schemas/Task" [])) = true
  /\ clean (JDict [(KS "Task", task_model)]) = true.
Proof.
  apply (extract_definitions_rewrites_references task_paths []).
  vm_compute. reflexivity.
Defined.

(** X2. What [extract_definitions(paths, missing)] returns and what it
    leaves of [paths] hold no dictionary under a key [definitions], along
    their dictionaries: every such dictionary was taken out and its
    entries merged into what is returned.  (The lists of the tree are not
    entered.) *)
Theorem extract_definitions_takes_definitions_out :
  forall (paths : json) (missing : list (string * json)) (paths' : json)
         (definitions : list (key * json)),
    extract_definitions paths missing = Ok (paths', definitions) ->
    extracted paths' = true /\ extracted (JDict definitions) = true.
Proof.
  intros paths missing paths' definitions H. unfold extract_definitions in H.
  bind_inv H. rename a into p1. bind_inv H. destruct a as [p2 d1].
  bind_inv H. rename a into d2. bind_inv H. destruct a as [d3 more].
  destruct d3 as [| | | | |d3]; try discriminate. injection H as <- <-.
  destruct (pop_if_extracted _ _ _ Ha0) as [Hp2 _].
  destruct (pop_if_extracted _ _ _ Ha2) as [Hd3 Hmore].
  split; [exact Hp2|]. rewrite extracted_dict. rewrite extracted_dict in Hd3.
  now apply forallb_update.
Qed.

Lemma extract_definitions_takes_definitions_out_witness :
  extracted (paths_of (body_schema "#/components/schemas/Task" [])) = true
  /\ extracted (JDict [(KS "Task", task_model)]) = true.
Proof.
  apply (extract_definitions_takes_definitions_out task_paths []).
  vm_compute. reflexivity.
Defined.

End DefinitionsProperties.

(* ================================================================== *)
(** * Response schemas *)
(* ================================================================== *)

Module SchemasFacts.
Import PyStr Models ModelsFacts JsonFacts Schemas OpenapiSpec.

Definition lacks (key_ sub : string) (kv : key * json) : bool :=
  negb (key_eqb (fst kv) (KS key_)
        && match snd kv with JStr s => String.eqb s sub | _ => false end)
  && without key_ sub (snd kv).

Lemma without_dict (key_ sub : string) (d : list (key * json)) :
  without key_ sub (JDict d) = forallb (lacks key_ sub) d.
Proof. reflexivity. Qed.

Lemma recurse_dict_eq (key_ sub repl : string) (d : list (key * json)) :
  recurse_dict key_ sub repl (JDict d)
  = (d' <- entries key_ sub repl (recurse_dict key_ sub repl) d ;; Ok (JDict d')).
Proof. reflexivity. Qed.

Lemma recurse_dict_without (key_ sub repl : string) (j : json) :
  String.eqb repl sub = false ->
  forall j', recurse_dict key_ sub repl j = Ok j' -> without key_ sub j' = true.
Proof.
  intros Hne. induction j using json_induction; intros j' Hr; try discriminate.
  rewrite recurse_dict_eq in Hr. bind_inv Hr. injection Hr as <-.
  rewrite without_dict. revert a Ha.
  induction H as [|[k v] d Hv Hd IH]; simpl; intros d' Hd'.
  - now injection Hd' as <-.
  - bind_inv Hd'. bind_inv Hd'. injection Hd' as <-. simpl.
    rewrite (IH _ Ha0). rewrite andb_true_r.
    unfold turn in Ha. unfold lacks. simpl fst. simpl snd. simpl in Hv.
    destruct v as [| b | z | s | l | dv];
      try (injection Ha as <-;
           destruct (key_eqb k (KS key_)); simpl; reflexivity).
    + injection Ha as <-.
      destruct (key_eqb k (KS key_)) eqn:Ek; simpl.
      * destruct (String.eqb s sub) eqn:Es; simpl.
        -- now rewrite Hne.
        -- now rewrite Es.
      * reflexivity.
    + rewrite (Hv _ Ha). rewrite andb_true_r.
      rewrite recurse_dict_eq in Ha. bind_inv Ha. injection Ha as <-.
      now rewrite andb_false_r.
Qed.

(** The values of a dictionary without the entry are without it. *)
Lemma without_lookup (key_ sub : string) (d : list (key * json)) (k : key) (x : json) :
  without key_ sub (JDict d) = true -> lookup k d = Some x ->
  without key_ sub x = true.
Proof.
  rewrite without_dict. induction d as [|[k' v] d IH]; simpl; intros Hw Hl.
  - discriminate.
  - apply andb_true_iff in Hw. destruct Hw as [H1 H2].
    destruct (key_eqb k k').
    + injection Hl as <-. unfold lacks in H1. simpl snd in H1.
      now apply andb_true_iff in H1.
    + auto.
Qed.

Lemma getitem_dict (v x : json) (k : string) :
  getitem v (KS k) = Ok x -> exists d, v = JDict d /\ lookup (KS k) d = Some x.
Proof.
  destruct v; simpl; intros H; try discriminate.
  destruct (lookup (KS k) d) eqn:E; try discriminate. injection H as <-. eauto.
Qed.

Lemma content_json_without (sub : string) (spec c : json) :
  without "format" sub spec = true -> content_json spec = Ok c ->
  exists s, c = one "application/json" (one "schema" s)
            /\ without "format" sub s = true.
Proof.
  intros Hw H. unfold content_json in H. bind_inv H. bind_inv H.
  destruct a0.
  - bind_inv H. rename a0 into title. bind_inv H. rename a0 into props.
    bind_inv H. rename a0 into inner. bind_inv H. injection H as <-.
    eexists. split; [reflexivity|].
    apply getitem_dict in Ha1. destruct Ha1 as (d & -> & Ht).
    apply getitem_dict in Ha2. destruct Ha2 as (d0 & E & Hp). injection E as <-.
    apply getitem_dict in Ha3. destruct Ha3 as (dp & -> & Hi).
    pose proof (without_lookup _ _ _ _ _ Hw Ht) as Wt.
    pose proof (without_lookup _ _ _ _ _ Hw Hp) as Wp.
    pose proof (without_lookup _ _ _ _ _ Wp Hi) as Wi.
    destruct inner as [| b | z | s | l | di]; simpl in Ha4; try discriminate.
    injection Ha4 as <-. rewrite without_dict.
    rewrite without_dict in Wi.
    apply DefinitionsFacts.forallb_store; [exact Wi|].
    unfold lacks. simpl fst. simpl snd. now rewrite Wt.
  - injection H as <-. eauto.
Qed.

End SchemasFacts.

Section ResponseProperties.
Import Models Schemas OpenapiSpec SchemasFacts ResponseScenario.

(** X3. [ResponseSchema.schema(spec)] returns for a plain-text response,
    whatever the rest, the content [text/plain] of a string with the
    example when there is one; it returns for no other response unless
    the mimetype is JSON or binary and a schema is at hand, in the
    argument or in the attribute [spec]: for a JSON response without
    schema the fallback raises, for a binary one and for every other
    mimetype the content is left unbound. *)
Theorem schema_returns_only_with_content :
  forall (r : ResponseSchema) (arg : json),
    (mimetype r = text ->
     schema r arg
     = Ok (JDict [(KI (status_code r),
                   JDict [(KS "description", JStr (description r));
                          (KS "content", content_text r)])]))
    /\ (forall v : json,
           schema r arg = Ok v ->
           mimetype r = text
           \/ ((mimetype r = json_ \/ mimetype r = binary)
               /\ (truthy arg = true \/ truthy (spec r) = true))).
Proof.
  intros r arg. split.
  - intros E. unfold schema. rewrite E. reflexivity.
  - intros v H. unfold schema in H.
    destruct (String.eqb (mimetype r) text) eqn:Et.
    + left. now apply String.eqb_eq.
    + right. destruct (String.eqb (mimetype r) json_) eqn:Ej.
      * apply String.eqb_eq in Ej. split; [now left|].
        destruct (truthy arg); [now left|].
        destruct (truthy (spec r)); [now right|].
        vm_compute in H. discriminate.
      * destruct (String.eqb (mimetype r) binary) eqn:Eb; [|discriminate].
        apply String.eqb_eq in Eb. split; [now right|].
        destruct (truthy arg); [now left|].
        destruct (truthy (spec r)); [now right | discriminate].
Qed.

Lemma schema_returns_only_with_content_witness :
  mimetype task_response = text
  \/ ((mimetype task_response = json_ \/ mimetype task_response = binary)
      /\ (truthy JNull = true \/ truthy (spec task_response) = true)).
Proof.
  apply (proj2 (schema_returns_only_with_content task_response JNull)
               (JDict [(KI 200,
                        JDict [(KS "description", JStr "Initiated Task");
                               (KS "content",
                                one "application/json"
                                    (one "schema" (spec task_response)))])])).
  vm_compute. reflexivity.
Defined.

(** X4. For a binary response whose schema has not exactly one property,
    [content_binary] gives the content [application/json] with a schema
    in which no entry [format: binary] is left along the dictionaries:
    each one reads [format: byte]. *)
Theorem content_binary_of_several_properties :
  forall (spec props c : json) (n : nat),
    getitem spec (KS "properties") = Ok props ->
    len props = Ok n -> n <> 1 ->
    content_binary spec = Ok c ->
    exists s, c = one "application/json" (one "schema" s)
              /\ without "format" "binary" s = true.
Proof.
  intros spec props c n Hp Hl Hn H. unfold content_binary in H.
  rewrite Hp in H. cbn [bind] in H. rewrite Hl in H. cbn [bind] in H.
  destruct (n =? 1) eqn:E; [apply Nat.eqb_eq in E; contradiction|].
  bind_inv H.
  apply (recurse_dict_without "format" "binary" "byte") in Ha; [|reflexivity].
  eapply content_json_without; eauto.
Qed.

Lemma content_binary_of_several_properties_witness :
  exists s, one "application/json"
                (JDict [(KS "schema",
                         JDict [(KS "description", JStr "Simple Description");
                                (KS "type", JStr "object");
                                (KS "properties",
                                 JDict [(KS "name", JDict [(KS "type", JStr "string")]);
                                        (KS "stuff",
                                         JDict [(KS "type", JStr "array");
                                                (KS "items",
                                                 JDict [(KS "type", JStr "string")])]);
                                        (KS "file",
                                         JDict [(KS "type", JStr "string");
                                                (KS "format", JStr "byte")])])])])
            = one "application/json" (one "schema" s)
            /\ without "format" "binary" s = true.
Proof.
  eapply (content_binary_of_several_properties upload_schema _ _ 3).
  - vm_compute. reflexivity.
  - vm_compute. reflexivity.
  - discriminate.
  - vm_compute. reflexivity.
Defined.

End ResponseProperties.

(* ================================================================== *)
(** * The other schema hooks *)
(* ================================================================== *)

Module HooksFacts.
Import Models ModelsFacts SchemaHooks.

Lemma mark_required_entry (allow : bool) (t : pytype) (v v' : json) :
  mark_required allow t v = Ok v' ->
  entry "required" v' = Some (JBool (negb allow)).
Proof.
  unfold mark_required. intros H. destruct allow.
  - bind_inv H. bind_inv H. eapply setitem_entry_same; eauto.
  - eapply setitem_entry_same; eauto.
Qed.

Lemma required_sub_fields_entry (walk : ModelField -> json -> bool -> result json)
      (k : string) (fields : list ModelField) (v v' : json) :
  required_sub_fields walk fields v = Ok v' ->
  String.eqb k "additionalProperties" = false -> String.eqb k "anyOf" = false ->
  entry k v' = entry k v.
Proof.
  intros H H1 H2. destruct fields as [|s fields]; unfold required_sub_fields in H.
  - now injection H as <-.
  - bind_inv H. bind_inv H. destruct a0.
    + eapply into_entry_other; eauto.
    + bind_inv H. destruct a0.
      * eapply each_entry_other; eauto.
      * now injection H as <-.
Qed.

Lemma add_required_subroutine_entry (field : ModelField) (v v' : json) :
  add_required_subroutine field v = Ok v' ->
  entry "required" v' = Some (JBool (negb (allow_none field))).
Proof.
  destruct field as [a allow t sub args ret]. simpl allow_none.
  unfold add_required_subroutine; fold add_required_subroutine.
  intros H. bind_inv H.
  rewrite <- (mark_required_entry _ _ _ _ Ha).
  destruct sub as [|l|l]; [now injection H as <- | |];
    eapply required_sub_fields_entry; eauto.
Qed.

Lemma filter_none {A : Type} (l : list A) : filter (fun _ => false) l = [].
Proof. induction l; simpl; auto. Qed.

(** The descriptor of a property: the first field with its alias. *)
Definition field_of (fields : list ModelField) (p : string) : option ModelField :=
  hd_error (filter (fun x => String.eqb (alias x) p) fields).

Definition marked (fields : list ModelField) (p : string) (v : json) : Prop :=
  exists f, field_of fields p = Some f
            /\ entry "required" v = Some (JBool (negb (allow_none f))).

Lemma add_required_loop_marks (fields : list ModelField) (todo : list (key * json)) :
  forall props props' : json,
    add_required_loop fields todo props = Ok props' ->
    forall p : string,
      In (KS p) (List.map fst todo)
      \/ (exists v, entry p props = Some v /\ marked fields p v) ->
      exists v', entry p props' = Some v' /\ marked fields p v'.
Proof.
  induction todo as [|[prop x] todo IH]; simpl; intros props props' H p Hp.
  - injection H as <-. destruct Hp as [[] | Hp]. exact Hp.
  - destruct (filter _ fields) as [|field rest] eqn:Ef; [discriminate|].
    bind_inv H. bind_inv H. bind_inv H.
    apply (IH _ _ H p).
    destruct prop as [q | n]; [|now rewrite filter_none in Ef].
    destruct (String.eqb p q) eqn:Epq.
    + apply String.eqb_eq in Epq. subst q. right. exists a0. split.
      * eapply setitem_entry_same; eauto.
      * exists field. split.
        -- unfold field_of. now rewrite Ef.
        -- eapply add_required_subroutine_entry; eauto.
    + destruct Hp as [[Hp | Hp] | (v & Hv & Hm)].
      * injection Hp as ->. now rewrite String.eqb_refl in Epq.
      * now left.
      * right. exists v. split; auto.
        rewrite <- Hv. eapply setitem_entry_other; eauto.
Qed.

Lemma store_keys (k : key) (v x : json) (d : list (key * json)) :
  lookup k d = Some x -> List.map fst (store k v d) = List.map fst d.
Proof.
  induction d as [|[k' v'] d IH]; simpl; intros H; [discriminate|].
  destruct (key_eqb k k') eqn:E; simpl.
  - apply key_eqb_eq in E. now subst.
  - now rewrite IH.
Qed.

Lemma lookup_in (k : key) (v : json) (d : list (key * json)) :
  lookup k d = Some v -> In k (List.map fst d).
Proof.
  induction d as [|[k' v'] d IH]; simpl; [discriminate|].
  destruct (key_eqb k k') eqn:E; intros H.
  - apply key_eqb_eq in E. now left.
  - right. auto.
Qed.

(** The loop keeps the keys of the properties and their order. *)
Lemma add_required_loop_keys (fields : list ModelField) (todo : list (key * json)) :
  forall (d : list (key * json)) (props' : json),
    add_required_loop fields todo (JDict d) = Ok props' ->
    exists d', props' = JDict d' /\ List.map fst d' = List.map fst d.
Proof.
  induction todo as [|[prop x] todo IH]; simpl; intros d props' H.
  - injection H as <-. eauto.
  - destruct (filter _ fields) as [|field rest]; [discriminate|].
    bind_inv H. bind_inv H.
    destruct (IH _ _ H) as (d' & -> & Hk). exists d'. split; auto.
    rewrite Hk. destruct (lookup prop d) eqn:El; [|discriminate].
    eapply store_keys; eauto.
Qed.

Lemma lookup_nth (d : list (key * json)) :
  NoDup (List.map fst d) ->
  forall (i : nat) (k : key) (w : json),
    nth_error d i = Some (k, w) -> lookup k d = Some w.
Proof.
  induction d as [|[k' v'] d IH]; simpl; intros Hn i k w H.
  - destruct i; discriminate.
  - inversion Hn as [|? ? Hnot Hn']. subst. destruct i as [|i]; simpl in H.
    + injection H as -> ->. now rewrite key_eqb_refl.
    + destruct (key_eqb k k') eqn:E.
      * apply key_eqb_eq in E. subst k'. exfalso. apply Hnot.
        apply nth_error_In in H. now apply (in_map fst) in H.
      * eapply IH; eauto.
Qed.

(** What the parameter of a property looks like. *)
Lemma query_params_nth (d : list (key * json)) :
  forall params : list json,
    Parser.query_params d = Ok params ->
    length params = length d
    /\ forall (i : nat) (p : string) (w : json),
         nth_error d i = Some (KS p, w) ->
         exists prm,
           nth_error params i = Some prm
           /\ entry "name" prm = Some (JStr p)
           /\ entry "in" prm = Some (JStr "query")
           /\ forall r, entry "required" w = Some r -> entry "required" prm = Some r.
Proof.
  induction d as [|[k w] d IH]; simpl; intros params H.
  - injection H as <-. split; auto. intros i p w Hi. destruct i; discriminate.
  - bind_inv H. destruct a as [w1 t]. bind_inv H. rename a into has_req.
    bind_inv H. destruct a as [w2 temp]. bind_inv H. injection H as <-.
    destruct (IH _ Ha2) as [Hlen Hnth]. split; [simpl; now rewrite Hlen|].
    intros i p w0 Hi. destruct i as [|i]; simpl in Hi; [|now apply Hnth].
    injection Hi as -> ->. eexists. split; [reflexivity|].
    destruct has_req.
    + bind_inv Ha1.
      match goal with x : (json * json)%type |- _ => destruct x as [w3 r0] end.
      injection Ha1 as <- <-.
      simpl. repeat split; auto.
      intros r Hr.
      assert (E1 : entry "required" w1 = Some r).
      { rewrite <- Hr. eapply pop_entry_other; eauto. }
      destruct w1; simpl in Ha3, E1; try discriminate.
      rewrite E1 in Ha3. now injection Ha3 as _ <-.
    + injection Ha1 as <- <-. simpl. repeat split; auto.
      intros r Hr.
      assert (E1 : entry "required" w1 = Some r).
      { rewrite <- Hr. eapply pop_entry_other; eauto. }
      destruct w1; simpl in Ha0, E1; try discriminate.
      rewrite E1 in Ha0. discriminate.
Qed.

Lemma remove_attr_entry_same (schema schema' : json) (attr : string) :
  remove_attr schema attr = Ok schema' -> entry attr schema' = None.
Proof.
  unfold remove_attr. intros H. bind_inv H. destruct a.
  - bind_inv H. destruct a as [s x]. injection H as <-.
    eapply pop_entry_same; eauto.
  - injection H as <-. destruct schema; simpl in *; auto.
    destruct (lookup (KS attr) d); [discriminate | reflexivity].
Qed.

Lemma remove_attr_entry_other (schema schema' : json) (attr k : string) :
  remove_attr schema attr = Ok schema' -> String.eqb k attr = false ->
  entry k schema' = entry k schema.
Proof.
  unfold remove_attr. intros H Hk. bind_inv H. destruct a.
  - bind_inv H. destruct a as [s x]. injection H as <-.
    eapply pop_entry_other; eauto.
  - now injection H as <-.
Qed.

Lemma pop_titles_none (props props' : list (key * json)) :
  pop_titles props = Ok props' ->
  Forall (fun kv => entry "title" (snd kv) = None) props'.
Proof.
  revert props'. induction props as [|[k v] props IH]; simpl; intros props' H.
  - injection H as <-. constructor.
  - bind_inv H. bind_inv H. injection H as <-. constructor; auto.
    simpl. destruct v; try discriminate. injection Ha as <-. simpl.
    apply lookup_remove_same.
Qed.

Lemma remove_prop_titles_none (schema schema' props : json) :
  remove_prop_titles schema = Ok schema' ->
  entry "properties" schema' = Some props ->
  exists d, props = JDict d
            /\ Forall (fun kv => entry "title" (snd kv) = None) d.
Proof.
  unfold remove_prop_titles. intros H Hp.
  destruct schema as [| | | | |d]; try discriminate.
  destruct (lookup (KS "properties") d) as [x|] eqn:El.
  - destruct x; try discriminate. bind_inv H.
    apply setitem_entry_same in H. rewrite H in Hp. injection Hp as <-.
    exists a. split; auto. eapply pop_titles_none; eauto.
  - injection H as <-. simpl in Hp. congruence.
Qed.

End HooksFacts.

Section HooksProperties.
Import Models ModelsFacts SchemaHooks HooksFacts Scenarios RequiredScenario.

(** X5. After [add_required(schema, model)], every property of the
    schema carries [required]: [false] when the field of its name allows
    none, [true] when it does not. *)
Theorem add_required_marks_every_property :
  forall (schema schema' : json) (fields : list ModelField)
         (props : list (key * json)) (p : string) (v : json),
    add_required schema fields = Ok schema' ->
    entry "properties" schema = Some (JDict props) ->
    lookup (KS p) props = Some v ->
    exists f v',
      field_of fields p = Some f
      /\ dget schema' ["properties"; p] = Some v'
      /\ entry "required" v' = Some (JBool (negb (allow_none f))).
Proof.
  intros schema schema' fields props p v H Hp Hv.
  destruct schema as [| | | | |d]; try discriminate.
  simpl in Hp. unfold add_required in H. rewrite Hp in H. bind_inv H.
  destruct (add_required_loop_marks _ _ _ _ Ha p) as (v' & Hv' & f & Hf & Hr).
  - left. eapply lookup_in; eauto.
  - exists f, v'. repeat split; auto.
    simpl dget. rewrite (setitem_entry_same _ _ _ _ H). now rewrite Hv'.
Qed.

Lemma add_required_marks_every_property_witness :
  exists f v',
    field_of params_fields "query" = Some f
    /\ dget (JDict [(KS "title", JStr "Params"); (KS "type", JStr "object");
                    (KS "properties",
                     JDict [(KS "page",
                             titled "Page" [(KS "type", JStr "integer");
                                            (KS "required", JBool true)]);
                            (KS "query",
                             titled "Query" [(KS "type", JStr "string");
                                             (KS "required", JBool false)])]);
                    (KS "required", JList [JStr "page"])])
            ["properties"; "query"] = Some v'
    /\ entry "required" v' = Some (JBool (negb (allow_none f))).
Proof.
  eapply (add_required_marks_every_property params_schema _ params_fields
                                            params_props "query").
  - vm_compute. reflexivity.
  - reflexivity.
  - reflexivity.
Defined.

(** X6. The query parameters read off a schema that [add_required]
    annotated (what [get_request_params] does with the schema of a
    [ParamsModel]): one parameter for each property, in the order of the
    properties, named after it, placed in the query, and required exactly
    when the field of that name does not allow none. *)
Theorem query_parameters_carry_required :
  forall (schema schema' : json) (fields : list ModelField)
         (props : list (key * json)) (params : list json),
    entry "properties" schema = Some (JDict props) ->
    NoDup (List.map fst props) ->
    add_required schema fields = Ok schema' ->
    Parser.schema_to_query_params schema' = Ok params ->
    length params = length props
    /\ forall (i : nat) (p : string) (w : json),
         nth_error props i = Some (KS p, w) ->
         exists f prm,
           field_of fields p = Some f
           /\ nth_error params i = Some prm
           /\ entry "name" prm = Some (JStr p)
           /\ entry "in" prm = Some (JStr "query")
           /\ entry "required" prm = Some (JBool (negb (allow_none f))).
Proof.
  intros schema schema' fields props params Hp Hn H Hq.
  destruct schema as [| | | | |d]; try discriminate.
  simpl in Hp. unfold add_required in H. rewrite Hp in H. bind_inv H.
  destruct (add_required_loop_keys _ _ _ _ Ha) as (d' & -> & Hk).
  unfold Parser.schema_to_query_params in Hq.
  simpl in H. injection H as <-. simpl in Hq.
  rewrite lookup_store_same in Hq. simpl in Hq.
  destruct (query_params_nth _ _ Hq) as [Hlen Hnth].
  assert (Hl : length d' = length props).
  { rewrite <- (length_map fst d'), Hk. apply length_map. }
  split; [congruence|].
  intros i p w Hi.
  assert (Hi' : exists w', nth_error d' i = Some (KS p, w')).
  { assert (E : nth_error (List.map fst d') i = Some (KS p)).
    { rewrite Hk. now rewrite (map_nth_error fst _ _ Hi). }
    rewrite nth_error_map in E.
    destruct (nth_error d' i) as [[k w']|]; [|discriminate].
    simpl in E. injection E as ->. eauto. }
  destruct Hi' as (w' & Hi').
  assert (Hn' : NoDup (List.map fst d')) by now rewrite Hk.
  pose proof (lookup_nth _ Hn' _ _ _ Hi') as Hlook.
  destruct (add_required_loop_marks _ _ _ _ Ha p) as (v' & Hv' & f & Hf & Hr).
  { left. apply nth_error_In in Hi. now apply (in_map fst) in Hi. }
  simpl in Hv'. rewrite Hlook in Hv'. injection Hv' as <-.
  destruct (Hnth _ _ _ Hi') as (prm & H1 & H2 & H3 & H4).
  exists f, prm. repeat split; auto.
Qed.

Lemma query_parameters_carry_required_witness :
  length [JDict [(KS "required", JBool true); (KS "name", JStr "page");
                 (KS "in", JStr "query");
                 (KS "schema", JDict [(KS "type", JStr "integer")])];
          JDict [(KS "required", JBool false); (KS "name", JStr "query");
                 (KS "in", JStr "query");
                 (KS "schema", JDict [(KS "type", JStr "string")])]]
  = length params_props
  /\ forall (i : nat) (p : string) (w : json),
       nth_error params_props i = Some (KS p, w) ->
       exists f prm,
         field_of params_fields p = Some f
         /\ nth_error
              [JDict [(KS "required", JBool true); (KS "name", JStr "page");
                      (KS "in", JStr "query");
                      (KS "schema", JDict [(KS "type", JStr "integer")])];
               JDict [(KS "required", JBool false); (KS "name", JStr "query");
                      (KS "in", JStr "query");
                      (KS "schema", JDict [(KS "type", JStr "string")])]] i
            = Some prm
         /\ entry "name" prm = Some (JStr p)
         /\ entry "in" prm = Some (JStr "query")
         /\ entry "required" prm = Some (JBool (negb (allow_none f))).
Proof.
  eapply (query_parameters_carry_required params_schema _ params_fields params_props).
  - reflexivity.
  - repeat constructor; simpl; intuition discriminate.
  - vm_compute. reflexivity.
  - vm_compute. reflexivity.
Defined.

(** X7. The hook of [ModelNoTitleNoRequiredNoPropTitle] ([add_nullable],
    [remove_prop_titles], then [remove_attr] for [title] and for
    [required]) leaves a schema without [title], without [required], and
    whose properties carry no [title]. *)
Theorem bare_schema_extra_strips_titles :
  forall (schema schema' : json) (fields : list ModelField),
    bare_schema_extra schema fields = Ok schema' ->
    entry "title" schema' = None
    /\ entry "required" schema' = None
    /\ forall props : json,
         entry "properties" schema' = Some props ->
         exists d, props = JDict d
                   /\ Forall (fun kv => entry "title" (snd kv) = None) d.
Proof.
  intros schema schema' fields H. unfold bare_schema_extra in H.
  bind_inv H. rename a into s1. bind_inv H. rename a into s2.
  bind_inv H. rename a into s3.
  split; [|split].
  - rewrite (remove_attr_entry_other _ _ _ "title" H eq_refl).
    eapply remove_attr_entry_same; eauto.
  - eapply remove_attr_entry_same; eauto.
  - intros props Hp.
    rewrite (remove_attr_entry_other _ _ _ "properties" H eq_refl) in Hp.
    rewrite (remove_attr_entry_other _ _ _ "properties" Ha1 eq_refl) in Hp.
    eapply remove_prop_titles_none; eauto.
Qed.

Lemma bare_schema_extra_strips_titles_witness :
  entry "title"
        (JDict [(KS "type", JStr "object");
                (KS "properties",
                 JDict [(KS "page", JDict [(KS "type", JStr "integer")]);
                        (KS "query",
                         JDict [(KS "type", JStr "string");
                                (KS "nullable", JBool true)])])]) = None
  /\ entry "required"
           (JDict [(KS "type", JStr "object");
                   (KS "properties",
                    JDict [(KS "page", JDict [(KS "type", JStr "integer")]);
                           (KS "query",
                            JDict [(KS "type", JStr "string");
                                   (KS "nullable", JBool true)])])]) = None
  /\ forall props : json,
       entry "properties"
             (JDict [(KS "type", JStr "object");
                     (KS "properties",
                      JDict [(KS "page", JDict [(KS "type", JStr "integer")]);
                             (KS "query",
                              JDict [(KS "type", JStr "string");
                                     (KS "nullable", JBool true)])])])
       = Some props ->
       exists d, props = JDict d
                 /\ Forall (fun kv => entry "title" (snd kv) = None) d.
Proof.
  apply (bare_schema_extra_strips_titles params_schema _ params_fields).
  vm_compute. reflexivity.
Defined.

End HooksProperties.

(* ================================================================== *)
(** * Facts about text *)
(* ================================================================== *)

Module TextFacts.
Import PyStr PyText.

Lemma append_nil_r (s : string) : s ++ EmptyString = s.
Proof. induction s; simpl; congruence. Qed.

Lemma append_assoc (a b c : string) : (a ++ b) ++ c = a ++ (b ++ c).
Proof. induction a; simpl; congruence. Qed.

Lemma split_char_aux_nonempty (sep : ascii) (m : option nat) (s : string) :
  forall acc, split_char_aux sep m acc s <> [].
Proof.
  revert m. induction s as [|c s IH]; simpl; intros m acc; [discriminate|].
  destruct (Ascii.eqb c sep); [destruct m as [[|n]|]|]; try discriminate; apply IH.
Qed.

Lemma join_cons (sep p : string) (rest : list string) :
  rest <> [] -> join sep (p :: rest) = p ++ sep ++ join sep rest.
Proof. destruct rest; [congruence | reflexivity]. Qed.

(** Joining what [split] gave with the separator gives the text back. *)
Lemma join_split_char_aux (sep : ascii) (s : string) :
  forall acc,
    join (String sep EmptyString) (split_char_aux sep None acc s) = rev_str acc ++ s.
Proof.
  induction s as [|c s IH]; simpl; intros acc.
  - now rewrite append_nil_r.
  - destruct (Ascii.eqb c sep) eqn:E.
    + apply Ascii.eqb_eq in E. subst c.
      rewrite join_cons by apply split_char_aux_nonempty.
      rewrite IH. reflexivity.
    + rewrite IH. simpl. now rewrite append_assoc.
Qed.

Lemma join_split_char (sep : ascii) (s : string) :
  join (String sep EmptyString) (split_char sep None s) = s.
Proof. unfold split_char. now rewrite join_split_char_aux. Qed.

Lemma startswith_app (sub a b : string) :
  startswith sub a = true -> startswith sub (a ++ b) = true.
Proof.
  revert a. induction sub as [|c sub IH]; simpl; intros a H; auto.
  destruct a as [|d a]; [discriminate|]. simpl.
  apply andb_true_iff in H. destruct H as [H1 H2]. now rewrite H1, IH.
Qed.

Lemma contains_app_l (sub a b : string) :
  contains sub a = true -> contains sub (a ++ b) = true.
Proof.
  induction a as [|c a IH]; simpl; intros H.
  - rewrite orb_false_r in H. destruct sub; [|discriminate].
    destruct b; reflexivity.
  - apply orb_true_iff in H. destruct H as [H | H].
    + change (String c (a ++ b)) with (String c a ++ b).
      now rewrite (startswith_app _ _ _ H).
    + rewrite (IH H). apply orb_true_r.
Qed.

Lemma contains_app_r (sub a b : string) :
  contains sub b = true -> contains sub (a ++ b) = true.
Proof.
  intros H. induction a as [|c a IH]; simpl; auto.
  rewrite IH. apply orb_true_r.
Qed.

(** A piece [split] gave is a part of the text. *)
Lemma split_char_aux_part (sep : ascii) (s : string) :
  forall acc line,
    In line (split_char_aux sep None acc s) ->
    exists pre post, rev_str acc ++ s = pre ++ line ++ post.
Proof.
  induction s as [|c s IH]; simpl; intros acc line H.
  - destruct H as [<- | []]. exists EmptyString, EmptyString. reflexivity.
  - destruct (Ascii.eqb c sep).
    + destruct H as [<- | H].
      * exists EmptyString, (String c s). reflexivity.
      * destruct (IH _ _ H) as (pre & post & E). simpl in E.
        exists (rev_str acc ++ String c pre), post.
        rewrite E. rewrite append_assoc. reflexivity.
    + destruct (IH _ _ H) as (pre & post & E). simpl in E.
      rewrite append_assoc in E. exists pre, post. exact E.
Qed.

Lemma contains_split_char (sub : string) (sep : ascii) (s line : string) :
  contains sub s = false -> In line (split_char sep None s) ->
  contains sub line = false.
Proof.
  intros Hs Hin. apply split_char_aux_part in Hin.
  destruct Hin as (pre & post & E). simpl in E.
  destruct (contains sub line) eqn:Hc; auto.
  rewrite E in Hs. rewrite contains_app_r in Hs; [discriminate|].
  now apply contains_app_l.
Qed.

End TextFacts.

Section YamlProperties.
Import PyStr PyText Openapi TextFacts.

Lemma anchors_none (splits : list string) (refs : list (string * string)) :
  (forall x, In x splits -> contains "&id" x = false) ->
  anchors splits refs = Ok (splits, refs).
Proof.
  induction splits as [|x splits IH]; simpl; intros H; auto.
  rewrite (H x) by now left. rewrite IH by auto. reflexivity.
Qed.

Lemma aliases_none (splits : list string) (refs : list (string * string)) :
  (forall x, In x splits -> contains "*id" x = false) ->
  aliases splits refs = Ok splits.
Proof.
  induction splits as [|x splits IH]; simpl; intros H; auto.
  rewrite (H x) by now left. rewrite IH by auto. reflexivity.
Qed.

(** X8. [fix_yaml_references(spec)] returns a dump that holds no anchor
    mark [&id] and no alias mark [*id] as it is. *)
Theorem fix_yaml_references_without_marks :
  forall spec : string,
    contains "&id" spec = false -> contains "*id" spec = false ->
    fix_yaml_references spec = Ok spec.
Proof.
  intros spec Ha Hs. unfold fix_yaml_references.
  rewrite anchors_none.
  - simpl. rewrite aliases_none.
    + simpl. now rewrite join_split_char.
    + intros x Hx. eapply contains_split_char; eauto.
  - intros x Hx. eapply contains_split_char; eauto.
Qed.

Lemma fix_yaml_references_without_marks_witness :
  fix_yaml_references YamlScenario.plain_dump = Ok YamlScenario.plain_dump.
Proof.
  apply (fix_yaml_references_without_marks YamlScenario.plain_dump);
    vm_compute; reflexivity.
Defined.

End YamlProperties.

(* ================================================================== *)
(** * What the docstring parser raises *)
(* ================================================================== *)

Module RaiseFacts.
Import PyStr Docstring DocstringSpec DocstringFacts RaiseSpec.

#[local] Arguments dict_get : simpl never.
#[local] Arguments Re.matches : simpl never.

Lemma fill_subsections_raises (l : list string) :
  forall (acc : list (string * string)) (e : exn),
    fill_subsections l acc = Raise e -> e = ValueError.
Proof.
  induction l as [|line l IH]; simpl; intros acc e H; [discriminate|].
  destruct (split_char ":" (Some 1) line) as [|a [|b [|c t]]];
    try (now injection H as <-).
  eapply IH; eauto.
Qed.

(** Each reducer raises one exception at most, its own. *)
Lemma reducer_raises (k : section_kind) (section : string) (si : nat)
      (rest : list string) (d : GoogleDocstring) (e : exn) :
  reducer k section si rest d = Raise e -> blamed e = Some k.
Proof.
  destruct k; simpl;
    unfold _parse_parameters_section, _parse_attributes_section,
      _parse_examples_section, _parse_keyword_arguments_section,
      _parse_methods_section, _parse_other_parameters_section,
      _parse_schemas_section, _parse_map_section, _parse_tags_section,
      _parse_requests_section, _parse_responses_section, _parse_returns_section;
    intros H.
  - destruct (_consume_fields_ok true si true false rest) as (fs & r0 & E & _).
    rewrite E in H. discriminate.
  - destruct (_consume_fields_ok true si true false rest) as (fs & r0 & E & _).
    rewrite E in H. discriminate.
  - destruct (body true si rest). discriminate.
  - destruct (_consume_fields_ok true si true false rest) as (fs & r0 & E & _).
    rewrite E in H. discriminate.
  - destruct (_consume_fields_ok true si false false rest) as (fs & r0 & E & _).
    rewrite E in H. discriminate.
  - destruct (_consume_fields_ok true si true false rest) as (fs & r0 & E & _).
    rewrite E in H. simpl in H.
    destruct (parameters d); [discriminate|]. now injection H as <-.
  - destruct (body true si rest). discriminate.
  - destruct (body true si rest) as [ls r0].
    destruct ls; [|discriminate]. now injection H as <-.
  - destruct (body true si rest). discriminate.
  - destruct (body true si rest). discriminate.
  - destruct (_consume_to_next_section true si rest) as [ls r0].
    destruct (is_see _); [discriminate|].
    unfold _join_subsection in H.
    destruct (fill_subsections _ _) eqn:Ef; try discriminate.
    simpl in H. injection H as <-.
    now rewrite (fill_subsections_raises _ _ _ Ef).
  - destruct (_consume_to_next_section true si rest) as [ls r0].
    destruct (is_see _); [|discriminate]. now injection H as <-.
Qed.

Lemma parse_step_raises (st : pstate) (line : string) (after : list string) (e : exn) :
  rest st = line :: after -> parse_step st = Raise e -> raised_by e line.
Proof.
  intros E H. unfold parse_step in H. rewrite E in H.
  destruct (_is_section_header line after) eqn:Hh.
  - destruct (Re.matches _directive_regex (_consume_section_header line)).
    + destruct (_consume_to_next_section true _ after). discriminate.
    + destruct (header_kind_defined _ _ Hh) as [k Hk].
      unfold header_kind in Hk. rewrite Hk in H.
      destruct (reducer k _ _ after (doc st)) as [[[ne r] d']| e' |] eqn:Er;
        try discriminate.
      simpl in H. injection H as <-.
      exists k. split; [eapply reducer_raises; eauto | exact Hk].
  - destruct (negb (parsed st)).
    + destruct (_consume_contiguous _) as [l1 r1]. destruct (_consume_empty r1).
      discriminate.
    + destruct (_consume_to_next_section false 0 _). discriminate.
Qed.

Lemma left_of_in (r l : list string) (x : string) : left_of r l -> In x r -> In x l.
Proof. intros [taken ->] H. apply in_or_app. now right. Qed.

Lemma parse_loop_raises (e : exn) (fuel : nat) :
  forall st : pstate,
    parse_loop fuel st = Raise e ->
    exists line, In line (rest st) /\ raised_by e line.
Proof.
  induction fuel as [|fuel IH]; intros st H.
  - simpl in H. destruct (rest st); discriminate.
  - simpl in H. destruct (rest st) as [|line after] eqn:E; [discriminate|].
    destruct (parse_step st) as [st'| e' |] eqn:Es; try discriminate.
    + simpl in H. destruct (IH _ H) as (l & Hin & Hr).
      exists l. split; auto. right.
      eapply left_of_in; [|exact Hin].
      eapply parse_step_progress; eauto.
    + simpl in H. injection H as <-. exists line. split; [now left|].
      eapply parse_step_raises; eauto.
Qed.

End RaiseFacts.

Section RaiseProperties.
Import PyStr Docstring DocstringSpec DocstringFacts RaiseSpec RaiseFacts.

(** X9. Constructing [GoogleDocstring(docstring)] raises four exceptions
    only, each from the section of one header of the docstring: an
    [IndexError] from a map section, a [ValueError] from a responses
    section, a [TypeError] from a returns section and an
    [AttributeError] from a section of other parameters.  It raises no
    [KeyError] when it selects the reducer of a header and no
    [StopIteration] when it reads the fields of a section. *)
Theorem parser_raises_by_section :
  forall (lines : list string) (e : exn),
    of_lines lines = Raise e ->
    exists line, In line (List.map rstrip lines) /\ raised_by e line.
Proof.
  intros lines e H. unfold of_lines, _parse in H.
  destruct (_consume_empty (List.map rstrip lines)) as [empties r] eqn:Ec.
  destruct (parse_loop (length r) _) as [st| e' |] eqn:El; try discriminate.
  simpl in H. injection H as <-.
  destruct (parse_loop_raises _ _ _ El) as (line & Hin & Hr).
  exists line. split; auto. simpl in Hin.
  apply _consume_empty_split in Ec. rewrite Ec. apply in_or_app. now right.
Qed.

Lemma parser_raises_by_section_witness :
  exists line,
    In line (List.map rstrip (splitlines DocstringScenario.empty_map))
    /\ raised_by IndexError line.
Proof.
  apply (parser_raises_by_section (splitlines DocstringScenario.empty_map) IndexError).
  vm_compute. reflexivity.
Defined.

End RaiseProperties.

(* ================================================================== *)
(** * Indentation *)
(* ================================================================== *)

Module IndentFacts.
Import PyStr Docstring.

Lemma lstrip_drop (line : string) :
  forall n : nat, n <= _get_indent line -> lstrip (drop n line) = lstrip line.
Proof.
  unfold lstrip. induction line as [|c line IH]; simpl; intros n Hn.
  - now destruct n.
  - destruct n as [|n]; [reflexivity|]. simpl.
    destruct (isspace c); [|lia]. apply IH. lia.
Qed.

(** The minimum found is below the indentation of every line that is not
    empty, and below the minimum it started from. *)
Lemma _get_min_indent_aux_le (lines : list string) :
  forall acc : option nat,
    (forall a, acc = Some a ->
               exists m, _get_min_indent_aux acc lines = Some m /\ m <= a)
    /\ (forall line, In line lines -> truthy line = true ->
                     exists m, _get_min_indent_aux acc lines = Some m
                               /\ m <= _get_indent line).
Proof.
  induction lines as [|l lines IH]; simpl; intros acc.
  - split; [intros a ->; eauto | intros line []].
  - destruct (truthy l) eqn:Ht.
    + destruct acc as [a|].
      * destruct (IH (if _get_indent l <? a then Some (_get_indent l) else Some a))
          as [H1 H2].
        destruct (_get_indent l <? a) eqn:E.
        -- apply Nat.ltb_lt in E.
           destruct (H1 _ eq_refl) as (m & Hm & Hle). split.
           ++ intros a' Ea. injection Ea as <-. exists m. split; auto. lia.
           ++ intros line [<- | Hin] Hl; eauto.
        -- apply Nat.ltb_ge in E.
           destruct (H1 _ eq_refl) as (m & Hm & Hle). split.
           ++ intros a' Ea. injection Ea as <-. eauto.
           ++ intros line [<- | Hin] Hl; eauto. exists m. split; auto. lia.
      * destruct (IH (Some (_get_indent l))) as [H1 H2].
        destruct (H1 _ eq_refl) as (m & Hm & Hle). split.
        -- discriminate.
        -- intros line [<- | Hin] Hl; eauto.
    + destruct (IH acc) as [H1 H2]. split; auto.
      intros line [<- | Hin] Hl; [congruence | eauto].
Qed.

Lemma _get_min_indent_le (lines : list string) (line : string) :
  In line lines -> truthy line = true -> _get_min_indent lines <= _get_indent line.
Proof.
  intros Hin Ht. unfold _get_min_indent.
  destruct (_get_min_indent_aux_le lines None) as [_ H].
  destruct (H _ Hin Ht) as (m & -> & Hle). exact Hle.
Qed.

End IndentFacts.

Section IndentProperties.
Import PyStr Docstring IndentFacts.

(** X10. [_dedent(lines)] cuts white space only: each line of the result
    has the text of the line it comes from, that is, stripping the result
    on the left gives what stripping the lines on the left gives; and no
    line is added or dropped. *)
Theorem dedent_keeps_text :
  forall lines : list string,
    List.map lstrip (_dedent lines) = List.map lstrip lines
    /\ length (_dedent lines) = length lines.
Proof.
  intros lines. unfold _dedent. split; [|apply length_map].
  rewrite map_map. apply map_ext_in. intros line Hin.
  destruct (truthy line) eqn:Ht.
  - apply lstrip_drop. now apply _get_min_indent_le.
  - destruct line; [|discriminate]. now destruct (_get_min_indent lines).
Qed.

(** X11. [_is_indented(line, indent)] holds exactly when the line is
    longer than [indent] and its indentation, as [_get_indent] counts it,
    is [indent] at least. *)
Theorem is_indented_by_indent :
  forall (line : string) (indent : nat),
    _is_indented line indent
    = (indent <? String.length line) && (indent <=? _get_indent line).
Proof.
  induction line as [|c line IH]; simpl; intros indent.
  - reflexivity.
  - destruct indent as [|indent]; [reflexivity|].
    destruct (isspace c).
    + rewrite IH. reflexivity.
    + simpl. now rewrite andb_false_r.
Qed.

End IndentProperties.

(* ================================================================== *)
(** * Joining the lines of a subsection *)
(* ================================================================== *)

Module JoinFacts.
Import PyStr TextFacts.

Lemma join_empty_cons (p : string) (l : list string) :
  join EmptyString (p :: l) = p ++ join EmptyString l.
Proof. destruct l; simpl; [now rewrite append_nil_r | reflexivity]. Qed.

Lemma join_empty_app (a b : list string) :
  join EmptyString (a ++ b) = join EmptyString a ++ join EmptyString b.
Proof.
  induction a as [|p a IH]; [reflexivity|].
  change ((p :: a) ++ b)%list with (p :: (a ++ b))%list.
  rewrite !join_empty_cons, IH. now rewrite append_assoc.
Qed.

(** The loop shared by the two functions: [goes_on] tells the lines that
    go on with the line before. *)
Fixpoint joined (goes_on : string -> bool) (lines : list string) (prev : string)
         (_lines : list string) : list string :=
  match lines with
  | [] => (_lines ++ [prev])%list
  | line :: lines' =>
      if goes_on line then joined goes_on lines' (prev ++ line) _lines
      else joined goes_on lines' line
                  (if truthy prev then (_lines ++ [prev])%list else _lines)
  end.

Lemma joined_text (goes_on : string -> bool) (lines : list string) :
  forall (prev : string) (_lines : list string),
    join EmptyString (joined goes_on lines prev _lines)
    = join EmptyString _lines ++ prev ++ join EmptyString lines.
Proof.
  induction lines as [|line lines IH]; simpl joined; intros prev _lines.
  - rewrite join_empty_app. simpl. now rewrite append_nil_r.
  - rewrite join_empty_cons. destruct (goes_on line).
    + rewrite IH. now rewrite append_assoc.
    + rewrite IH. destruct (truthy prev) eqn:Et.
      * rewrite join_empty_app. simpl join at 2. now rewrite append_assoc.
      * destruct prev; [reflexivity | discriminate].
Qed.

Lemma joined_nonempty (goes_on : string -> bool) (lines : list string) :
  forall (prev : string) (_lines : list string),
    joined goes_on lines prev _lines <> [].
Proof.
  induction lines as [|line lines IH]; simpl; intros prev _lines.
  - destruct _lines; discriminate.
  - destruct (goes_on line); apply IH.
Qed.

Lemma parser_join_loop (lines : list string) :
  forall (prev : string) (_lines : list string),
    Redirects.join_loop lines prev _lines
    = joined (fun line => negb (Re.matches Redirects.param_regex line)) lines prev _lines.
Proof.
  induction lines as [|line lines IH]; cbn [Redirects.join_loop joined];
    intros prev _lines; auto.
  destruct (negb _); apply IH.
Qed.

Lemma docstring_join_loop (lines : list string) :
  forall (prev : string) (_lines : list string),
    Docstring.join_loop lines prev _lines = joined (startswith " ") lines prev _lines.
Proof.
  induction lines as [|line lines IH]; cbn [Docstring.join_loop joined];
    intros prev _lines; auto.
  destruct (startswith " " line); apply IH.
Qed.

End JoinFacts.

Section JoinProperties.
Import PyStr JoinFacts.

(** X12. [join_subsection(lines)] of the request reader and the joining
    loop of [_join_subsection] of the docstring parser lose no text and
    add none: the lines they give, put end to end, are the lines they
    got, put end to end.  Both give one line at least: for no line at
    all, one empty line. *)
Theorem join_subsection_keeps_text :
  forall lines : list string,
    join EmptyString (Redirects.join_subsection lines) = join EmptyString lines
    /\ Redirects.join_subsection lines <> []
    /\ join EmptyString (Docstring.join_loop lines EmptyString [])
       = join EmptyString lines
    /\ Docstring.join_loop lines EmptyString [] <> [].
Proof.
  intros lines. unfold Redirects.join_subsection.
  rewrite parser_join_loop, docstring_join_loop.
  repeat split; try apply joined_nonempty; now rewrite joined_text.
Qed.

End JoinProperties.

(* ================================================================== *)
(** * Partial functions *)
(* ================================================================== *)

Section PartialProperties.
Import Parser.

(** X13. What [resolve_partials(func)] returns is no partial function,
    and resolving it again gives it back. *)
Theorem resolve_partials_reaches_function :
  forall f g : pyobj,
    resolve_partials f = Ok g -> kind g <> KPartial /\ resolve_partials g = Ok g.
Proof.
  fix IH 1. intros [k n m q d members] g H.
  destruct k; try (injection H as <-; split; [discriminate | reflexivity]).
  simpl in H. revert H.
  induction members as [|[key v] members IHm]; intros H.
  - discriminate.
  - destruct (String.eqb key "func").
    + apply (IH v g H).
    + apply IHm. exact H.
Qed.

Lemma resolve_partials_reaches_function_witness :
  kind RedirectScenario.view <> KPartial
  /\ resolve_partials RedirectScenario.view = Ok RedirectScenario.view.
Proof.
  apply (resolve_partials_reaches_function
           (PartialScenario.partial_of (PartialScenario.partial_of RedirectScenario.view))).
  reflexivity.
Defined.

End PartialProperties.

(* ================================================================== *)
(** * The paths of an application *)
(* ================================================================== *)

Module DictFacts.

Lemma dict_get_set_eq {V : Type} (k : string) (v : V) (d : list (string * V)) :
  dict_get k (dict_set k v d) = Some v.
Proof.
  induction d as [|[k' v'] d IH]; simpl.
  - now rewrite String.eqb_refl.
  - destruct (String.eqb k k') eqn:E; simpl.
    + now rewrite String.eqb_refl.
    + now rewrite E.
Qed.

Lemma dict_get_set_neq {V : Type} (k k' : string) (v : V) (d : list (string * V)) :
  String.eqb k k' = false -> dict_get k (dict_set k' v d) = dict_get k d.
Proof.
  intros Hk. induction d as [|[k2 v2] d IH]; simpl.
  - now rewrite Hk.
  - destruct (String.eqb k' k2) eqn:E; simpl.
    + apply String.eqb_eq in E. subst k2. now rewrite Hk.
    + destruct (String.eqb k k2); auto.
Qed.

Lemma dict_has_set {V : Type} (k k' : string) (v : V) (d : list (string * V)) :
  dict_has k d = true -> dict_has k (dict_set k' v d) = true.
Proof.
  unfold dict_has. intros H. destruct (String.eqb k k') eqn:E.
  - apply String.eqb_eq in E. subst k'. now rewrite dict_get_set_eq.
  - now rewrite dict_get_set_neq.
Qed.

End DictFacts.

Section PathsProperties.
Import PyStr Parser PathsSpec DictFacts.

Variable infer_request_schema : pyobj -> result (option json).
Variable get_request_params : list string -> result (list json).
Variable get_request_body : list string -> pyobj -> option pyobj -> result json.
Variable content_type : reqval -> result string.
Variable generate_responses : pyobj -> string -> string -> result json.
Variable error_text : exn -> string.

Let methods_of :=
  methods_loop infer_request_schema get_request_params get_request_body
               content_type generate_responses error_text.
Let paths_of :=
  make_paths infer_request_schema get_request_params get_request_body
             content_type generate_responses error_text.

(** The keys of a dictionary of methods come from [ms] or are [m]. *)
Definition grown (ms ms' : list (string * json)) (added : string -> Prop) : Prop :=
  forall (m : string) (spec : json),
    dict_get m ms' = Some spec ->
    added m \/ exists spec0, dict_get m ms = Some spec0.

Lemma set_path_has (paths : paths_t) (newname method k : string) (value : json) :
  dict_has k paths = true -> dict_has k (set_path paths newname method value) = true.
Proof.
  intros H. unfold set_path. destruct (dict_get newname paths); auto.
  now apply dict_has_set.
Qed.

Lemma set_path_entry (paths : paths_t) (newname method : string) (value : json)
      (ms : list (string * json)) :
  dict_get newname paths = Some ms ->
  exists ms', dict_get newname (set_path paths newname method value) = Some ms'
              /\ grown ms ms' (fun m => m = method).
Proof.
  intros H. unfold set_path. rewrite H. rewrite dict_get_set_eq.
  eexists. split; [reflexivity|].
  intros m spec Hm. destruct (String.eqb m method) eqn:E.
  - left. now apply String.eqb_eq.
  - right. rewrite dict_get_set_neq in Hm by exact E. eauto.
Qed.

Lemma record_spec_has (rule newname method k : string) (login : bool)
      (returned : json * error) (acc acc' : paths_t * list (string * string)) :
  record_spec rule newname method login returned acc = Ok acc' ->
  dict_has k (fst acc) = true -> dict_has k (fst acc') = true.
Proof.
  destruct acc as [paths errors], returned as [spec err]. simpl.
  destruct err as [e|]; intros H Hk.
  - injection H as <-. simpl. now apply set_path_has.
  - bind_inv H. bind_inv H. injection H as <-. simpl. now apply set_path_has.
Qed.

Lemma record_spec_entry (rule newname method : string) (login : bool)
      (returned : json * error) (acc acc' : paths_t * list (string * string))
      (ms : list (string * json)) :
  record_spec rule newname method login returned acc = Ok acc' ->
  dict_get newname (fst acc) = Some ms ->
  exists ms', dict_get newname (fst acc') = Some ms'
              /\ grown ms ms' (fun m => m = method).
Proof.
  destruct acc as [paths errors], returned as [spec err]. simpl.
  destruct err as [e|]; intros H Hk.
  - injection H as <-. simpl. now apply set_path_entry.
  - bind_inv H. bind_inv H. injection H as <-. simpl. now apply set_path_entry.
Qed.

Lemma methods_loop_has (st : interp) (gen_opid : bool) (opid_template : string)
      (r : url_rule) (newname k : string) (todo : list string) :
  forall acc acc' : paths_t * list (string * string),
    methods_of st gen_opid opid_template r newname todo acc = Ok acc' ->
    dict_has k (fst acc) = true -> dict_has k (fst acc') = true.
Proof.
  unfold methods_of.
  induction todo as [|method todo IH]; cbn [methods_loop]; intros acc acc' H Hk.
  - now injection H as <-.
  - destruct (mem_str method ["GET"; "POST"]); [|eauto].
    destruct (dict_get "view_class" (attrs (endpoint r))).
    + bind_inv H. bind_inv H. bind_inv H.
      eapply IH; [exact H|]. eapply record_spec_has; eauto.
    + destruct (mem_str "GET" (methods r) && mem_str "POST" (methods r)).
      * eapply IH; [exact H|]. exact Hk.
      * bind_inv H. bind_inv H. bind_inv H.
        eapply IH; [exact H|]. eapply record_spec_has; eauto.
Qed.

Lemma methods_loop_entry (st : interp) (gen_opid : bool) (opid_template : string)
      (r : url_rule) (newname : string) (todo : list string) :
  forall (acc acc' : paths_t * list (string * string)) (ms : list (string * json)),
    methods_of st gen_opid opid_template r newname todo acc = Ok acc' ->
    dict_get newname (fst acc) = Some ms ->
    exists ms',
      dict_get newname (fst acc') = Some ms'
      /\ grown ms ms'
               (fun m => exists method,
                           In method todo /\ served method = true /\ m = lower method).
Proof.
  unfold methods_of.
  induction todo as [|method todo IH]; cbn [methods_loop]; intros acc acc' ms H Hk.
  - injection H as <-. exists ms. split; auto. intros m spec Hm. eauto.
  - assert (Hstep :
              forall acc1 : paths_t * list (string * string),
                (exists ms1, dict_get newname (fst acc1) = Some ms1
                             /\ grown ms ms1
                                      (fun m => served method = true /\ m = lower method)) ->
                methods_loop infer_request_schema get_request_params get_request_body
                             content_type generate_responses error_text
                             st gen_opid opid_template r newname todo acc1 = Ok acc' ->
                exists ms',
                  dict_get newname (fst acc') = Some ms'
                  /\ grown ms ms'
                           (fun m => exists method0,
                                       (method = method0 \/ In method0 todo)
                                       /\ served method0 = true /\ m = lower method0)).
    { intros acc1 (ms1 & H1 & G1) Hl.
      destruct (IH _ _ _ Hl H1) as (ms' & H2 & G2).
      exists ms'. split; auto. intros m spec Hm.
      destruct (G2 _ _ Hm) as [(method0 & Hin & Hs & ->) | (spec0 & H0)].
      - left. exists method0. auto.
      - destruct (G1 _ _ H0) as [[Hs ->] | Hold]; [|now right].
        left. exists method. auto. }
    fold (served method) in H.
    destruct (served method) eqn:Es.
    + destruct (dict_get "view_class" (attrs (endpoint r))).
      * bind_inv H. bind_inv H. bind_inv H.
        eapply Hstep; [|exact H].
        destruct (record_spec_entry _ _ _ _ _ _ _ _ Ha1 Hk) as (ms1 & H1 & G1).
        exists ms1. split; auto. intros m spec Hm.
        destruct (G1 _ _ Hm) as [-> | Hold]; auto.
      * destruct (mem_str "GET" (methods r) && mem_str "POST" (methods r)).
        -- eapply Hstep; [|exact H]. simpl. exists ms. split; auto.
           intros m spec Hm. eauto.
        -- bind_inv H. bind_inv H. bind_inv H.
           eapply Hstep; [|exact H].
           destruct (record_spec_entry _ _ _ _ _ _ _ _ Ha1 Hk) as (ms1 & H1 & G1).
           exists ms1. split; auto. intros m spec Hm.
           destruct (G1 _ _ Hm) as [-> | Hold]; auto.
    + eapply Hstep; [|exact H]. exists ms. split; auto. intros m spec Hm. eauto.
Qed.

Lemma make_paths_app (st : interp) (excludes : list Re.regex) (gen_opid : bool)
      (opid_template : string) (a b : list url_rule) :
  forall acc : paths_t * list (string * string) * list string,
    paths_of st (a ++ b) excludes gen_opid opid_template acc
    = (acc' <- paths_of st a excludes gen_opid opid_template acc ;;
       paths_of st b excludes gen_opid opid_template acc').
Proof.
  unfold paths_of. induction a as [|r a IH]; intros acc; [reflexivity|].
  destruct acc as [[paths errors] excluded]. simpl.
  destruct (existsb _ excludes); [apply IH|].
  destruct (methods_loop _ _ _ _ _ _ _ _ _ _ _ _ _) as [[p e]| |]; simpl; auto.
Qed.

(** X14. [make_paths] lists as excluded exactly the rules that one of
    the patterns matches, in the order of the rules, and gives an entry
    of the paths to every other rule, under its text with the
    placeholders in braces. *)
Theorem make_paths_excludes_by_pattern :
  forall (st : interp) (rules : list url_rule) (excludes : list Re.regex)
         (gen_opid : bool) (opid_template : string)
         (paths paths' : paths_t) (errors errors' : list (string * string))
         (excluded excluded' : list string),
    paths_of st rules excludes gen_opid opid_template (paths, errors, excluded)
    = Ok (paths', errors', excluded') ->
    excluded'
    = (excluded ++ filter (excluded_by excludes) (List.map rule_text rules))%list
    /\ (forall k, dict_has k paths = true -> dict_has k paths' = true)
    /\ forall r : url_rule,
         In r rules -> excluded_by excludes (rule_text r) = false ->
         dict_has (path_of (rule_text r)) paths' = true.
Proof.
  intros st rules excludes gen_opid opid_template. unfold paths_of.
  induction rules as [|r rules IH]; simpl;
    intros paths paths' errors errors' excluded excluded' H.
  - injection H as <- <- <-. rewrite app_nil_r. repeat split; auto.
  - fold (excluded_by excludes (rule_text r)) in *.
    destruct (excluded_by excludes (rule_text r)) eqn:Ex.
    + destruct (IH _ _ _ _ _ _ H) as (H1 & H2 & H3).
      rewrite H1, <- app_assoc. repeat split; auto.
      intros r0 [<- | Hin] Hn; [congruence | auto].
    + bind_inv H. destruct a as [p1 e1].
      destruct (IH _ _ _ _ _ _ H) as (H1 & H2 & H3).
      fold (path_of (rule_text r)) in Ha.
      assert (Hkeep : forall k, dict_has k (dict_set (path_of (rule_text r)) [] paths)
                                = true -> dict_has k p1 = true).
      { intros k Hk. apply (methods_loop_has _ _ _ _ _ k _ _ _ Ha). exact Hk. }
      repeat split; auto.
      * intros k Hk. apply H2, Hkeep. now apply dict_has_set.
      * intros r0 [<- | Hin] Hn; [|auto].
        apply H2, Hkeep. unfold dict_has. now rewrite dict_get_set_eq.
Qed.

(** X15. The entry of a path holds the methods of the last rule of that
    path only: [make_paths] empties the entry when it comes to a rule, so
    that what an earlier rule of the same text recorded is lost.  Every
    method under the path of the last rule is GET or POST of that rule,
    in lower case. *)
Theorem make_paths_last_rule_wins :
  forall (st : interp) (rules : list url_rule) (r : url_rule)
         (excludes : list Re.regex) (gen_opid : bool) (opid_template : string)
         (acc : paths_t * list (string * string) * list string)
         (paths' : paths_t) (errors' : list (string * string))
         (excluded' : list string),
    paths_of st (rules ++ [r]) excludes gen_opid opid_template acc
    = Ok (paths', errors', excluded') ->
    excluded_by excludes (rule_text r) = false ->
    exists ms,
      dict_get (path_of (rule_text r)) paths' = Some ms
      /\ forall (m : string) (spec : json),
           dict_get m ms = Some spec ->
           exists method,
             In method (methods r) /\ served method = true /\ m = lower method.
Proof.
  intros st rules r excludes gen_opid opid_template acc paths' errors' excluded' H Hx.
  rewrite make_paths_app in H. bind_inv H. destruct a as [[p0 e0] x0].
  unfold paths_of in H. simpl in H.
  fold (excluded_by excludes (rule_text r)) in H. rewrite Hx in H.
  bind_inv H. destruct a as [p1 e1]. injection H as <- _ _.
  fold (path_of (rule_text r)) in Ha0.
  destruct (methods_loop_entry _ _ _ _ _ _ _ _ [] Ha0) as (ms & Hm & G).
  - simpl. apply dict_get_set_eq.
  - exists ms. split; auto. intros m spec Hs.
    destruct (G _ _ Hs) as [Hadd | (spec0 & H0)]; [exact Hadd | discriminate].
Qed.

End PathsProperties.

Section PathsWitnesses.
Import PyStr Parser PathsSpec PathScenario PathsScenario.

Lemma make_paths_excludes_by_pattern_witness :
  exists (paths' : paths_t) (excluded' : list string),
    excluded'
    = ([] ++ filter (excluded_by [static_pattern])
                    (List.map rule_text [static_rule; task_rule]))%list
    /\ (forall k, dict_has k (@nil (string * list (string * json))) = true ->
                  dict_has k paths' = true)
    /\ forall r : url_rule,
         In r [static_rule; task_rule] ->
         excluded_by [static_pattern] (rule_text r) = false ->
         dict_has (path_of (rule_text r)) paths' = true.
Proof.
  eexists. eexists.
  eapply (make_paths_excludes_by_pattern
            no_schema no_params no_body json_type no_responses no_text
            run [static_rule; task_rule] [static_pattern] false EmptyString
            [] _ [] _ [] _).
  vm_compute. reflexivity.
Defined.

Lemma make_paths_last_rule_wins_witness :
  exists ms,
    dict_get (path_of (rule_text options_rule)) [("/task/{task_id}", [])] = Some ms
    /\ forall (m : string) (spec : json),
         dict_get m ms = Some spec ->
         exists method,
           In method (methods options_rule) /\ served method = true /\ m = lower method.
Proof.
  eapply (make_paths_last_rule_wins
            no_schema no_params no_body json_type no_responses no_text
            run [task_rule] options_rule [static_pattern] false EmptyString
            ([], [], [])).
  - vm_compute. reflexivity.
  - vm_compute. reflexivity.
Defined.

End PathsWitnesses.

(* ================================================================== *)
(** * Nested lookups *)
(* ================================================================== *)

Section DgetProperties.
Import Models Util.

Lemma dget_app (a b : list key) :
  forall obj : json, dget obj (a ++ b) = (x <- dget obj a ;; dget x b).
Proof.
  induction a as [|k a IH]; simpl; intros obj; [reflexivity|].
  destruct (get obj k) as [v| |]; simpl; auto.
Qed.

(** X16. [dget(obj, *args)] does not stop at a missing key: when the
    keys before lead to a dictionary without the next key, that key gives
    [None] if it is the last one, and an [AttributeError] if more keys
    follow. *)
Theorem dget_missing_key :
  forall (obj : json) (before more : list key) (k : key) (d : list (key * json)),
    dget obj before = Ok (JDict d) -> lookup k d = None ->
    dget obj (before ++ [k]) = Ok JNull
    /\ (more <> [] -> dget obj (before ++ k :: more) = Raise AttributeError).
Proof.
  intros obj before more k d Hb Hk. rewrite !dget_app, Hb. simpl. rewrite Hk.
  split; [reflexivity|]. intros Hm. destruct more; [congruence | reflexivity].
Qed.

Lemma dget_missing_key_witness :
  dget Scenarios.your_model_schema ([KS "properties"] ++ [KS "b_int"]) = Ok JNull
  /\ ([KS "type"] <> [] ->
      dget Scenarios.your_model_schema ([KS "properties"] ++ KS "b_int" :: [KS "type"])
      = Raise AttributeError).
Proof.
  eapply (dget_missing_key Scenarios.your_model_schema [KS "properties"] [KS "type"]
                           (KS "b_int")).
  - vm_compute. reflexivity.
  - vm_compute. reflexivity.
Defined.

End DgetProperties.

(* ================================================================== *)
(** * What a pattern matches *)
(* ================================================================== *)

Module ReFacts.
Import PyStr TextFacts.

(** The texts a pattern can match, positions and groups set aside. *)
Inductive lang : Re.regex -> string -> Prop :=
| LChr (p : ascii -> bool) (c : ascii) :
    p c = true -> lang (Re.Chr p) (String c EmptyString)
| LEps : lang Re.Eps EmptyString
| LCat (a b : Re.regex) (u v : string) :
    lang a u -> lang b v -> lang (Re.Cat a b) (u ++ v)
| LAltL (a b : Re.regex) (u : string) : lang a u -> lang (Re.Alt a b) u
| LAltR (a b : Re.regex) (u : string) : lang b u -> lang (Re.Alt a b) u
| LStarNil (g : bool) (a : Re.regex) : lang (Re.Star g a) EmptyString
| LStarCons (g : bool) (a : Re.regex) (u v : string) :
    lang a u -> lang (Re.Star g a) v -> lang (Re.Star g a) (u ++ v)
| LGroup (n : nat) (a : Re.regex) (u : string) : lang a u -> lang (Re.Group n a) u
| LBol : lang Re.Bol EmptyString
| LEol : lang Re.Eol EmptyString.

(** What the matcher finds is a text of the pattern, at the front of the
    subject. *)
Lemma run_sound (r : Re.regex) :
  forall (A : Type) (total : nat) (s : string) (cs : Re.caps)
         (k : string -> Re.caps -> option A) (x : A),
    Re.run r total s cs k = Some x ->
    exists u s' cs', s = u ++ s' /\ lang r u /\ k s' cs' = Some x.
Proof.
  induction r as [p | | a IHa b IHb | a IHa b IHb | g a IHa | n a IHa | |];
    intros A total s cs k x H.
  - (* one character *)
    simpl in H. destruct s as [|c s]; [discriminate|].
    destruct (p c) eqn:Ep; [|discriminate].
    exists (String c EmptyString), s, cs. repeat split; auto. now constructor.
  - exists EmptyString, s, cs. repeat split; auto. constructor.
  - simpl in H. apply IHa in H. destruct H as (u & s1 & cs1 & -> & Hu & H).
    apply IHb in H. destruct H as (v & s2 & cs2 & -> & Hv & H).
    exists (u ++ v), s2, cs2. rewrite append_assoc. repeat split; auto.
    now constructor.
  - simpl in H. destruct (Re.run a total s cs k) eqn:Ea.
    + injection H as <-. apply IHa in Ea.
      destruct Ea as (u & s1 & cs1 & -> & Hu & H).
      exists u, s1, cs1. repeat split; auto. now apply LAltL.
    + apply IHb in H. destruct H as (u & s1 & cs1 & -> & Hu & H).
      exists u, s1, cs1. repeat split; auto. now apply LAltR.
  - (* repetition: by induction on the turns left *)
    simpl in H. revert x H. generalize (String.length s) at 1. intros fuel.
    revert s cs. induction fuel as [|fuel IHf]; intros s cs x H.
    + exists EmptyString, s, cs. repeat split; auto. constructor.
    + assert (Hagain :
                forall y, Re.run a total s cs
                            (fun s' cs' =>
                               if String.length s' <? String.length s
                               then (fix loop (fuel : nat) (s : string) (cs : Re.caps)
                                       {struct fuel} : option A :=
                                       match fuel with
                                       | O => k s cs
                                       | S fuel' =>
                                           let again :=
                                             Re.run a total s cs
                                                    (fun s' cs' =>
                                                       if String.length s' <? String.length s
                                                       then loop fuel' s' cs' else None) in
                                           if g then
                                             match again with
                                             | Some x => Some x
                                             | None => k s cs
                                             end
                                           else
                                             match k s cs with
                                             | Some x => Some x
                                             | None => again
                                             end
                                       end) fuel s' cs'
                               else None) = Some y ->
                          exists u s' cs', s = u ++ s' /\ lang (Re.Star g a) u
                                           /\ k s' cs' = Some y).
      { intros y Hy. apply IHa in Hy. destruct Hy as (u & s1 & cs1 & -> & Hu & Hy).
        destruct (String.length s1 <? String.length (u ++ s1)); [|discriminate].
        apply IHf in Hy. destruct Hy as (v & s2 & cs2 & -> & Hv & Hy).
        exists (u ++ v), s2, cs2. rewrite append_assoc. repeat split; auto.
        now constructor. }
      cbv zeta in H. destruct g.
      * destruct (Re.run a total s cs _) eqn:Ea.
        -- injection H as <-. now apply Hagain.
        -- exists EmptyString, s, cs. repeat split; auto. constructor.
      * destruct (k s cs) eqn:Ek.
        -- injection H as <-. exists EmptyString, s, cs. repeat split; auto.
           constructor.
        -- now apply Hagain.
  - simpl in H. apply IHa in H. destruct H as (u & s1 & cs1 & -> & Hu & H).
    exists u, s1. eexists. repeat split; eauto. now constructor.
  - simpl in H. destruct (String.length s =? total); [|discriminate].
    exists EmptyString, s, cs. repeat split; auto. constructor.
  - simpl in H.
    assert (Hk : k s cs = Some x).
    { destruct s as [|c [|d s]]; auto; [|discriminate].
      destruct (Ascii.eqb c nl); [auto | discriminate]. }
    exists EmptyString, s, cs. repeat split; auto. constructor.
Qed.

Lemma rmatch_sound (r : Re.regex) (s : string) (f : Re.found) :
  Re.rmatch r s = Some f ->
  exists u, s = u ++ Re.after f /\ lang r u.
Proof.
  unfold Re.rmatch, Re.match_at. intros H. apply run_sound in H.
  destruct H as (u & s' & cs' & -> & Hu & H). injection H as <-. simpl. eauto.
Qed.

Lemma matches_sound (r : Re.regex) (s : string) :
  Re.matches r s = true -> exists u v, s = u ++ v /\ lang r u.
Proof.
  unfold Re.matches. destruct (Re.rmatch r s) eqn:E; [|discriminate].
  intros _. apply rmatch_sound in E. destruct E as (u & -> & Hu). eauto.
Qed.

End ReFacts.

(* ================================================================== *)
(** * Responses left to other functions *)
(* ================================================================== *)

Module IndirectionFacts.
Import PyStr PyText TextFacts ReFacts Parser Redirects.

#[local] Arguments Ascii.eqb : simpl never.

Lemma mem_char_app (c : ascii) (a b : string) :
  mem_char c (a ++ b) = mem_char c a || mem_char c b.
Proof. induction a as [|d a IH]; simpl; [reflexivity|]. now rewrite IH, orb_assoc. Qed.

Lemma mem_char_rev (c : ascii) (s : string) : mem_char c (rev_str s) = mem_char c s.
Proof.
  induction s as [|d s IH]; simpl; [reflexivity|].
  rewrite mem_char_app, IH. simpl. rewrite orb_false_r. apply orb_comm.
Qed.

Lemma mem_char_lstrip_by (p : ascii -> bool) (c : ascii) (s : string) :
  p c = false -> mem_char c (lstrip_by p s) = mem_char c s.
Proof.
  intros Hp. induction s as [|d s IH]; simpl; [reflexivity|].
  destruct (p d) eqn:Ed; [|reflexivity].
  rewrite IH. destruct (Ascii.eqb c d) eqn:E; [|reflexivity].
  apply Ascii.eqb_eq in E. congruence.
Qed.

Lemma mem_char_strip_by (p : ascii -> bool) (c : ascii) (s : string) :
  p c = false -> mem_char c (strip_by p s) = mem_char c s.
Proof.
  intros Hc. unfold strip_by, rstrip_by.
  rewrite mem_char_rev, mem_char_lstrip_by, mem_char_rev, mem_char_lstrip_by; auto.
Qed.

Lemma mem_char_strip (c : ascii) (s : string) :
  isspace c = false -> mem_char c (strip s) = mem_char c s.
Proof. apply mem_char_strip_by. Qed.

(** A text that [int] reads holds no colon. *)
Lemma digits_colon (s : string) :
  forall (prev : bool) (acc z : Z),
    digits prev acc s = Some z -> mem_char ":" s = false.
Proof.
  induction s as [|c s IH]; simpl; intros prev acc z H; [reflexivity|].
  destruct (isdigit c) eqn:Ed.
  - rewrite (IH _ _ _ H), orb_false_r.
    destruct (Ascii.eqb ":" c) eqn:E; [|reflexivity].
    apply Ascii.eqb_eq in E. subst c. discriminate.
  - destruct (Ascii.eqb c "_" && prev) eqn:Eu; [|discriminate].
    rewrite (IH _ _ _ H), orb_false_r.
    apply andb_true_iff in Eu. destruct Eu as [Eu _].
    apply Ascii.eqb_eq in Eu. subst c. reflexivity.
Qed.

Lemma unsigned_colon (s : string) (z : Z) :
  unsigned s = Some z -> mem_char ":" s = false.
Proof.
  destruct s as [|c s]; simpl; [discriminate|].
  destruct (isdigit c) eqn:Ed; [|discriminate]. intros H.
  rewrite (digits_colon _ _ _ _ H), orb_false_r.
  destruct (Ascii.eqb ":" c) eqn:E; [|reflexivity].
  apply Ascii.eqb_eq in E. subst c. discriminate.
Qed.

Lemma int_colon (s : string) (z : Z) : int s = Ok z -> mem_char ":" s = false.
Proof.
  unfold int. intros H. rewrite <- (mem_char_strip_by int_space ":" s) by reflexivity.
  destruct (strip_by int_space s) as [|c t]; [discriminate|].
  destruct (Ascii.eqb c "-") eqn:Em.
  - apply Ascii.eqb_eq in Em. subst c.
    destruct (unsigned t) eqn:Eu; [|discriminate].
    simpl. now rewrite (unsigned_colon _ _ Eu).
  - destruct (Ascii.eqb c "+") eqn:Ep.
    + apply Ascii.eqb_eq in Ep. subst c.
      destruct (unsigned t) eqn:Eu; [|discriminate].
      simpl. now rewrite (unsigned_colon _ _ Eu).
    + destruct (unsigned (String c t)) eqn:Eu; [|discriminate].
      now rewrite (unsigned_colon _ _ Eu).
Qed.

(** A text that [ref_regex] matches holds a colon. *)
Lemma ref_regex_colon (s : string) :
  Re.matches ref_regex s = true -> mem_char ":" s = true.
Proof.
  intros H. apply matches_sound in H. destruct H as (u & v & -> & Hu).
  rewrite mem_char_app. apply orb_true_iff. left.
  unfold ref_regex in Hu. cbn [Re.cat Re.str Re.plus] in Hu.
  inversion Hu as [| |a b u1 u2 H1 H2| | | | | | |]; subst. clear Hu H1.
  inversion H2 as [| |a b u3 u4 H3 H4| | | | | | |]; subst. clear H2 H4.
  inversion H3 as [| | | | | | |n a u5 H5| |]; subst. clear H3.
  inversion H5 as [| |a b u6 u7 H6 H7| | | | | | |]; subst. clear H5 H7.
  inversion H6 as [| |a b u8 u9 H8 H9| | | | | | |]; subst. clear H6 H9.
  inversion H8 as [p c Hc| | | | | | | | |]; subst. clear H8.
  unfold Re.lit in *.
  match goal with
  | E : Ascii.eqb _ c = true |- _ => apply Ascii.eqb_eq in E; subst c
  end.
  rewrite !mem_char_app. simpl. now rewrite orb_true_r.
Qed.

End IndirectionFacts.

Section IndirectionProperties.
Import PyStr PyText Parser Redirects IndirectionFacts IndirectionScenario.

(** X17. [check_indirection(response_str)] gives a status and a
    description only for a text whose parentheses hold three fields at
    least, separated by commas: with two fields the first would have to
    be a reference and a number at once.  The status is [int] of the
    first field, the description the second field without its quotes. *)
Theorem check_indirection_needs_three_fields :
  forall (response_str : string) (code : Z) (desc : string),
    check_indirection response_str = Ok (Some (code, desc)) ->
    exists m,
      Re.rmatch call_regex response_str = Some m
      /\ (let inner :=
            List.map strip (split_char "," None (Re.group 1 (Re.groups m))) in
          3 <= length inner
          /\ int (nth 0 inner EmptyString) = Ok code
          /\ desc = replace double_quote EmptyString
                            (replace "'" EmptyString (nth 1 inner EmptyString))).
Proof.
  intros s code desc H. unfold check_indirection in H.
  destruct (Re.rmatch call_regex s) as [m|]; [|discriminate].
  exists m. split; [reflexivity|]. cbv zeta.
  set (inner := List.map strip _) in *.
  bind_inv H. destruct a as [type_field schema_field].
  destruct (Re.matches ref_regex type_field && Re.matches ref_regex schema_field)
    eqn:Er; [|discriminate].
  bind_inv H. injection H as <- <-.
  apply andb_true_iff in Er. destruct Er as [Et _].
  repeat split; auto.
  (* two fields: the first one is the type field *)
  unfold last_two in Ha.
  destruct (rev inner) as [|b [|a1 rest]] eqn:Ei; try discriminate.
  injection Ha as E1 E2. subst a1 b.
  assert (El : inner = (rev rest ++ [type_field; schema_field])%list).
  { rewrite <- (rev_involutive inner), Ei. simpl. now rewrite <- app_assoc. }
  destruct (rev rest) as [|x xs] eqn:Ex.
  - exfalso. rewrite El in Ha0. simpl in Ha0.
    apply int_colon in Ha0. apply ref_regex_colon in Et. congruence.
  - rewrite El. simpl. rewrite length_app. simpl. lia.
Qed.

Lemma check_indirection_needs_three_fields_witness :
  exists m,
    Re.rmatch call_regex delegated = Some m
    /\ (let inner :=
          List.map strip (split_char "," None (Re.group 1 (Re.groups m))) in
        3 <= length inner
        /\ int (nth 0 inner EmptyString) = Ok 200%Z
        /\ "Initiated Task"
           = replace double_quote EmptyString
                     (replace "'" EmptyString (nth 1 inner EmptyString))).
Proof.
  apply (check_indirection_needs_three_fields delegated 200%Z "Initiated Task").
  vm_compute. reflexivity.
Defined.

End IndirectionProperties.

(* ================================================================== *)
(** * The parameter token of an operation identifier *)
(* ================================================================== *)

Module OpIdFacts.
Import PyStr TextFacts Parser OpIdSpec.

#[local] Arguments Ascii.eqb : simpl never.
#[local] Arguments String.eqb : simpl never.

(** ** Texts without a percent sign *)

Lemma lower_char_percent (c : ascii) :
  Ascii.eqb "%" (lower_char c) = Ascii.eqb "%" c.
Proof. destruct c as [[] [] [] [] [] [] [] []]; reflexivity. Qed.

Lemma upper_char_percent (c : ascii) :
  Ascii.eqb "%" (upper_char c) = Ascii.eqb "%" c.
Proof. destruct c as [[] [] [] [] [] [] [] []]; reflexivity. Qed.

Lemma pfree_map_str (f : ascii -> ascii) (s : string) :
  (forall c, Ascii.eqb "%" (f c) = Ascii.eqb "%" c) ->
  mem_char "%" (map_str f s) = mem_char "%" s.
Proof. intros Hf. induction s as [|c s IH]; simpl; [reflexivity|]. now rewrite Hf, IH. Qed.

Lemma pfree_lower (s : string) : pfree s -> pfree (lower s).
Proof. unfold pfree, lower. now rewrite (pfree_map_str _ _ lower_char_percent). Qed.

Lemma pfree_upper (s : string) : pfree s -> pfree (upper s).
Proof. unfold pfree, upper. now rewrite (pfree_map_str _ _ upper_char_percent). Qed.

Lemma pfree_and_capitalize (s : string) : pfree s -> pfree (and_capitalize s).
Proof.
  unfold pfree, and_capitalize, capitalize. destruct s as [|c s]; simpl; auto.
  now rewrite upper_char_percent.
Qed.

Lemma pfree_title_aux (s : string) :
  forall b : bool, mem_char "%" (title_aux b s) = mem_char "%" s.
Proof.
  induction s as [|c s IH]; simpl; intros b; [reflexivity|].
  rewrite IH. f_equal.
  destruct (isupper c || islower c); [destruct b|];
    auto using lower_char_percent, upper_char_percent.
Qed.

(** Removing the underscores brings in no percent sign. *)
Lemma pfree_replace_underscore (fuel : nat) :
  forall s : string, pfree s -> pfree (replace_aux fuel "_" EmptyString s).
Proof.
  unfold pfree. induction fuel as [|fuel IH]; simpl; intros s H; [exact H|].
  destruct s as [|c s]; [reflexivity|].
  simpl in H. apply orb_false_iff in H. destruct H as [H1 H2].
  destruct (Ascii.eqb "_" c); simpl.
  - now apply IH.
  - now rewrite H1, IH.
Qed.

Lemma pfree_capital_case (s : string) : pfree s -> pfree (capital_case s).
Proof.
  intros H. unfold capital_case, replace. apply pfree_replace_underscore.
  unfold pfree, title. now rewrite pfree_title_aux.
Qed.

Lemma pfree_camel_case (s m : string) : pfree s -> camel_case s = Ok m -> pfree m.
Proof.
  intros H. unfold camel_case. pose proof (pfree_capital_case _ H) as Hc.
  destruct (capital_case s) as [|c t]; [discriminate|].
  intros E. injection E as <-. unfold pfree in *. simpl in *.
  now rewrite lower_char_percent.
Qed.

(** The pieces of a text without percent sign have none. *)
Lemma pfree_piece (sep : ascii) (s line : string) :
  pfree s -> In line (split_char sep None s) -> pfree line.
Proof.
  unfold pfree. intros Hs Hin. apply split_char_aux_part in Hin.
  destruct Hin as (pre & post & E). simpl in E. subst s.
  rewrite !IndirectionFacts.mem_char_app in Hs.
  apply orb_false_iff in Hs. destruct Hs as [_ Hs].
  apply orb_false_iff in Hs. now destruct Hs.
Qed.

Lemma pfree_hd (l : list string) :
  (forall x, In x l -> pfree x) -> pfree (hd EmptyString l).
Proof. destruct l; simpl; intros H; [reflexivity | apply H; now left]. Qed.

Lemma pfree_last_of (l : list string) :
  (forall x, In x l -> pfree x) -> pfree (last_of l).
Proof.
  unfold last_of. induction l as [|x l IH]; intros H; [reflexivity|].
  destruct l as [|y l]; [apply H; now left|].
  change (pfree (List.last (y :: l) EmptyString)). apply IH.
  intros z Hz. apply H. now right.
Qed.

(** ** The loop of [template_subroutine] *)

(** [x[i] = v] *)
Lemma set_nth_cons (v y : string) (x : list string) (i : nat) :
  set_nth (S i) v (y :: x) = y :: set_nth i v x.
Proof. reflexivity. Qed.

Lemma index_lt (c : string) (x : list string) :
  forall i, index c x = Some i -> i < length x /\ nth i x EmptyString = c.
Proof.
  induction x as [|y x IH]; simpl; intros i H; [discriminate|].
  destruct (String.eqb y c) eqn:E.
  - injection H as <-. apply String.eqb_eq in E. split; [lia | exact E].
  - destruct (index c x) as [j|]; [|discriminate]. injection H as <-.
    destruct (IH _ eq_refl) as [H1 H2]. split; [lia | exact H2].
Qed.

(** Writing elsewhere a text that is not the token, up to case, leaves
    the first place of the token where it is. *)
Lemma index_set_nth (k v : string) (x : list string) :
  String.eqb (lower v) k = false ->
  forall i j,
    index k (List.map lower x) = Some i -> j < length x -> j <> i ->
    index k (List.map lower (set_nth j v x)) = Some i
    /\ nth i (set_nth j v x) EmptyString = nth i x EmptyString.
Proof.
  intros Hv. induction x as [|y x IH]; intros i j Hi Hj Hne; [simpl in Hj; lia|].
  simpl in Hi. destruct j as [|j].
  - (* the first place is written: the token is further on *)
    unfold set_nth. simpl. rewrite Hv.
    destruct (String.eqb (lower y) k); [injection Hi as <-; congruence|].
    destruct (index k (List.map lower x)) as [i'|]; [|discriminate].
    injection Hi as <-. auto.
  - rewrite set_nth_cons. simpl.
    destruct (String.eqb (lower y) k) eqn:E.
    + injection Hi as <-. auto.
    + destruct (index k (List.map lower x)) as [i'|] eqn:Ei; [|discriminate].
      injection Hi as <-. simpl in Hj.
      destruct (IH i' j eq_refl) as [H1 H2]; [lia | congruence|].
      rewrite H1. auto.
Qed.

Lemma lower_not_token (v : string) : pfree v -> String.eqb (lower v) "%p" = false.
Proof.
  intros H. apply pfree_lower in H. destruct (String.eqb (lower v) "%p") eqn:E; auto.
  apply String.eqb_eq in E. rewrite E in H. discriminate.
Qed.

(** A component of text, under another token than the one of the
    parameters. *)
Definition plain_component (cv : string * component) : Prop :=
  exists s, snd cv = CStr s /\ pfree s /\ String.eqb (fst cv) "%p" = false.

Lemma template_loop_params (params : list string) (prefix : string)
      (after : list (string * component)) (before : list (string * component)) :
  Forall plain_component before ->
  forall (x : list string) (i : nat),
    index "%p" (List.map lower x) = Some i -> nth i x EmptyString = "%p" ->
    template_loop (before ++ ("%p", CList params) :: after) x prefix
    = join prefix params.
Proof.
  intros Hb. induction Hb as [|[c v] before (s & Hs & Hp & Hc) Hb IH];
    intros x i Hi Hn.
  - simpl. rewrite Hi, Hn. reflexivity.
  - simpl in Hs, Hc. subst v.
    change (((c, CStr s) :: before) ++ ("%p", CList params) :: after)%list
      with ((c, CStr s) :: (before ++ ("%p", CList params) :: after))%list.
    cbn [template_loop].
    destruct (index c (List.map lower x)) as [j|] eqn:Ej; [|now apply (IH x i)].
    assert (Hj : j < length x /\ j <> i).
    { destruct (index_lt _ _ _ Ej) as [H1 H2]. rewrite length_map in H1.
      split; auto. intros ->.
      destruct (index_lt _ _ _ Hi) as [_ H3]. rewrite H3 in H2. subst c.
      discriminate. }
    destruct Hj as [Hj Hne].
    assert (Hset : forall v, pfree v ->
                             template_loop (before ++ ("%p", CList params) :: after)
                                           (set_nth j v x) prefix
                             = join prefix params).
    { intros v Hv.
      destruct (index_set_nth "%p" v x (lower_not_token _ Hv) i j Hi Hj Hne)
        as [H1 H2].
      apply (IH _ i); congruence. }
    destruct (String.eqb (nth j x EmptyString) "%h");
      [apply Hset; now apply pfree_lower|].
    destruct (String.eqb (nth j x EmptyString) "%H");
      [apply Hset; now apply pfree_upper|].
    destruct (String.eqb (nth j x EmptyString) (upper c));
      [apply Hset; now apply pfree_and_capitalize | now apply Hset].
Qed.

(** ** Templates without brackets *)

Lemma mem_char_filter_str (p : ascii -> bool) (c : ascii) (s : string) :
  mem_char c s = false -> mem_char c (filter_str p s) = false.
Proof.
  induction s as [|d s IH]; simpl; intros H; [reflexivity|].
  apply orb_false_iff in H. destruct H as [H1 H2].
  destruct (p d); simpl; [now rewrite H1, IH | auto].
Qed.

Lemma contains_first (c : ascii) (sub s : string) :
  mem_char c s = false -> contains (String c sub) s = false.
Proof.
  induction s as [|d s IH]; simpl; intros H; [reflexivity|].
  apply orb_false_iff in H. destruct H as [H1 H2].
  now rewrite H1, IH.
Qed.

Lemma search_from_group_regex (s : string) :
  mem_char "[" s = false ->
  forall (total : nat) (pre : string), Re.search_from group_regex total pre s = None.
Proof.
  induction s as [|c s IH]; intros H total pre.
  - reflexivity.
  - simpl in H. apply orb_false_iff in H. destruct H as [H1 H2].
    cbn [Re.search_from]. rewrite (IH H2).
    unfold Re.match_at, group_regex.
    cbn [Re.cat Re.str Re.run Re.lit]. now rewrite H1.
Qed.

Lemma findall_group_regex (s : string) :
  mem_char "[" s = false -> Re.findall group_regex s = [].
Proof.
  intros H. unfold Re.findall, Re.scan_all. cbn [Re.scan].
  unfold Re.search. now rewrite search_from_group_regex.
Qed.

(** ** The token of the parameters *)

Lemma lower_char_is_percent (c : ascii) : lower_char c = "%"%char -> c = "%"%char.
Proof. destruct c as [[] [] [] [] [] [] [] []]; intros H; try discriminate; reflexivity. Qed.

Lemma lower_char_is_p (c : ascii) :
  lower_char c = "p"%char -> c = "p"%char \/ c = "P"%char.
Proof.
  destruct c as [[] [] [] [] [] [] [] []]; intros H; try discriminate; auto.
Qed.

Lemma lower_is_token (y : string) : lower y = "%p" -> y = "%p" \/ y = "%P".
Proof.
  destruct y as [|a [|b [|c y]]]; try discriminate.
  unfold lower. cbn [map_str]. intros H. injection H as Ha Hb.
  apply lower_char_is_percent in Ha. subst a.
  destruct (lower_char_is_p _ Hb) as [-> | ->]; auto.
Qed.

Lemma token_place (x : list string) :
  In "%p" x -> ~ In "%P" x ->
  exists i, index "%p" (List.map lower x) = Some i /\ nth i x EmptyString = "%p".
Proof.
  induction x as [|y x IH]; intros Hin Hnot; [destruct Hin|].
  cbn [List.map index].
  destruct (String.eqb (lower y) "%p") eqn:E.
  - exists 0. split; auto. apply String.eqb_eq in E.
    destruct (lower_is_token _ E) as [-> | ->]; [reflexivity|].
    exfalso. apply Hnot. now left.
  - destruct IH as (i & Hi & Hn).
    + destruct Hin as [-> | Hin]; [vm_compute in E; discriminate | exact Hin].
    + intros H. apply Hnot. now right.
    + exists (S i). rewrite Hi. auto.
Qed.

End OpIdFacts.

Section OpIdProperties.
Import PyStr Parser OpIdSpec OpIdFacts OpIdScenario.

(** X18. A token [%p] of the template outside brackets ends
    [get_opId]: for a template without bracket that holds the token [%p]
    (and no [%P]), the operation identifier is the parameters put end to
    end and nothing else; what the other tokens and the text around them
    stand for is dropped.  (The names the identifier is made of hold no
    percent sign.) *)
Theorem get_opId_parameters_only :
  forall (name : string) (func : pyobj) (redir_func : option pyobj)
         (params : list string) (method template opid : string),
    mem_char "[" template = false ->
    In "%p" (Re.split token_regex template) ->
    ~ In "%P" (Re.split token_regex template) ->
    pfree (__module__ func) -> pfree (__name__ func) -> pfree (__qualname__ func) ->
    (forall rf, redir_func = Some rf -> pfree (__qualname__ rf)) ->
    pfree name ->
    get_opId name func redir_func params method template = Ok opid ->
    opid = join EmptyString params.
Proof.
  intros name func redir_func params method template opid
         Hb Hin Hnot Hmod Hname Hqual Hredir Hroute H.
  unfold get_opId in H.
  destruct (negb (truthy template)); [discriminate|].
  rewrite contains_first in H by now apply mem_char_filter_str.
  rewrite (findall_group_regex _ Hb) in H.
  bind_inv H. rename a into m. injection H as <-.
  cbn [render_groups]. unfold template_subroutine.
  destruct (token_place (filter truthy (Re.split token_regex template)))
    as (i & Hi & Hn).
  { apply filter_In. split; [exact Hin | reflexivity]. }
  { intros Hf. apply filter_In in Hf. now destruct Hf. }
  assert (Hpieces : forall sep s x, pfree s -> In x (split_char sep None s) -> pfree x).
  { intros sep s x Hs Hx. eapply pfree_piece; eauto. }
  match goal with
  | |- template_loop [?c1; ?c2; ?c3; ?c4; ?c5; ?c6; ?c7] _ _ = _ =>
      change [c1; c2; c3; c4; c5; c6; c7] with ([c1; c2; c3; c4; c5] ++ c6 :: [c7])%list
  end.
  apply (template_loop_params _ _ _ _) with (i := i); auto.
  repeat constructor; eexists; (split; [reflexivity|]); (split; [|reflexivity]);
    cbn [fst snd].
  - exact (pfree_camel_case _ _ Hmod Ha).
  - destruct (_ && _); [reflexivity|].
    destruct (1 <? _); [|reflexivity].
    apply pfree_hd. intros x Hx. exact (Hpieces _ _ _ Hqual Hx).
  - destruct (_ && _); [reflexivity | exact Hname].
  - destruct (_ && _); [reflexivity|].
    destruct redir_func as [rf|]; [|reflexivity].
    apply pfree_last_of. intros x Hx. eapply Hpieces; [|exact Hx]. now apply Hredir.
  - apply pfree_last_of. intros x Hx. exact (Hpieces _ _ _ Hroute Hx).
Qed.

Lemma get_opId_parameters_only_witness :
  "task_id" = join EmptyString ["task_id"].
Proof.
  apply (get_opId_parameters_only "/get_stuff/<task_id>" bleh_annot None ["task_id"]
                                  "GET" "%M%R%p%H" "task_id");
    try reflexivity.
  - vm_compute. do 5 right. left. reflexivity.
  - vm_compute. intuition discriminate.
  - discriminate.
Defined.

End OpIdProperties.

(* ================================================================== *)
(** * Docstrings without section *)
(* ================================================================== *)

Module PlainFacts.
Import PyStr Docstring DocstringSpec DocstringFacts.

#[local] Arguments dict_get : simpl never.
#[local] Arguments Re.matches : simpl never.

Lemma parse_step_sections (st : pstate) (line : string) (after : list string) :
  no_headers (rest st) = true -> rest st = line :: after ->
  exists st', parse_step st = Ok st'
              /\ no_headers (rest st') = true
              /\ (no_section (doc st) -> no_section (doc st')).
Proof.
  intros Hn E.
  assert (Hok : exists st', parse_step st = Ok st'
                            /\ (no_section (doc st) -> no_section (doc st'))).
  { unfold parse_step. rewrite E. pose proof Hn as Hn'. rewrite E in Hn'.
    unfold no_headers in Hn'. simpl in Hn'. apply andb_true_iff in Hn'.
    destruct Hn' as [Hl _].
    destruct (_is_section_header line after); try discriminate.
    destruct (negb (parsed st)).
    - destruct (_consume_contiguous (line :: after)) as [l1 r1].
      destruct (_consume_empty r1) as [l2 r2].
      eexists. split; [reflexivity|]. simpl. auto.
    - destruct (_consume_to_next_section false 0 _). eauto. }
  destruct Hok as (st' & H & Hd). exists st'.
  split; [exact H|]. split; [|exact Hd].
  pose proof (parse_step_progress _ _ _ _ E H) as Hl.
  eapply all_headers_left; [apply left_of_cons; exact Hl|].
  rewrite <- E. exact Hn.
Qed.

(** Without header, the parser returns an object without section. *)
Lemma of_lines_no_section (lines : list string) :
  no_headers (List.map rstrip lines) = true ->
  exists d, of_lines lines = Ok d /\ no_section d.
Proof.
  unfold of_lines, _parse. generalize (List.map rstrip lines). clear lines.
  intros ls Hn. rewrite _consume_empty_spec.
  set (st0 := mkState _ _ _).
  destruct (parse_loop_ok (fun s => no_headers (rest s) = true /\ no_section (doc s)))
    with (fuel := length (drop_while blank ls)) (st := st0)
    as (st' & H & (_ & Hs) & _).
  - intros s line after [H1 H2] E.
    destruct (parse_step_sections s line after H1 E) as (s' & Hs & Hn' & Hd).
    exists s'. auto.
  - unfold st0. simpl. split.
    + eapply all_headers_left; [|exact Hn].
      exists (take_while blank ls). apply take_drop_while.
    + repeat split; reflexivity.
  - unfold st0. simpl rest. auto.
  - rewrite H. simpl. eauto.
Qed.

End PlainFacts.

Section PlainProperties.
Import PyStr Docstring DocstringSpec Parser PlainFacts PlainScenario.

(** X19. For a function whose docstring has no section header, the
    readers of [get_specs_for_path] find nothing: [check_function_redirect]
    gives no variable and no redirect, [get_requests] the empty request
    and [get_tags] no tag; none of them raises. *)
Theorem plain_docstring_reads_empty :
  forall (func : pyobj) (text rulename : string),
    __doc__ func = Some text ->
    no_headers (List.map rstrip (splitlines text)) = true ->
    check_function_redirect (__doc__ func) rulename = Ok (EmptyString, EmptyString)
    /\ get_requests func = Ok []
    /\ get_tags func = Ok [].
Proof.
  intros func text rulename Hd Hn.
  destruct (of_lines_no_section _ Hn) as (d & Hp & Hs).
  destruct Hs as (_ & _ & Ht & Hm & _ & Hr & _).
  unfold check_function_redirect, get_requests, get_tags. rewrite Hd.
  unfold of_string. rewrite Hp. simpl bind. rewrite Hm, Hr, Ht.
  destruct (truthy text); auto.
Qed.

Lemma plain_docstring_reads_empty_witness :
  check_function_redirect (__doc__ greet) "/greet" = Ok (EmptyString, EmptyString)
  /\ get_requests greet = Ok []
  /\ get_tags greet = Ok [].
Proof.
  apply (plain_docstring_reads_empty greet DocstringScenario.two_paragraphs "/greet").
  - reflexivity.
  - vm_compute. reflexivity.
Defined.

End PlainProperties.

(* ================================================================== *)
(** * Aliases without anchor *)
(* ================================================================== *)

Module AliasFacts.
Import PyStr PyText TextFacts Openapi.

#[local] Arguments Ascii.eqb : simpl never.

Lemma startswith_before (sep : ascii) (sub : string) :
  mem_char sep sub = false ->
  forall a b : string,
    startswith sub (a ++ String sep b) = true -> startswith sub a = true.
Proof.
  induction sub as [|p sub IH]; intros Hs a b H; [reflexivity|].
  simpl in Hs. apply orb_false_iff in Hs. destruct Hs as [Hp Hs].
  destruct a as [|x a]; simpl in *.
  - apply andb_true_iff in H. destruct H as [H _].
    apply Ascii.eqb_eq in H. subst p. now rewrite Ascii.eqb_refl in Hp.
  - apply andb_true_iff in H. destruct H as [H1 H2].
    rewrite H1. simpl. eapply IH; eauto.
Qed.

(** A text without the separator lies on one side of it. *)
Lemma contains_beside (sep : ascii) (sub : string) :
  mem_char sep sub = false ->
  forall a b : string,
    contains sub (a ++ String sep b) = true ->
    contains sub a = true \/ contains sub b = true.
Proof.
  intros Hs. induction a as [|x a IH]; intros b H.
  - simpl in H. apply orb_true_iff in H. destruct H as [H | H]; [|now right].
    left. destruct sub as [|p sub]; [reflexivity|].
    simpl in Hs, H. apply orb_false_iff in Hs. destruct Hs as [Hp _].
    apply andb_true_iff in H. destruct H as [H _].
    apply Ascii.eqb_eq in H. subst p. now rewrite Ascii.eqb_refl in Hp.
  - change (String x a ++ String sep b) with (String x (a ++ String sep b)) in H.
    cbn [contains] in H. apply orb_true_iff in H. destruct H as [H | H].
    + left. cbn [contains].
      change (String x (a ++ String sep b)) with (String x a ++ String sep b) in H.
      now rewrite (startswith_before sep sub Hs _ _ H).
    + destruct (IH _ H) as [Ha | Hb]; [|now right].
      left. cbn [contains]. rewrite Ha. apply orb_true_r.
Qed.

(** A text without the separator that the whole holds is held by one of
    the pieces. *)
Lemma contains_piece (sep : ascii) (sub : string) :
  mem_char sep sub = false ->
  forall s acc : string,
    contains sub (rev_str acc ++ s) = true ->
    exists line, In line (split_char_aux sep None acc s) /\ contains sub line = true.
Proof.
  intros Hs. induction s as [|c s IH]; intros acc H.
  - rewrite append_nil_r in H. exists (rev_str acc). split; [now left | exact H].
  - cbn [split_char_aux]. destruct (Ascii.eqb c sep) eqn:E.
    + apply Ascii.eqb_eq in E. subst c.
      destruct (contains_beside sep sub Hs _ _ H) as [Ha | Hb].
      * exists (rev_str acc). split; [now left | exact Ha].
      * destruct (IH EmptyString Hb) as (line & Hin & Hl).
        exists line. split; [now right | exact Hl].
    + apply IH. simpl. now rewrite append_assoc.
Qed.

Lemma aliases_dangling (splits : list string) :
  (exists x, In x splits /\ contains "*id" x = true) ->
  aliases splits [] = Raise ValueError \/ aliases splits [] = Raise KeyError.
Proof.
  induction splits as [|x splits IH]; intros (y & Hin & Hy); [destruct Hin|].
  cbn [aliases]. destruct (contains "*id" x) eqn:Ex.
  - destruct (unpack2 _) as [[name _id]| e |] eqn:Eu.
    + right. reflexivity.
    + left. unfold unpack2 in Eu.
      destruct (List.map strip (split_on ": " x)) as [|a [|b [|c l]]];
        try discriminate; now injection Eu as <-.
    + unfold unpack2 in Eu.
      destruct (List.map strip (split_on ": " x)) as [|a [|b [|c l]]]; discriminate.
  - destruct Hin as [-> | Hin]; [congruence|].
    destruct IH as [-> | ->]; eauto.
Qed.

End AliasFacts.

Section AliasProperties.
Import PyStr PyText Openapi TextFacts AliasFacts.



End AliasProperties.

(* ================================================================== *)
(** * The models added to the definitions *)
(* ================================================================== *)

Module MissingFacts.
Import PyStr Models ModelsFacts Util Openapi HooksFacts.

(** The dictionary has an entry of the key. *)
Definition has (k : key) (d : list (key * json)) : Prop := In k (List.map fst d).

Lemma has_store_same (k : key) (v : json) (d : list (key * json)) :
  has k (store k v d).
Proof.
  unfold has. induction d as [|[k' v'] d IH]; simpl; [now left|].
  destruct (key_eqb k k'); simpl; auto.
Qed.

Lemma has_store (k k' : key) (v : json) (d : list (key * json)) :
  has k d -> has k (store k' v d).
Proof.
  unfold has. induction d as [|[k1 v1] d IH]; simpl; [tauto|].
  intros [-> | H].
  - destruct (key_eqb k' k) eqn:E; simpl; [|now left].
    apply key_eqb_eq in E. now left.
  - destruct (key_eqb k' k1); simpl; auto.
Qed.

Lemma has_update (k : key) (more d : list (key * json)) :
  has k d -> has k (update d more).
Proof.
  unfold update. revert d. induction more as [|[k' v'] more IH]; simpl; auto.
  intros d H. apply IH. now apply has_store.
Qed.

Lemma add_missing_keeps (k : key) (missing : list (string * json)) :
  forall d, has k d -> has k (add_missing missing d).
Proof.
  induction missing as [|[n s] missing IH]; simpl; auto.
  intros d H. apply IH. destruct (lookup (KS n) d); auto. now apply has_store.
Qed.

Lemma add_missing_adds (name : string) (schema : json)
      (missing : list (string * json)) :
  In (name, schema) missing ->
  forall d, has (KS name) (add_missing missing d).
Proof.
  induction missing as [|[n s] missing IH]; simpl; [tauto|].
  intros [E | H] d; [|now apply IH].
  injection E as -> ->. apply add_missing_keeps.
  destruct (lookup (KS name) d) eqn:El.
  - eapply lookup_in; eauto.
  - apply has_store_same.
Qed.

(** The replacement keeps the keys of a dictionary. *)
Lemma entries_keys (pred : key -> json -> result bool)
      (repl : key -> json -> result json) (repl_only : bool)
      (rec : json -> result json) (d : list (key * json)) :
  forall d', entries pred repl repl_only rec d = Ok d' ->
             List.map fst d' = List.map fst d.
Proof.
  induction d as [|[k v] d IH]; cbn [entries]; intros d' H.
  - now injection H as <-.
  - bind_inv H. bind_inv H. injection H as <-. simpl. f_equal. auto.
Qed.

(** An entry that the predicate does not hold of stays. *)
Lemma sweep_keeps (q : key -> list (key * json) -> bool)
      (pop : json -> result (json * list (key * json))) (k : key) :
  (forall dv, q k dv = false) ->
  forall (d popped kept to_pop popped' : list (key * json)),
    sweep q pop d popped = Ok (kept, to_pop, popped') ->
    has k d -> has k kept.
Proof.
  intros Hq. unfold has.
  induction d as [|[k' v'] d IH]; cbn [sweep]; intros popped kept to_pop popped' H Hk.
  - destruct Hk.
  - destruct v' as [| b | z | s | l | dv].
    1-5: bind_inv H;
         match goal with x : (_ * _ * _)%type |- _ => destruct x as [[kept1 tp1] pp1] end;
         injection H as <- _ _; simpl in *;
         destruct Hk as [-> | Hk]; [now left | right; eapply IH; eauto].
    bind_inv H.
    match goal with x : (json * _)%type |- _ => destruct x as [v1 more1] end.
    bind_inv H.
    match goal with x : (_ * _ * _)%type |- _ => destruct x as [[kept1 tp1] pp1] end.
    simpl in Hk. destruct Hk as [-> | Hk].
    + rewrite Hq in H. injection H as <- _ _. now left.
    + destruct (q k' dv); injection H as <- _ _; simpl; [|right]; eapply IH; eauto.
Qed.

End MissingFacts.

Section MissingProperties.
Import PyStr Models ModelsFacts Util Openapi DefinitionsFacts MissingFacts.

(** X21. The dictionary that [extract_definitions(paths, missing)]
    returns has an entry under the name of every model of [missing],
    unless the model is called [definitions]. *)
Theorem extract_definitions_has_missing :
  forall (paths : json) (missing : list (string * json)) (paths' : json)
         (definitions : list (key * json)) (name : string) (schema : json),
    extract_definitions paths missing = Ok (paths', definitions) ->
    In (name, schema) missing -> name <> "definitions"%string ->
    In (KS name) (List.map fst definitions).
Proof.
  intros paths missing paths' definitions name schema H Hin Hname.
  unfold extract_definitions in H.
  bind_inv H. rename a into p1. bind_inv H. destruct a as [p2 d1].
  bind_inv H. rename a into d2. bind_inv H. destruct a as [d3 more].
  destruct d3 as [| | | | |d3]; try discriminate. injection H as _ <-.
  apply has_update.
  cbn [recurse_dict] in Ha1. bind_inv Ha1. injection Ha1 as <-.
  rename a into d2. rename Ha3 into Hd2.
  rewrite pop_if_eq in Ha2. bind_inv Ha2.
  match goal with x : (_ * _ * _)%type |- _ => destruct x as [[kept to_pop] popped] end.
  injection Ha2 as <- _.
  match goal with Hs : sweep _ _ _ _ = Ok _ |- _ =>
    eapply sweep_keeps; [|exact Hs|]
  end.
  - intros dv. unfold pop_pred. simpl.
    destruct (String.eqb name "definitions") eqn:E; [|reflexivity].
    apply String.eqb_eq in E. contradiction.
  - unfold has. rewrite (entries_keys _ _ _ _ _ _ Hd2).
    eapply add_missing_adds; eauto.
Qed.

Lemma extract_definitions_has_missing_witness :
  In (KS "User")
     (List.map fst [(KS "Task", OpenapiScenario.task_model);
                    (KS "User", MissingScenario.user_model)]).
Proof.
  apply (extract_definitions_has_missing OpenapiScenario.task_paths
           [("User"%string, MissingScenario.user_model)]
           (OpenapiScenario.paths_of
              (OpenapiScenario.body_schema "#/components/schemas/Task" []))
           _ "User"%string MissingScenario.user_model).
  - vm_compute. reflexivity.
  - now left.
  - discriminate.
Defined.

End MissingProperties.
